(** * OnboardBot: the result-aggregation pipeline, embedded and verified

    A shallow embedding of the JavaScript sources of OnboardBot
    (repo-analyzer, docs-fetcher, teams-gatherer, guide-generator, the
    orchestrator [runOnboardBot], the constants table and the demo session
    of the CLI), followed by the properties of the pipeline.

    Modelling conventions.
    - JavaScript strings are byte strings holding UTF-8 text; case mapping
      is the ASCII one.  [js_length] recovers the UTF-16 length that
      [String.prototype.length] reports.
    - JSON numbers are kept as the lexeme that was read; objects are
      association lists in source order.
    - An [async] function is a state-and-exception computation: [await] is
      the monadic bind, a rejected promise is [Rejected] with the message of
      the error, and mutations made before a throw persist.
    - The chat session is an oracle: [reply origin i prompt] is the answer
      to the [i]-th call issued by the stage [origin] when it sends
      [prompt].  Any stateful session, under any interleaving of the
      concurrent collectors, is such an oracle for the run at hand.
    - The order in which the three promise chains of the parallel phase
      complete is a parameter ([completion_order]).
    - A response of the session is its [message] text; [Date] values
      come from a clock whose successive readings are the [new Date()]
      calls of the run; [path.join] is the POSIX one of Node; the file
      system is the set of directories and the map of file contents that
      [fs.mkdir] and [fs.writeFile] act on. *)

From Stdlib Require Import Ascii String DecimalString.
From stdpp Require Import gmap strings list fin_maps.

Local Open Scope string_scope.

(* ===================================================================== *)
(** * Part I. Definitions                                                 *)
(* ===================================================================== *)

(** ** Characters *)

Definition dquote : ascii := "034"%char.
Definition backslash : ascii := "\"%char.
Definition LF : ascii := "010"%char.
Definition CR : ascii := "013"%char.
Definition TAB : ascii := "009"%char.

Definition code (c : ascii) : nat := nat_of_ascii c.

Definition in_range (lo hi : nat) (c : ascii) : bool :=
  ((lo <=? code c) && (code c <=? hi))%nat.

Definition is_digit (c : ascii) : bool := in_range 48 57 c.
Definition is_upper (c : ascii) : bool := in_range 65 90 c.
Definition is_lower (c : ascii) : bool := in_range 97 122 c.

(** The class [\w] of a regular expression without the unicode flag. *)
Definition is_word (c : ascii) : bool :=
  is_digit c || is_upper c || is_lower c || Ascii.eqb c "_".

Definition lower_char (c : ascii) : ascii :=
  if is_upper c then ascii_of_nat (code c + 32) else c.

(** ** Strings: the methods of [String.prototype] the sources call *)

(** Template literals are written with [~] standing for the double quote,
    a character that occurs in none of the sources' strings. *)
Fixpoint q (s : string) : string :=
  match s with
  | EmptyString => EmptyString
  | String c r => String (if Ascii.eqb c "~" then dquote else c) (q r)
  end.

Fixpoint toLowerCase (s : string) : string :=
  match s with
  | EmptyString => EmptyString
  | String c r => String (lower_char c) (toLowerCase r)
  end.

Fixpoint drop_chars (n : nat) (s : string) : string :=
  match n, s with
  | S n', String _ r => drop_chars n' r
  | _, _ => s
  end.

(** [s.includes(x)] *)
Fixpoint includes (s x : string) : bool :=
  if String.prefix x s then true
  else match s with
       | EmptyString => false
       | String _ r => includes r x
       end.

(** [s.replace(pat, rep)] with a string pattern: the first occurrence only. *)
Fixpoint replace (s pat rep : string) : string :=
  if String.prefix pat s then rep +:+ drop_chars (String.length pat) s
  else match s with
       | EmptyString => EmptyString
       | String c r => String c (replace r pat rep)
       end.

(** [arr.join(sep)] on an array of strings. *)
Definition join (sep : string) (l : list string) : string := String.concat sep l.

(** [s.slice(0, n)] *)
Definition slice0 (n : nat) (s : string) : string := String.substring 0 n s.

(** [s.length]: UTF-16 code units of the UTF-8 text [s]. *)
Fixpoint js_length (s : string) : nat :=
  match s with
  | EmptyString => 0
  | String c r =>
      ((if code c <? 128 then 1
        else if code c <? 192 then 0
        else if code c <? 240 then 1
        else 2) + js_length r)%nat
  end.

(** [x || d] on a possibly undefined string: [undefined] and [""] are falsy. *)
Definition js_or (x : option string) (d : string) : string :=
  match x with
  | Some s => if String.eqb s "" then d else s
  | None => d
  end.

Definition nat_to_string (n : nat) : string :=
  NilZero.string_of_uint (Nat.to_uint n).

Fixpoint span (p : ascii -> bool) (s : string) : string * string :=
  match s with
  | EmptyString => (EmptyString, EmptyString)
  | String c r =>
      if p c then let '(a, b) := span p r in (String c a, b)
      else (EmptyString, s)
  end.

(** ** The regular expressions of the sources *)

(** [/\[[\s\S]*?\]/]: after the opening bracket the lazy star stops at the
    first closing bracket. [lazy_close r] is the shortest prefix of [r]
    that ends with "]". *)
Fixpoint lazy_close (r : string) : option string :=
  match r with
  | EmptyString => None
  | String c r' =>
      if Ascii.eqb c "]" then Some "]"
      else match lazy_close r' with
           | Some m => Some (String c m)
           | None => None
           end
  end.

(** [message.match(/\[[\s\S]*?\]/)]: [match[0]] at the leftmost position
    where the pattern matches, [None] for [null]. *)
Fixpoint match_array (s : string) : option string :=
  match s with
  | EmptyString => None
  | String c r =>
      if Ascii.eqb c "[" then
        match lazy_close r with
        | Some m => Some (String c m)
        | None => match_array r
        end
      else match_array r
  end.

(** [/\{[\s\S]*\}/]: the greedy star runs to the end and backtracks to the
    last closing brace. [greedy_close r] is the longest prefix of [r] that
    ends with "}". *)
Fixpoint greedy_close (r : string) : option string :=
  match r with
  | EmptyString => None
  | String c r' =>
      match greedy_close r' with
      | Some m => Some (String c m)
      | None => if Ascii.eqb c "}" then Some "}" else None
      end
  end.

Fixpoint match_object (s : string) : option string :=
  match s with
  | EmptyString => None
  | String c r =>
      if Ascii.eqb c "{" then
        match greedy_close r with
        | Some m => Some (String c m)
        | None => match_object r
        end
      else match_object r
  end.

(** [/(\w+)\/(\w+)/] tried at the start of [s]: both groups are greedy, and
    a shorter first group can never be followed by the slash. *)
Definition owner_repo_here (s : string) : option (string * string) :=
  let '(w1, rest) := span is_word s in
  match w1, rest with
  | String _ _, String c rest' =>
      if Ascii.eqb c "/" then
        match span is_word rest' with
        | (String a w2, _) => Some (w1, String a w2)
        | _ => None
        end
      else None
  | _, _ => None
  end.

(** [prompt.match(/(\w+)\/(\w+)/)]: the two groups of the leftmost match. *)
Fixpoint match_owner_repo (s : string) : option (string * string) :=
  match owner_repo_here s with
  | Some m => Some m
  | None => match s with
            | EmptyString => None
            | String _ r => match_owner_repo r
            end
  end.

(** The dot of a regular expression matches anything but a line
    terminator: LF, CR, U+2028 and U+2029 (E2 80 A8 and E2 80 A9). *)
Definition at_line_terminator (s : string) : bool :=
  match s with
  | String c r =>
      Ascii.eqb c LF || Ascii.eqb c CR
      || String.prefix (String "226" (String "128" (String "168" ""))) s
      || String.prefix (String "226" (String "128" (String "169" ""))) s
  | EmptyString => false
  end.

(** The rest of [(.+?)!] once the group holds one character: extend the
    group lazily until the next character is "!". *)
Fixpoint lazy_dots_bang (s : string) : option string :=
  match s with
  | EmptyString => None
  | String c r =>
      if Ascii.eqb c "!" then Some ""
      else if at_line_terminator s then None
      else match lazy_dots_bang r with
           | Some g => Some (String c g)
           | None => None
           end
  end.

Definition hello_here (s : string) : option string :=
  if String.prefix "Hello, " s then
    match drop_chars 7 s with
    | String c r =>
        if at_line_terminator (String c r) then None
        else match lazy_dots_bang r with
             | Some g => Some (String c g)
             | None => None
             end
    | EmptyString => None
    end
  else None.

(** [prompt.match(/Hello, (.+?)!/)]: the group of the leftmost match. *)
Fixpoint match_hello (s : string) : option string :=
  match hello_here s with
  | Some g => Some g
  | None => match s with
            | EmptyString => None
            | String _ r => match_hello r
            end
  end.

(** ** Results of fallible code *)

(** A settled promise, or the result of code that can throw: [Rejected]
    carries the [message] of the error. *)
Inductive outcome (A : Type) : Type :=
| Resolved (a : A)
| Rejected (err : string).
Arguments Resolved {A} a.
Arguments Rejected {A} err.

Definition is_rejected {A} (o : outcome A) : bool :=
  match o with Resolved _ => false | Rejected _ => true end.

(** [try { body } catch { handler }] around code without side effects. *)
Definition try_catch_pure {A} (body : outcome A) (handler : string -> outcome A)
  : outcome A :=
  match body with
  | Resolved a => Resolved a
  | Rejected err => handler err
  end.

(** ** JSON *)

Local Unset Elimination Schemes.
Inductive json : Type :=
| JNull
| JBool (b : bool)
| JNumber (lexeme : string)
| JString (s : string)
| JArray (items : list json)
| JObject (members : list (string * json)).
Local Set Elimination Schemes.

Inductive parsed (A : Type) : Type :=
| Parsed (a : A) (rest : string)
| SyntaxError
| OutOfFuel.
Arguments Parsed {A} a rest.
Arguments SyntaxError {A}.
Arguments OutOfFuel {A}.

Definition is_ws (c : ascii) : bool :=
  Ascii.eqb c " " || Ascii.eqb c TAB || Ascii.eqb c LF || Ascii.eqb c CR.

Fixpoint skip_ws (s : string) : string :=
  match s with
  | String c r => if is_ws c then skip_ws r else s
  | EmptyString => EmptyString
  end.

Definition hex_value (c : ascii) : option nat :=
  if is_digit c then Some (code c - 48)%nat
  else if in_range 65 70 c then Some (code c - 55)%nat
  else if in_range 97 102 c then Some (code c - 87)%nat
  else None.

(** The UTF-8 bytes of one UTF-16 code unit (a surrogate is encoded on its
    own, so that [js_length] still counts it as one unit). *)
Definition utf8_of_unit (n : nat) : string :=
  (if n <? 128 then String (ascii_of_nat n) ""
   else if n <? 2048 then
     String (ascii_of_nat (192 + n / 64)) (String (ascii_of_nat (128 + n mod 64)) "")
   else
     String (ascii_of_nat (224 + n / 4096))
       (String (ascii_of_nat (128 + (n / 64) mod 64))
          (String (ascii_of_nat (128 + n mod 64)) "")))%nat.

Definition simple_escape (e : ascii) : option ascii :=
  if Ascii.eqb e dquote then Some dquote
  else if Ascii.eqb e backslash then Some backslash
  else if Ascii.eqb e "/" then Some "/"%char
  else if Ascii.eqb e "b" then Some "008"%char
  else if Ascii.eqb e "f" then Some "012"%char
  else if Ascii.eqb e "n" then Some LF
  else if Ascii.eqb e "r" then Some CR
  else if Ascii.eqb e "t" then Some TAB
  else None.

(** A string literal after its opening quote: the decoded value and what
    follows the closing quote. *)
Fixpoint string_body (s : string) : option (string * string) :=
  match s with
  | EmptyString => None
  | String c r =>
      if Ascii.eqb c dquote then Some ("", r)
      else if Ascii.eqb c backslash then
        match r with
        | String e r1 =>
            if Ascii.eqb e "u" then
              match r1 with
              | String h1 (String h2 (String h3 (String h4 r2))) =>
                  match hex_value h1, hex_value h2, hex_value h3, hex_value h4 with
                  | Some a, Some b, Some c', Some d =>
                      match string_body r2 with
                      | Some (v, rest) =>
                          Some (utf8_of_unit (a * 4096 + b * 256 + c' * 16 + d) +:+ v, rest)
                      | None => None
                      end
                  | _, _, _, _ => None
                  end
              | _ => None
              end
            else
              match simple_escape e with
              | Some x =>
                  match string_body r1 with
                  | Some (v, rest) => Some (String x v, rest)
                  | None => None
                  end
              | None => None
              end
        | EmptyString => None
        end
      else if (code c <? 32)%nat then None
      else
        match string_body r with
        | Some (v, rest) => Some (String c v, rest)
        | None => None
        end
  end.

Definition digits1 (s : string) : option (string * string) :=
  match span is_digit s with
  | (String d ds, rest) => Some (String d ds, rest)
  | _ => None
  end.

Definition number_int (s : string) : option (string * string) :=
  match s with
  | String c r =>
      if Ascii.eqb c "0" then Some ("0", r)
      else digits1 s
  | EmptyString => None
  end.

Definition number_frac (s : string) : option (string * string) :=
  match s with
  | String c r =>
      if Ascii.eqb c "." then
        match digits1 r with
        | Some (ds, rest) => Some (String c ds, rest)
        | None => None
        end
      else Some ("", s)
  | EmptyString => Some ("", s)
  end.

Definition number_sign (s : string) : string * string :=
  match s with
  | String x r =>
      if Ascii.eqb x "+" || Ascii.eqb x "-" then (String x "", r) else ("", s)
  | EmptyString => ("", s)
  end.

Definition number_exp (s : string) : option (string * string) :=
  match s with
  | String c r =>
      if Ascii.eqb c "e" || Ascii.eqb c "E" then
        let '(sign, r') := number_sign r in
        match digits1 r' with
        | Some (ds, rest) => Some (String c (sign +:+ ds), rest)
        | None => None
        end
      else Some ("", s)
  | EmptyString => Some ("", s)
  end.

Definition number (s : string) : option (string * string) :=
  let '(sign, r) :=
    match s with
    | String c r => if Ascii.eqb c "-" then ("-", r) else ("", s)
    | EmptyString => ("", s)
    end in
  match number_int r with
  | Some (i, r1) =>
      match number_frac r1 with
      | Some (f, r2) =>
          match number_exp r2 with
          | Some (e, r3) => Some (sign +:+ i +:+ f +:+ e, r3)
          | None => None
          end
      | None => None
      end
  | None => None
  end.

Definition scalar (s : string) : parsed json :=
  if String.prefix "null" s then Parsed JNull (drop_chars 4 s)
  else if String.prefix "true" s then Parsed (JBool true) (drop_chars 4 s)
  else if String.prefix "false" s then Parsed (JBool false) (drop_chars 5 s)
  else match number s with
       | Some (lex, rest) => Parsed (JNumber lex) rest
       | None => SyntaxError
       end.

(** Recursive descent over the JSON grammar.  The three productions are
    written over the parsers of their sub-terms; [value], [elements] and
    [members] tie the knot, every call spending one unit of fuel, and
    [fuel_for] is shown below to be enough for any text. *)

(** A value: [elements] and [members] parse what follows an opening
    bracket or brace that is not closed at once. *)
Definition value_with (elements : string -> parsed (list json))
  (members : string -> parsed (list (string * json))) (s : string) : parsed json :=
  match skip_ws s with
  | EmptyString => SyntaxError
  | String c r =>
      if Ascii.eqb c "[" then
        match skip_ws r with
        | EmptyString => SyntaxError
        | String c' r' =>
            if Ascii.eqb c' "]" then Parsed (JArray []) r'
            else match elements (String c' r') with
                 | Parsed vs rest => Parsed (JArray vs) rest
                 | SyntaxError => SyntaxError
                 | OutOfFuel => OutOfFuel
                 end
        end
      else if Ascii.eqb c "{" then
        match skip_ws r with
        | EmptyString => SyntaxError
        | String c' r' =>
            if Ascii.eqb c' "}" then Parsed (JObject []) r'
            else match members (String c' r') with
                 | Parsed ms rest => Parsed (JObject ms) rest
                 | SyntaxError => SyntaxError
                 | OutOfFuel => OutOfFuel
                 end
        end
      else if Ascii.eqb c dquote then
        match string_body r with
        | Some (v, rest) => Parsed (JString v) rest
        | None => SyntaxError
        end
      else scalar (String c r)
  end.

(** The elements of an array, up to and including its closing bracket. *)
Definition elements_with (value : string -> parsed json)
  (elements : string -> parsed (list json)) (s : string) : parsed (list json) :=
  match value s with
  | Parsed v rest =>
      match skip_ws rest with
      | EmptyString => SyntaxError
      | String c r =>
          if Ascii.eqb c "," then
            match elements r with
            | Parsed vs rest' => Parsed (v :: vs) rest'
            | SyntaxError => SyntaxError
            | OutOfFuel => OutOfFuel
            end
          else if Ascii.eqb c "]" then Parsed [v] r
          else SyntaxError
      end
  | SyntaxError => SyntaxError
  | OutOfFuel => OutOfFuel
  end.

(** The members of an object, up to and including its closing brace. *)
Definition members_with (value : string -> parsed json)
  (members : string -> parsed (list (string * json))) (s : string)
  : parsed (list (string * json)) :=
  match skip_ws s with
  | EmptyString => SyntaxError
  | String c r =>
      if Ascii.eqb c dquote then
        match string_body r with
        | None => SyntaxError
        | Some (k, rest) =>
            match skip_ws rest with
            | EmptyString => SyntaxError
            | String c2 r2 =>
                if Ascii.eqb c2 ":" then
                  match value r2 with
                  | Parsed v rest2 =>
                      match skip_ws rest2 with
                      | EmptyString => SyntaxError
                      | String c3 r3 =>
                          if Ascii.eqb c3 "," then
                            match members r3 with
                            | Parsed ms rest' => Parsed ((k, v) :: ms) rest'
                            | SyntaxError => SyntaxError
                            | OutOfFuel => OutOfFuel
                            end
                          else if Ascii.eqb c3 "}" then Parsed [(k, v)] r3
                          else SyntaxError
                      end
                  | SyntaxError => SyntaxError
                  | OutOfFuel => OutOfFuel
                  end
                else SyntaxError
            end
        end
      else SyntaxError
  end.

Fixpoint value (fuel : nat) (s : string) : parsed json :=
  match fuel with
  | 0 => OutOfFuel
  | S fuel' => value_with (elements fuel') (members fuel') s
  end
with elements (fuel : nat) (s : string) : parsed (list json) :=
  match fuel with
  | 0 => OutOfFuel
  | S fuel' => elements_with (value fuel') (elements fuel') s
  end
with members (fuel : nat) (s : string) : parsed (list (string * json)) :=
  match fuel with
  | 0 => OutOfFuel
  | S fuel' => members_with (value fuel') (members fuel') s
  end.

Definition fuel_for (text : string) : nat := 2 * String.length text + 2.

(** [JSON.parse(text)]: the value, or a thrown [SyntaxError] (engines word
    its message differently; no caller in the sources reads it). *)
Definition JSON_parse (text : string) : outcome json :=
  match value (fuel_for text) text with
  | Parsed v rest =>
      match skip_ws rest with
      | EmptyString => Resolved v
      | String _ _ => Rejected "SyntaxError"
      end
  | SyntaxError => Rejected "SyntaxError"
  | OutOfFuel => Rejected "SyntaxError"
  end.

(** [JSON.stringify(v, null, 2)] *)

Definition hex_digit (n : nat) : ascii :=
  if (n <? 10)%nat then ascii_of_nat (48 + n) else ascii_of_nat (87 + n).

Fixpoint quote_chars (s : string) : string :=
  match s with
  | EmptyString => EmptyString
  | String c r =>
      (if Ascii.eqb c dquote then String backslash (String dquote "")
       else if Ascii.eqb c backslash then String backslash (String backslash "")
       else if Ascii.eqb c "008" then String backslash "b"
       else if Ascii.eqb c "012" then String backslash "f"
       else if Ascii.eqb c LF then String backslash "n"
       else if Ascii.eqb c CR then String backslash "r"
       else if Ascii.eqb c TAB then String backslash "t"
       else if (code c <? 32)%nat then
         String backslash
           (String "u" (String "0" (String "0"
              (String (hex_digit (code c / 16)) (String (hex_digit (code c mod 16)) "")))))
       else String c "") +:+ quote_chars r
  end.

Definition quote (s : string) : string :=
  String dquote (quote_chars s +:+ String dquote "").

Definition newline : string := String LF "".

Fixpoint stringify_at (indent : string) (v : json) : string :=
  let inner := indent +:+ "  " in
  match v with
  | JNull => "null"
  | JBool true => "true"
  | JBool false => "false"
  | JNumber lexeme => lexeme
  | JString s => quote s
  | JArray [] => "[]"
  | JArray items =>
      "[" +:+ newline +:+ inner
      +:+ join ("," +:+ newline +:+ inner) (map (stringify_at inner) items)
      +:+ newline +:+ indent +:+ "]"
  | JObject [] => "{}"
  | JObject members =>
      "{" +:+ newline +:+ inner
      +:+ join ("," +:+ newline +:+ inner)
            (map (fun m => quote (fst m) +:+ ": " +:+ stringify_at inner (snd m)) members)
      +:+ newline +:+ indent +:+ "}"
  end.

Definition JSON_stringify (v : json) : string := stringify_at "" v.

(** How [Array.prototype.join] renders an element. *)
Fixpoint join_item (v : json) : string :=
  match v with
  | JNull => ""
  | JBool true => "true"
  | JBool false => "false"
  | JNumber lexeme => lexeme
  | JString s => s
  | JArray items => join "," (map join_item items)
  | JObject _ => "[object Object]"
  end.

(** ** Dates, paths and the file system *)

(** A [Date], by its UTC calendar fields. *)
Record Date := {
  year : Z;
  month : nat;
  day : nat;
  hours : nat;
  minutes : nat;
  seconds : nat;
  milliseconds : nat
}.

Definition digit (n : nat) : ascii := ascii_of_nat (48 + n mod 10).
Definition pad2 (n : nat) : string := String (digit (n / 10)) (String (digit n) "").
Definition pad3 (n : nat) : string := String (digit (n / 100)) (pad2 n).
Definition pad4 (n : nat) : string := String (digit (n / 1000)) (pad3 n).
Definition pad6 (n : nat) : string :=
  String (digit (n / 1000 / 100)) (String (digit (n / 1000 / 10)) (pad4 n)).

(** Years outside 0..9999 are written with a sign and six digits. *)
Definition iso_year (y : Z) : string :=
  if ((0 <=? y) && (y <=? 9999))%Z then pad4 (Z.to_nat y)
  else (if (y <? 0)%Z then "-" else "+") +:+ pad6 (Z.to_nat (Z.abs y)).

(** [d.toISOString()] *)
Definition toISOString (d : Date) : string :=
  iso_year (year d) +:+ "-" +:+ pad2 (month d) +:+ "-" +:+ pad2 (day d)
  +:+ "T" +:+ pad2 (hours d) +:+ ":" +:+ pad2 (minutes d) +:+ ":" +:+ pad2 (seconds d)
  +:+ "." +:+ pad3 (milliseconds d) +:+ "Z".

(** The calendar day of [d], as YYYY-MM-DD. *)
Definition ymd (d : Date) : string :=
  pad4 (Z.to_nat (year d)) +:+ "-" +:+ pad2 (month d) +:+ "-" +:+ pad2 (day d).

(** [path.join(a, b)] of Node on POSIX: glue with a slash, then normalize
    the "." and ".." segments. *)
Fixpoint split_slash (s : string) : list string :=
  match s with
  | EmptyString => [EmptyString]
  | String c r =>
      if Ascii.eqb c "/" then EmptyString :: split_slash r
      else match split_slash r with
           | seg :: segs => String c seg :: segs
           | [] => [String c ""]
           end
  end.

Fixpoint normalize_segments (allowAboveRoot : bool) (res segs : list string)
  : list string :=
  match segs with
  | [] => rev res
  | seg :: rest =>
      if String.eqb seg "" || String.eqb seg "." then
        normalize_segments allowAboveRoot res rest
      else if String.eqb seg ".." then
        match res with
        | last :: res' =>
            if String.eqb last ".." then
              normalize_segments allowAboveRoot
                (if allowAboveRoot then ".." :: res else res) rest
            else normalize_segments allowAboveRoot res' rest
        | [] =>
            normalize_segments allowAboveRoot
              (if allowAboveRoot then [".."] else []) rest
        end
      else normalize_segments allowAboveRoot (seg :: res) rest
  end.

Fixpoint ends_with_slash (s : string) : bool :=
  match s with
  | EmptyString => false
  | String c EmptyString => Ascii.eqb c "/"
  | String _ r => ends_with_slash r
  end.

Definition path_normalize (path : string) : string :=
  if String.eqb path "" then "."
  else
    let isAbsolute := String.prefix "/" path in
    let trailingSeparator := ends_with_slash path in
    let p := join "/" (normalize_segments (negb isAbsolute) [] (split_slash path)) in
    if String.eqb p "" then
      if isAbsolute then "/" else if trailingSeparator then "./" else "."
    else
      (if isAbsolute then "/" else "") +:+ p +:+ (if trailingSeparator then "/" else "").

Definition path_join (a b : string) : string :=
  let joined :=
    if String.eqb a "" then b
    else if String.eqb b "" then a
    else a +:+ "/" +:+ b in
  if String.eqb joined "" then "." else path_normalize joined.

(** The part of the file system the pipeline touches: the directories that
    exist and the contents of the files. *)
Record FileSystem := {
  dirs : gset string;
  files : gmap string string
}.

(** ** The data model of a run *)

Record response := { message : string }.

(** One [session.sendAndWait] call, as it happened. *)
Record call := {
  origin : string;
  prompt : string;
  answer : outcome response
}.

Definition threw (c : call) : bool := is_rejected (answer c).

Record RepositoryAnalysis := {
  repoFullName : string;
  structure : list json;
  techStack : list string;
  docs : list json;
  prActivity : list json;
  issues : list json;
  discussions : list json
}.

Record LearningResourceGroup := {
  technology : string;
  resources : list json
}.

Record TeamContext := {
  recentDiscussions : list json;
  teamMembers : list json;
  upcomingEvents : list json;
  teamNorms : json;
  emailInsights : list json;
  relatedDocuments : list json
}.

Record Guide := {
  content : string;
  outputPath : string
}.

(** The stage-specific fields of an entry of [results.steps]. *)
Inductive StepMetrics : Type :=
| RepoMetrics (techStack : list string) (filesFound docsFound prsFound issuesFound : nat)
| DocsMetrics (resourceCount : nat)
| TeamMetrics (discussions people events emails documents : nat)
| GuideMetrics (outputPath : string) (contentLength : nat).

Record StepOutcome := {
  step : string;
  status : string;
  metrics : StepMetrics
}.

Record ErrorEntry := {
  error_step : string;
  error : string
}.

Record PipelineRunResult := {
  steps : list StepOutcome;
  errors : list ErrorEntry;
  guide : option Guide
}.

Record Options := {
  owner : string;
  repo : string;
  teamName : option string;
  newHireName : option string
}.

(** ** Asynchronous code *)

(** What the process reads from its surroundings: the clock (its
    successive readings), the faults of the file system, and the
    [OUTPUT_DIR] variable of the environment. *)
Record Env := {
  clock : nat -> Date;
  mkdir_error : string -> FileSystem -> option string;
  writeFile_error : string -> FileSystem -> option string;
  OUTPUT_DIR_env : option string
}.

(** What a run changes: the [results] accumulator of [runOnboardBot], the
    transcript of the session, the number of clock readings and the file
    system. *)
Record World := {
  results : PipelineRunResult;
  calls : list call;
  clock_reads : nat;
  fs : FileSystem
}.

Definition set_results (r : PipelineRunResult) (w : World) : World :=
  {| results := r; calls := calls w; clock_reads := clock_reads w; fs := fs w |}.
Definition set_calls (cs : list call) (w : World) : World :=
  {| results := results w; calls := cs; clock_reads := clock_reads w; fs := fs w |}.
Definition set_clock_reads (n : nat) (w : World) : World :=
  {| results := results w; calls := calls w; clock_reads := n; fs := fs w |}.
Definition set_fs (f : FileSystem) (w : World) : World :=
  {| results := results w; calls := calls w; clock_reads := clock_reads w; fs := f |}.

Definition async (A : Type) : Type := Env -> World -> outcome A * World.

#[export] Instance async_ret : MRet async :=
  fun A (a : A) _ w => (Resolved a, w).

(** [await]: a rejection skips the continuation. *)
#[export] Instance async_bind : MBind async :=
  fun A B (k : A -> async B) (m : async A) env w =>
    match m env w with
    | (Resolved a, w') => k a env w'
    | (Rejected err, w') => (Rejected err, w')
    end.

Definition throw {A} (err : string) : async A :=
  fun _ w => (Rejected err, w).

Definition settle {A} (o : outcome A) : async A :=
  fun _ w => (o, w).

(** [try { body } catch (err) { handler }], and [p.catch(handler)]. *)
Definition try_catch {A} (body : async A) (handler : string -> async A) : async A :=
  fun env w =>
    match body env w with
    | (Resolved a, w') => (Resolved a, w')
    | (Rejected err, w') => handler err env w'
    end.

(** The session handed to a function: the oracle of replies, and the stage
    on whose behalf the calls are issued. *)
Record Session := {
  stage_of : string;
  reply : string -> nat -> string -> outcome response
}.

Definition for_stage (stage : string) (session : Session) : Session :=
  {| stage_of := stage; reply := reply session |}.

Definition calls_of (stage : string) (cs : list call) : list call :=
  List.filter (fun c => String.eqb (origin c) stage) cs.

(** The reply the next call of [session] gets in [w]: the calls already
    issued on behalf of its stage number it. *)
Definition next_reply (session : Session) (w : World) (prompt : string)
  : outcome response :=
  reply session (stage_of session)
    (length (calls_of (stage_of session) (calls w))) prompt.

(** [session.sendAndWait(prompt)] *)
Definition sendAndWait (session : Session) (prompt : string) : async response :=
  fun _ w =>
    let a := next_reply session w prompt in
    (a, set_calls (calls w ++ [{| origin := stage_of session; prompt := prompt; answer := a |}])%list w).

(** [new Date()] *)
Definition new_Date : async Date :=
  fun env w => (Resolved (clock env (clock_reads w)), set_clock_reads (S (clock_reads w)) w).

(** [mkdir(dir, { recursive: true })] *)
Definition mkdir (dir : string) : async unit :=
  fun env w =>
    match mkdir_error env dir (fs w) with
    | Some err => (Rejected err, w)
    | None =>
        (Resolved tt,
         set_fs {| dirs := {[dir]} ∪ dirs (fs w); files := files (fs w) |} w)
    end.

(** [writeFile(path, content, "utf-8")]: the file is created or replaced. *)
Definition writeFile (path content : string) : async unit :=
  fun env w =>
    match writeFile_error env path (fs w) with
    | Some err => (Rejected err, w)
    | None =>
        (Resolved tt,
         set_fs {| dirs := dirs (fs w); files := <[path := content]> (files (fs w)) |} w)
    end.

(** The mutations of the [results] object. *)
Definition fresh_results : PipelineRunResult :=
  {| steps := []; errors := []; guide := None |}.

Definition new_results : async unit :=
  fun _ w => (Resolved tt, set_results fresh_results w).

Definition push_step (s : StepOutcome) : async unit :=
  fun _ w =>
    (Resolved tt,
     set_results {| steps := (steps (results w) ++ [s])%list;
                    errors := errors (results w);
                    guide := guide (results w) |} w).

Definition push_error (e : ErrorEntry) : async unit :=
  fun _ w =>
    (Resolved tt,
     set_results {| steps := steps (results w);
                    errors := (errors (results w) ++ [e])%list;
                    guide := guide (results w) |} w).

Definition set_guide (g : Guide) : async unit :=
  fun _ w =>
    (Resolved tt,
     set_results {| steps := steps (results w);
                    errors := errors (results w);
                    guide := Some g |} w).

Definition get_results : async PipelineRunResult :=
  fun _ w => (Resolved (results w), w).

(** ** config/constants.js *)

Definition OUTPUT_DIR (env : Env) : string :=
  js_or (OUTPUT_DIR_env env) "./onboarding-guides".

Definition MAX_FILES_TO_ANALYZE : nat := 20.
Definition MAX_DISCUSSIONS_TO_FETCH : nat := 10.
Definition MAX_ISSUES_TO_FETCH : nat := 15.
Definition MAX_PRS_TO_FETCH : nat := 10.

Definition ARCHITECTURE_FILES : list string :=
  [ "README.md"; "CONTRIBUTING.md"; "ARCHITECTURE.md"; "docs/"; "package.json";
    "requirements.txt"; "Cargo.toml"; "go.mod"; "pom.xml"; "build.gradle";
    "Makefile"; "Dockerfile"; "docker-compose.yml"; "docker-compose.yaml";
    ".github/workflows/"; "tsconfig.json"; "pyproject.toml"; "setup.py";
    ".eslintrc"; ".prettierrc"; "jest.config"; "vitest.config" ].

Definition TECH_PATTERNS : list (string * list string) :=
  [ ("Node.js / JavaScript", ["package.json"; "node_modules"; ".nvmrc"]);
    ("TypeScript", ["tsconfig.json"; "*.ts"; "*.tsx"]);
    ("Python", ["requirements.txt"; "pyproject.toml"; "setup.py"; "Pipfile"]);
    ("Rust", ["Cargo.toml"; "*.rs"]);
    ("Go", ["go.mod"; "go.sum"; "*.go"]);
    ("Java", ["pom.xml"; "build.gradle"; "*.java"]);
    ("C# / .NET", ["*.csproj"; "*.sln"; "Program.cs"]);
    ("Docker", ["Dockerfile"; "docker-compose.yml"]);
    ("Kubernetes", ["k8s/"; "*.yaml"]);
    ("React", ["react"; "jsx"; "tsx"]);
    ("Next.js", ["next.config"]);
    ("Azure Functions", ["host.json"; "function.json"]);
    ("Terraform", ["*.tf"; "terraform/"]);
    ("Bicep", ["*.bicep"; "main.bicep"]) ].

(** ** Response extraction *)

(** A parsed value read as an array.  The text handed to [JSON.parse] by
    the array-shape calls starts with "[", so a successful parse is always
    an array ([parse_bracket_is_array] below) and the other branch is
    never taken. *)
Definition as_array (v : json) : list json :=
  match v with
  | JArray items => items
  | _ => []
  end.

(** The statement every array-shape call ends with:
<<
    try {
      const match = response.message.match(/\[[\s\S]*?\]/);
      return match ? JSON.parse(match[0]) : [];
    } catch {
      return on_error;
    }
>>
    [on_error] is [[]] everywhere but in [getKeyDocuments]. *)
Definition array_from (message : string) (on_error : list json) : outcome (list json) :=
  try_catch_pure
    (match match_array message with
     | Some m =>
         match JSON_parse m with
         | Resolved v => Resolved (as_array v)
         | Rejected err => Rejected err
         end
     | None => Resolved []
     end)
    (fun _ => Resolved on_error).

(** ** agents/repo-analyzer.js *)

Definition getRepoStructure_prompt (owner repo : string) : string :=
  "Use the GitHub MCP tools to get the repository tree/contents for "
  +:+ owner
  +:+ "/"
  +:+ repo
  +:+ q ". 
List the top-level files and directories. Return ONLY a JSON array of file/directory names, like:
[~README.md~, ~src/~, ~package.json~, ~docs/~, ~.github/~]
Do not include any explanation, just the JSON array.".

(** Get the top-level repo structure (file/directory listing). *)
Definition getRepoStructure (session : Session) (owner repo : string)
  : async (list json) :=
  let prompt := getRepoStructure_prompt owner repo in
  response ← sendAndWait session prompt;
  settle (array_from (message response) []).

(** The inner loop of [detectTechStack]: the first pattern found in the
    listing ends it. *)
Fixpoint some_pattern_found (structureStr : string) (patterns : list string) : bool :=
  match patterns with
  | [] => false
  | pattern :: rest =>
      let normalizedPattern := toLowerCase (replace pattern "*." "") in
      if includes structureStr (replace normalizedPattern "/" "") then true
      else some_pattern_found structureStr rest
  end.

Fixpoint detected_in (structureStr : string) (table : list (string * list string))
  : list string :=
  match table with
  | [] => []
  | (tech, patterns) :: rest =>
      if some_pattern_found structureStr patterns
      then tech :: detected_in structureStr rest
      else detected_in structureStr rest
  end.

(** [[...new Set(l)]]: the first occurrence of each element, in order. *)
Fixpoint set_from (seen l : list string) : list string :=
  match l with
  | [] => []
  | x :: r =>
      if existsb (String.eqb x) seen then set_from seen r
      else x :: set_from (x :: seen) r
  end.

(** Detect tech stack from repo structure. *)
Definition detectTechStack (structure : list json) : list string :=
  let structureStr := toLowerCase (join " " (map join_item structure)) in
  set_from [] (detected_in structureStr TECH_PATTERNS).

(** The [TypeError] of calling [toLowerCase] on something that is not a
    string (in the wording of V8). *)
Definition toLowerCase_type_error (v : json) : string :=
  match v with
  | JNull => "Cannot read properties of null (reading 'toLowerCase')"
  | _ => "s.toLowerCase is not a function"
  end.

(** [structure.some((s) => s.toLowerCase().includes(normalizedFile) ||
    normalizedFile.includes(s.toLowerCase().replace("/", "")))] *)
Fixpoint structure_some (normalizedFile : string) (structure : list json)
  : outcome bool :=
  match structure with
  | [] => Resolved false
  | JString s :: rest =>
      if includes (toLowerCase s) normalizedFile
         || includes normalizedFile (replace (toLowerCase s) "/" "")
      then Resolved true
      else structure_some normalizedFile rest
  | v :: _ => Rejected (toLowerCase_type_error v)
  end.

(** [ARCHITECTURE_FILES.filter((f) => ...)] *)
Fixpoint filter_files (candidates : list string) (structure : list json)
  : outcome (list string) :=
  match candidates with
  | [] => Resolved []
  | f :: rest =>
      let normalizedFile := replace (toLowerCase f) "/" "" in
      match structure_some normalizedFile structure with
      | Rejected err => Rejected err
      | Resolved keep =>
          match filter_files rest structure with
          | Rejected err => Rejected err
          | Resolved kept => Resolved (if keep then f :: kept else kept)
          end
      end
  end.

Definition docs_to_fetch (structure : list json) : outcome (list string) :=
  match filter_files ARCHITECTURE_FILES structure with
  | Rejected err => Rejected err
  | Resolved found =>
      let docsToFetch := take MAX_FILES_TO_ANALYZE found in
      Resolved (if (length docsToFetch =? 0)%nat
                then (docsToFetch ++ ["README.md"])%list
                else docsToFetch)
  end.

Definition getKeyDocuments_prompt (owner repo : string) (docsToFetch : list string) : string :=
  "Use the GitHub MCP tools to get the file contents of these files from "
  +:+ owner
  +:+ "/"
  +:+ repo
  +:+ ":
"
  +:+ join newline (map (fun f => "- " +:+ f) docsToFetch)
  +:+ q "

For each file, return its name and a SUMMARY (not full content) of what it tells a new developer:
- What the project does
- How to set it up
- Key architecture decisions
- Important conventions or patterns

Format as JSON: [{~file~: ~name~, ~summary~: ~...~}]".

Definition could_not_parse : list json :=
  [JObject [("file", JString "README.md");
            ("summary", JString "Could not parse documentation.")]].

(** Read key documentation files from the repo. *)
Definition getKeyDocuments (session : Session) (owner repo : string)
  (structure : list json) : async (list json) :=
  docsToFetch ← settle (docs_to_fetch structure);
  let prompt := getKeyDocuments_prompt owner repo docsToFetch in
  response ← sendAndWait session prompt;
  settle (array_from (message response) could_not_parse).

Definition getRecentPRs_prompt (owner repo : string) : string :=
  "Use the GitHub MCP tools to list the "
  +:+ nat_to_string MAX_PRS_TO_FETCH
  +:+ " most recent pull requests for "
  +:+ owner
  +:+ "/"
  +:+ repo
  +:+ q ".
Include both open and recently merged PRs.

For each PR, return: number, title, state, author, and a one-line description of the change.
Format as JSON array: [{~number~: 1, ~title~: ~...~, ~state~: ~open|merged~, ~author~: ~...~, ~description~: ~...~}]".

(** Get recent pull request activity for context on current work. *)
Definition getRecentPRs (session : Session) (owner repo : string)
  : async (list json) :=
  let prompt := getRecentPRs_prompt owner repo in
  response ← sendAndWait session prompt;
  settle (array_from (message response) []).

Definition getActiveIssues_prompt (owner repo : string) : string :=
  "Use the GitHub MCP tools to list the "
  +:+ nat_to_string MAX_ISSUES_TO_FETCH
  +:+ " most recent open issues for "
  +:+ owner
  +:+ "/"
  +:+ repo
  +:+ q ".
Sort by most recently updated.

For each issue, return: number, title, labels (as array), and a one-line summary.
Format as JSON array: [{~number~: 1, ~title~: ~...~, ~labels~: [~bug~, ~priority~], ~summary~: ~...~}]".

(** Get active issues to understand current priorities. *)
Definition getActiveIssues (session : Session) (owner repo : string)
  : async (list json) :=
  let prompt := getActiveIssues_prompt owner repo in
  response ← sendAndWait session prompt;
  settle (array_from (message response) []).

Definition getDiscussions_prompt (owner repo : string) : string :=
  "Use the GitHub MCP tools to list the "
  +:+ nat_to_string MAX_DISCUSSIONS_TO_FETCH
  +:+ " most recent discussions for "
  +:+ owner
  +:+ "/"
  +:+ repo
  +:+ q ".
If the repo has no discussions enabled, return an empty array.

For each discussion, return: title, category, author, and a one-line summary.
Format as JSON array: [{~title~: ~...~, ~category~: ~...~, ~author~: ~...~, ~summary~: ~...~}]".

(** Get team discussions for community context. *)
Definition getDiscussions (session : Session) (owner repo : string)
  : async (list json) :=
  let prompt := getDiscussions_prompt owner repo in
  response ← sendAndWait session prompt;
  settle (array_from (message response) []).

(** Analyze a GitHub repository for onboarding-relevant information. *)
Definition analyzeRepository (session : Session) (owner repo : string)
  : async RepositoryAnalysis :=
  let repoFullName := owner +:+ "/" +:+ repo in
  structure ← getRepoStructure session owner repo;
  let techStack := detectTechStack structure in
  docs ← getKeyDocuments session owner repo structure;
  prActivity ← getRecentPRs session owner repo;
  issues ← getActiveIssues session owner repo;
  discussions ← getDiscussions session owner repo;
  mret {| repoFullName := repoFullName;
          structure := structure;
          techStack := techStack;
          docs := docs;
          prActivity := prActivity;
          issues := issues;
          discussions := discussions |}.

(** ** agents/docs-fetcher.js *)

Definition searchDocsForTech_prompt (tech : string) : string :=
  q "Use the Microsoft Learn MCP tools to search for ~"
  +:+ tech
  +:+ q " getting started guide~ documentation.

Return the top 5 most relevant results as JSON array:
[{~title~: ~...~, ~url~: ~...~, ~description~: ~One-line description of what the doc covers~}]

Focus on:
- Official getting-started guides
- Best practices
- Architecture patterns
- Common pitfalls to avoid".

(** Search Microsoft Learn for a specific technology. *)
Definition searchDocsForTech (session : Session) (tech : string)
  : async (list json) :=
  let prompt := searchDocsForTech_prompt tech in
  response ← sendAndWait session prompt;
  settle (array_from (message response) []).

Definition searchArchitectureDocs_prompt (techList : string) : string :=
  "Use the Microsoft Learn MCP tools to search for architecture best practices related to: "
  +:+ techList
  +:+ ".

Also search for code samples using the microsoft_code_sample_search tool for: "
  +:+ techList
  +:+ q "

Return the top 5 most relevant results as JSON array:
[{~title~: ~...~, ~url~: ~...~, ~description~: ~...~, ~type~: ~doc|sample~}]

Focus on:
- Solution architecture patterns
- Cloud-native patterns (if applicable)
- Security best practices
- Performance optimization guides".

(** Search for architecture-specific documentation. *)
Definition searchArchitectureDocs (session : Session) (repoContext : RepositoryAnalysis)
  : async (list json) :=
  let techList := join ", " (techStack repoContext) in
  let prompt := searchArchitectureDocs_prompt techList in
  response ← sendAndWait session prompt;
  settle (array_from (message response) []).

Definition searchTutorials_prompt (query : string) : string :=
  "Use the Microsoft Learn MCP tools to search for interactive tutorials and learning paths for: "
  +:+ query
  +:+ q ".

Return the top 5 results as JSON array:
[{~title~: ~...~, ~url~: ~...~, ~description~: ~...~, ~estimatedTime~: ~30 min~}]

Prioritize:
- Hands-on tutorials (not just reference docs)
- Microsoft Learn training modules
- Quickstart guides".

(** Search for interactive tutorials and learning paths. *)
Definition searchTutorials (session : Session) (techStack : list string)
  : async (list json) :=
  let query := join " and " (take 3 techStack) in
  let prompt := searchTutorials_prompt query in
  response ← sendAndWait session prompt;
  settle (array_from (message response) []).

(** The loop [for (const tech of techStack)] of [fetchLearningResources]. *)
Fixpoint search_each_tech (session : Session) (techStack : list string)
  : async (list LearningResourceGroup) :=
  match techStack with
  | [] => mret []
  | tech :: rest =>
      techResources ← searchDocsForTech session tech;
      more ← search_each_tech session rest;
      mret ({| technology := tech; resources := techResources |} :: more)
  end.

(** Fetch relevant Microsoft Learn documentation for the detected tech
    stack. *)
Definition fetchLearningResources (session : Session) (techStack : list string)
  (repoContext : RepositoryAnalysis) : async (list LearningResourceGroup) :=
  resources ← search_each_tech session techStack;
  archResources ← searchArchitectureDocs session repoContext;
  tutorials ← searchTutorials session techStack;
  mret (resources
        ++ [ {| technology := "Architecture & Best Practices";
                resources := archResources |};
             {| technology := "Getting Started Tutorials";
                resources := tutorials |} ])%list.

(** ** agents/teams-gatherer.js *)

Definition getRecentTeamsActivity_prompt (teamName : string) : string :=
  q "Use the WorkIQ MCP tools to search for recent messages in Teams channels related to ~"
  +:+ teamName
  +:+ q "~.

Look for:
- Recent technical discussions or decisions
- Announcements or important updates
- Current sprint/project focus areas
- Any recurring themes or hot topics

Summarize the top 5 most relevant discussion threads as JSON:
[{~topic~: ~...~, ~channel~: ~...~, ~summary~: ~One-line summary~, ~date~: ~approx date~, ~relevance~: ~Why a new hire should know this~}]

If WorkIQ is not available, return an empty array.".

(** Get recent Teams channel discussions relevant to the project. *)
Definition getRecentTeamsActivity (session : Session) (teamName : string)
  : async (list json) :=
  let prompt := getRecentTeamsActivity_prompt teamName in
  response ← sendAndWait session prompt;
  settle (array_from (message response) []).

Definition getKeyPeople_prompt (teamName projectContext : string) : string :=
  q "Use the WorkIQ MCP tools to find key people related to ~"
  +:+ teamName
  +:+ q "~ and the project context: ~"
  +:+ projectContext
  +:+ q "~.

Identify:
- Team lead / manager
- Senior engineers / tech leads
- People who are most active in discussions
- Subject matter experts for the tech stack

Return as JSON array:
[{~name~: ~...~, ~role~: ~Likely role/expertise~, ~reason~: ~Why a new hire should connect with them~}]

Limit to 5-7 key people. If WorkIQ is not available, return an empty array.".

(** Identify key people the new hire should connect with. *)
Definition getKeyPeople (session : Session) (teamName projectContext : string)
  : async (list json) :=
  let prompt := getKeyPeople_prompt teamName projectContext in
  response ← sendAndWait session prompt;
  settle (array_from (message response) []).

Definition getUpcomingEvents_prompt (teamName : string) : string :=
  q "Use the WorkIQ MCP tools to find upcoming meetings and events related to ~"
  +:+ teamName
  +:+ q "~ in the next 2 weeks.

Look for:
- Team standups / syncs
- Sprint planning / retrospectives
- Architecture reviews
- All-hands or team socials
- Any onboarding-specific sessions

Return as JSON array:
[{~event~: ~...~, ~date~: ~...~, ~recurring~: true/false, ~relevance~: ~Why attend as a new hire~}]

Limit to 8 events. If WorkIQ is not available, return an empty array.".

(** Get upcoming team events relevant for onboarding. *)
Definition getUpcomingEvents (session : Session) (teamName : string)
  : async (list json) :=
  let prompt := getUpcomingEvents_prompt teamName in
  response ← sendAndWait session prompt;
  settle (array_from (message response) []).

Definition getDefaultNorms : json :=
  JObject
    [ ("communicationChannels",
       JArray [JString "Ask your team lead for relevant Teams channels"]);
      ("meetingCadence", JString "Check your calendar for recurring team meetings");
      ("codeReviewProcess", JString "Check CONTRIBUTING.md in the repo");
      ("deploymentProcess", JString "Check CI/CD workflows in .github/workflows/");
      ("otherNorms",
       JArray [JString "Introduce yourself in the team channel on your first day!"]) ].

(** The statement [getTeamNorms] ends with:
<<
    try {
      const jsonMatch = response.message.match(/\{[\s\S]*\}/);
      if (jsonMatch) { return JSON.parse(jsonMatch[0]); }
      return getDefaultNorms();
    } catch {
      return getDefaultNorms();
    }
>> *)
Definition norms_from (message : string) : outcome json :=
  try_catch_pure
    (match match_object message with
     | Some jsonMatch => JSON_parse jsonMatch
     | None => Resolved getDefaultNorms
     end)
    (fun _ => Resolved getDefaultNorms).

Definition getTeamNorms_prompt (teamName : string) : string :=
  q "Use the WorkIQ MCP tools to search for team norms, processes, and cultural information about ~"
  +:+ teamName
  +:+ q "~.

Search in:
- Teams channel descriptions and pinned messages
- SharePoint sites or wikis related to the team
- Recent emails about team processes or guidelines

Summarize as JSON:
{
  ~communicationChannels~: [~List of key channels/groups to join~],
  ~meetingCadence~: ~Description of regular meetings~,
  ~codeReviewProcess~: ~How the team does code reviews~,
  ~deploymentProcess~: ~How the team deploys~,
  ~otherNorms~: [~Any other important team norms~]
}

If WorkIQ is not available, return reasonable defaults with ~Unknown — ask your team lead~ placeholders.".

(** Discover team norms, processes, and culture. *)
Definition getTeamNorms (session : Session) (teamName : string) : async json :=
  let prompt := getTeamNorms_prompt teamName in
  response ← sendAndWait session prompt;
  settle (norms_from (message response)).

Definition getEmailInsights_prompt (teamName projectContext : string) : string :=
  q "Use the WorkIQ MCP tools to search recent emails related to ~"
  +:+ teamName
  +:+ q "~ and ~"
  +:+ projectContext
  +:+ q "~.

Look for:
- Key decisions communicated over email (architecture changes, policy updates)
- Important announcements from leadership or stakeholders
- Action items or follow-ups that affect the project
- Onboarding-related emails (welcome messages, access requests, setup guides)

Summarize the top 5 most relevant email threads as JSON:
[{~subject~: ~...~, ~from~: ~sender name or role~, ~date~: ~approx date~, ~summary~: ~One-line summary of the key takeaway~, ~relevance~: ~Why a new hire should know this~}]

If WorkIQ is not available, return an empty array.".

(** Get recent email insights. *)
Definition getEmailInsights (session : Session) (teamName projectContext : string)
  : async (list json) :=
  let prompt := getEmailInsights_prompt teamName projectContext in
  response ← sendAndWait session prompt;
  settle (array_from (message response) []).

Definition getRelatedDocuments_prompt (teamName projectContext : string) : string :=
  q "Use the WorkIQ MCP tools to search for documents on SharePoint and OneDrive related to ~"
  +:+ teamName
  +:+ q "~ and ~"
  +:+ projectContext
  +:+ q "~.

Look for:
- Architecture or design documents
- Technical specifications and RFCs
- Onboarding guides or team wikis
- Runbooks and operational playbooks
- Slide decks from recent tech talks or reviews

Return the top 8 most relevant documents as JSON:
[{~title~: ~...~, ~type~: ~document type (e.g., Word, PowerPoint, Wiki, PDF)~, ~location~: ~SharePoint site or OneDrive folder~, ~lastModified~: ~approx date~, ~summary~: ~Brief description of what it contains~, ~relevance~: ~Why a new hire should read this~}]

If WorkIQ is not available, return an empty array.".

(** Discover related documents on SharePoint / OneDrive. *)
Definition getRelatedDocuments (session : Session) (teamName projectContext : string)
  : async (list json) :=
  let prompt := getRelatedDocuments_prompt teamName projectContext in
  response ← sendAndWait session prompt;
  settle (array_from (message response) []).

(** Gather team context from M365 via WorkIQ MCP. *)
Definition gatherTeamContext (session : Session) (teamName projectContext : string)
  : async TeamContext :=
  recentDiscussions ← getRecentTeamsActivity session teamName;
  teamMembers ← getKeyPeople session teamName projectContext;
  upcomingEvents ← getUpcomingEvents session teamName;
  teamNorms ← getTeamNorms session teamName;
  emailInsights ← getEmailInsights session teamName projectContext;
  relatedDocuments ← getRelatedDocuments session teamName projectContext;
  mret {| recentDiscussions := recentDiscussions;
          teamMembers := teamMembers;
          upcomingEvents := upcomingEvents;
          teamNorms := teamNorms;
          emailInsights := emailInsights;
          relatedDocuments := relatedDocuments |}.

(** ** agents/guide-generator.js *)

(** [JSON.stringify] sees a learning-resource group as the object it is. *)
Definition group_json (g : LearningResourceGroup) : json :=
  JObject [("technology", JString (technology g)); ("resources", JArray (resources g))].

(** Build the synthesis prompt that combines all gathered intelligence. *)
Definition buildSynthesisPrompt (repoAnalysis : RepositoryAnalysis)
  (learningResources : list LearningResourceGroup) (teamContext : TeamContext)
  (owner repo newHireName : string) : string :=
  "You are an expert onboarding specialist. Generate a comprehensive, personalized onboarding guide for a new developer joining the "
  +:+ owner
  +:+ "/"
  +:+ repo
  +:+ " project.

Use ALL of the following data to create the guide. The guide should be warm, encouraging, and actionable.

---

## REPOSITORY ANALYSIS DATA

**Repository:** "
  +:+ repoFullName repoAnalysis
  +:+ "
**Detected Tech Stack:** "
  +:+ js_or (Some (join ", " (techStack repoAnalysis))) "Not detected"
  +:+ "

### Key Documentation Found:
"
  +:+ JSON_stringify (JArray (docs repoAnalysis))
  +:+ "

### Recent Pull Requests (shows current work focus):
"
  +:+ JSON_stringify (JArray (prActivity repoAnalysis))
  +:+ "

### Active Issues (shows current priorities):
"
  +:+ JSON_stringify (JArray (issues repoAnalysis))
  +:+ "

### Team Discussions:
"
  +:+ JSON_stringify (JArray (discussions repoAnalysis))
  +:+ "

---

## LEARNING RESOURCES FROM MICROSOFT LEARN

"
  +:+ JSON_stringify (JArray (map group_json learningResources))
  +:+ "

---

## TEAM CONTEXT FROM M365

### Recent Team Discussions:
"
  +:+ JSON_stringify (JArray (recentDiscussions teamContext))
  +:+ "

### Key People to Connect With:
"
  +:+ JSON_stringify (JArray (teamMembers teamContext))
  +:+ "

### Upcoming Events to Attend:
"
  +:+ JSON_stringify (JArray (upcomingEvents teamContext))
  +:+ "

### Team Norms & Processes:
"
  +:+ JSON_stringify (teamNorms teamContext)
  +:+ "

### Email Insights (key decisions & announcements):
"
  +:+ JSON_stringify (JArray (emailInsights teamContext))
  +:+ "

### Related Documents (SharePoint/OneDrive):
"
  +:+ JSON_stringify (JArray (relatedDocuments teamContext))
  +:+ "

---

## OUTPUT FORMAT

Generate a Markdown onboarding guide with these EXACT sections:

# 🚀 Welcome to "
  +:+ owner
  +:+ "/"
  +:+ repo
  +:+ "!

## 👋 Hello, "
  +:+ newHireName
  +:+ q "!
(Warm welcome message, what the project is about, and why their work matters)

## 🏗️ Architecture Overview
(Based on repo structure and docs — explain the codebase layout, key directories, and design patterns)

## 🔧 Tech Stack
(List each technology with a one-line explanation of how it's used in this project)
(Include links to relevant Microsoft Learn resources for each)

## 🛠️ Development Environment Setup
(Step-by-step setup instructions based on package.json, Dockerfile, etc.)
(Prerequisites, installation, running locally, running tests)

## 📚 Essential Reading
(Curated list of docs they MUST read, organized by priority)
- 🔴 Read First (before writing code)
- 🟡 Read This Week (context and patterns)
- 🟢 Reference (bookmark for later)

## 🔀 Current Work in Progress
(Summary of recent PRs and active issues — what the team is working on RIGHT NOW)
(This helps the new hire understand context and find good first tasks)

## 🐛 Good First Issues
(Identify any issues labeled ~good first issue~ or suggest areas where a newcomer could contribute)

## 👥 Key People to Connect With
(Table of people, their roles, and why to reach out to them)
(Include a suggested intro message template)

## 📅 Your First Two Weeks
(Day-by-day suggested plan)

### Week 1: Learn & Setup
- Day 1: Environment setup, read essential docs, introduce yourself
- Day 2-3: Explore codebase, run the app, read recent PRs
- Day 4-5: Pick a good first issue, attend team meetings

### Week 2: Contribute & Connect
- Day 6-7: Submit your first PR, get code review feedback
- Day 8-9: Dive deeper into one component, pair with a team member
- Day 10: Retrospect on your onboarding, share feedback

## 📅 Important Meetings & Events
(List upcoming team meetings the new hire should attend)

## 💬 Communication Guide
(Which channels to join, team norms, how to ask for help)

## 📧 Recent Decisions from Email
(Key decisions, announcements, and context from email threads that a new hire should know about)
(Table with Subject, From, Date, Summary columns)

## 📄 Key Documents & Resources
(Important documents discovered on SharePoint/OneDrive — design specs, wikis, runbooks, slide decks)
(Table with Title, Type, Location, Summary columns — sorted by relevance to a new hire)

## 🎯 30-60-90 Day Goals
(Suggested milestones for the first 3 months)

### 30 Days: Foundation
- Complete environment setup
- Merge 2-3 PRs
- Understand core architecture

### 60 Days: Contribution
- Own a feature or component
- Participate in code reviews
- Present in a team meeting

### 90 Days: Ownership
- Lead a small initiative
- Mentor the next new hire
- Contribute to architecture decisions

## 📖 Additional Resources
(Links to all Microsoft Learn resources, tutorials, and docs gathered)

---

Make the guide:
- Warm and encouraging (not corporate/dry)
- Specific to THIS repo (not generic)
- Actionable (every section has clear next steps)
- Well-formatted with emojis, tables, and code blocks where appropriate
- Between 800-1500 words".

(** The header of [addGuideHeader]. *)
Definition guide_header (owner repo newHireName generatedAt : string)
  (techStack : list string) : string :=
  q "---
title: ~Onboarding Guide — "
  +:+ owner
  +:+ "/"
  +:+ repo
  +:+ q "~
generated_by: ~🤖 OnboardBot — AI-Powered Onboarding Accelerator~
generated_at: ~"
  +:+ generatedAt
  +:+ q "~
tech_stack: ["
  +:+ join ", " (map (fun t => String dquote t +:+ String dquote "") techStack)
  +:+ q "]
new_hire: ~"
  +:+ newHireName
  +:+ q "~
---

".

(** Add metadata header to the guide. *)
Definition addGuideHeader (content owner repo newHireName generatedAt : string)
  (techStack : list string) : string :=
  guide_header owner repo newHireName generatedAt techStack +:+ content.

Definition ask : async Env := fun env w => (Resolved env, w).

(** Save the guide to the output directory. *)
Definition saveGuide (content owner repo : string) : async string :=
  env ← ask;
  let outputDir := OUTPUT_DIR env in
  mkdir outputDir;;
  now ← new_Date;
  let timestamp := slice0 10 (toISOString now) in
  let filename :=
    "onboarding-" +:+ owner +:+ "-" +:+ repo +:+ "-" +:+ timestamp +:+ ".md" in
  let outputPath := path_join outputDir filename in
  writeFile outputPath content;;
  mret outputPath.

(** Generate a comprehensive onboarding guide from all gathered data. *)
Definition generateOnboardingGuide (session : Session)
  (repoAnalysis : RepositoryAnalysis)
  (learningResources : list LearningResourceGroup)
  (teamContext : TeamContext) (options : Options) : async Guide :=
  let name := default "New Team Member" (newHireName options) in
  let synthesisPrompt :=
    buildSynthesisPrompt repoAnalysis learningResources teamContext
      (owner options) (repo options) name in
  response ← sendAndWait session synthesisPrompt;
  let guideContent := message response in
  generatedAt ← new_Date;
  let guideContent :=
    addGuideHeader guideContent (owner options) (repo options) name
      (toISOString generatedAt) (techStack repoAnalysis) in
  outputPath ← saveGuide guideContent (owner options) (repo options);
  mret {| content := guideContent; outputPath := outputPath |}.

(** ** agents/onboardbot.js *)

(** What the [catch] of each collector hands downstream. *)
Definition default_analysis (owner repo : string) : RepositoryAnalysis :=
  {| repoFullName := owner +:+ "/" +:+ repo;
     structure := [];
     techStack := [];
     docs := [];
     prActivity := [];
     issues := [];
     discussions := [] |}.

Definition default_resources : list LearningResourceGroup := [].

Definition default_team_context : TeamContext :=
  {| recentDiscussions := [];
     teamMembers := [];
     upcomingEvents := [];
     teamNorms :=
       JObject
         [ ("communicationChannels", JArray []);
           ("meetingCadence", JString "Unknown");
           ("codeReviewProcess", JString "Check CONTRIBUTING.md");
           ("deploymentProcess", JString "Check CI/CD workflows");
           ("otherNorms", JArray []) ];
     emailInsights := [];
     relatedDocuments := [] |}.

(** Step 1 task: [analyzeRepository(...).then(...).catch(...)] *)
Definition repoTask (session : Session) (owner repo : string)
  : async RepositoryAnalysis :=
  try_catch
    (analysis ← analyzeRepository (for_stage "repo-analysis" session) owner repo;
     push_step {| step := "repo-analysis";
                  status := "success";
                  metrics := RepoMetrics (techStack analysis)
                               (length (structure analysis))
                               (length (docs analysis))
                               (length (prActivity analysis))
                               (length (issues analysis)) |};;
     mret analysis)
    (fun err =>
       push_error {| error_step := "repo-analysis"; error := err |};;
       mret (default_analysis owner repo)).

(** Step 2 task: [repoTask.then(fetch...).then(...).catch(...)], once
    [repoTask] has settled on [repoAnalysis]. *)
Definition docsTask (session : Session) (repoAnalysis : RepositoryAnalysis)
  : async (list LearningResourceGroup) :=
  try_catch
    (resources_ ←
       fetchLearningResources (for_stage "docs-fetch" session)
         (techStack repoAnalysis) repoAnalysis;
     push_step {| step := "docs-fetch";
                  status := "success";
                  metrics := DocsMetrics
                               (foldl (fun sum r => sum + length (resources r))%nat
                                  0%nat resources_) |};;
     mret resources_)
    (fun err =>
       push_error {| error_step := "docs-fetch"; error := err |};;
       mret default_resources).

(** Step 3 task: [gatherTeamContext(...).then(...).catch(...)] *)
Definition teamTask (session : Session) (owner repo : string)
  (teamName : option string) : async TeamContext :=
  try_catch
    (context ←
       gatherTeamContext (for_stage "team-context" session)
         (js_or teamName repo) (owner +:+ "/" +:+ repo);
     push_step {| step := "team-context";
                  status := "success";
                  metrics := TeamMetrics
                               (length (recentDiscussions context))
                               (length (teamMembers context))
                               (length (upcomingEvents context))
                               (length (emailInsights context))
                               (length (relatedDocuments context)) |};;
     mret context)
    (fun err =>
       push_error {| error_step := "team-context"; error := err |};;
       mret default_team_context).

(** The order in which the promise chains of the parallel phase complete.
    [docsTask] is chained on [repoTask], so it never completes first. *)
Inductive completion_order : Type :=
| Repo_Docs_Team
| Repo_Team_Docs
| Team_Repo_Docs.

(** Steps 1-3, up to [await Promise.all([repoTask, docsTask, teamTask])]. *)
Definition parallel_phase (session : Session) (order : completion_order)
  (options : Options)
  : async (RepositoryAnalysis * list LearningResourceGroup * TeamContext) :=
  match order with
  | Repo_Docs_Team =>
      repoAnalysis ← repoTask session (owner options) (repo options);
      learningResources ← docsTask session repoAnalysis;
      teamContext ← teamTask session (owner options) (repo options) (teamName options);
      mret (repoAnalysis, learningResources, teamContext)
  | Repo_Team_Docs =>
      repoAnalysis ← repoTask session (owner options) (repo options);
      teamContext ← teamTask session (owner options) (repo options) (teamName options);
      learningResources ← docsTask session repoAnalysis;
      mret (repoAnalysis, learningResources, teamContext)
  | Team_Repo_Docs =>
      teamContext ← teamTask session (owner options) (repo options) (teamName options);
      repoAnalysis ← repoTask session (owner options) (repo options);
      learningResources ← docsTask session repoAnalysis;
      mret (repoAnalysis, learningResources, teamContext)
  end.

(** The options [runOnboardBot] hands to the synthesis stage:
    [{ owner, repo, newHireName }]. *)
Definition guide_options (options : Options) : Options :=
  {| owner := owner options;
     repo := repo options;
     teamName := None;
     newHireName := newHireName options |}.

(** Step 4: the [try]/[catch] around [generateOnboardingGuide]. *)
Definition guideStep (session : Session) (repoAnalysis : RepositoryAnalysis)
  (learningResources : list LearningResourceGroup) (teamContext : TeamContext)
  (options : Options) : async unit :=
  try_catch
    (guide ←
       generateOnboardingGuide (for_stage "guide-generation" session)
         repoAnalysis learningResources teamContext (guide_options options);
     push_step {| step := "guide-generation";
                  status := "success";
                  metrics := GuideMetrics (outputPath guide)
                               (js_length (content guide)) |};;
     set_guide guide)
    (fun err =>
       push_error {| error_step := "guide-generation"; error := err |}).

(** The OnboardBot agent: orchestrates the full onboarding pipeline. *)
Definition runOnboardBot (session : Session) (order : completion_order)
  (options : Options) : async PipelineRunResult :=
  new_results;;
  '(repoAnalysis, learningResources, teamContext) ←
    parallel_phase session order options;
  guideStep session repoAnalysis learningResources teamContext options;;
  get_results.

(** ** The demo session of the CLI (index.js) *)

Definition demo_structure : string :=
  q "[~README.md~, ~src/~, ~package.json~, ~tsconfig.json~, ~docs/~, ~.github/~, ~Dockerfile~, ~docker-compose.yml~, ~tests/~, ~.eslintrc.json~, ~jest.config.js~]".

Definition demo_documents : string :=
  q "[{~file~: ~README.md~, ~summary~: ~Project overview with setup instructions, architecture diagram, and contributing guidelines. Uses a microservice architecture with Node.js backend and React frontend.~}, {~file~: ~CONTRIBUTING.md~, ~summary~: ~Contribution guide: fork, branch, PR workflow. Code review required from 2 reviewers. Must pass CI checks before merge.~}]".

Definition demo_pull_requests : string :=
  q "[{~number~: 234, ~title~: ~feat: Add user authentication module~, ~state~: ~open~, ~author~: ~senior-dev~, ~description~: ~Implements OAuth2 authentication with Azure AD integration~}, {~number~: 231, ~title~: ~fix: Resolve memory leak in data pipeline~, ~state~: ~merged~, ~author~: ~tech-lead~, ~description~: ~Fixed connection pool exhaustion under high load~}, {~number~: 228, ~title~: ~docs: Update API documentation~, ~state~: ~merged~, ~author~: ~docs-team~, ~description~: ~Added OpenAPI specs for new endpoints~}]".

Definition demo_issues : string :=
  q "[{~number~: 100, ~title~: ~Implement caching layer~, ~labels~: [~enhancement~, ~performance~], ~summary~: ~Add Redis caching for frequently accessed data~}, {~number~: 95, ~title~: ~Add unit tests for auth module~, ~labels~: [~testing~, ~good first issue~], ~summary~: ~New auth module needs comprehensive test coverage~}, {~number~: 88, ~title~: ~Migrate to Node.js 22~, ~labels~: [~infrastructure~, ~tech-debt~], ~summary~: ~Upgrade runtime for performance improvements~}]".

Definition demo_discussions : string :=
  q "[{~title~: ~RFC: New API versioning strategy~, ~category~: ~Ideas~, ~author~: ~architect~, ~summary~: ~Proposing URL-based versioning for the public API~}, {~title~: ~Team retro: Q4 highlights~, ~category~: ~General~, ~author~: ~manager~, ~summary~: ~Celebrating shipped features and lessons learned~}]".

Definition demo_learn : string :=
  q "[{~title~: ~Getting started with Node.js on Azure~, ~url~: ~https://learn.microsoft.com/en-us/azure/developer/javascript/~, ~description~: ~Complete guide for building Node.js apps on Azure~}, {~title~: ~TypeScript Handbook~, ~url~: ~https://learn.microsoft.com/en-us/training/paths/build-javascript-applications-typescript/~, ~description~: ~Learn TypeScript fundamentals and advanced patterns~}, {~title~: ~Docker containers on Azure~, ~url~: ~https://learn.microsoft.com/en-us/azure/container-instances/~, ~description~: ~Deploy containerized applications to Azure~}]".

Definition demo_architecture : string :=
  q "[{~title~: ~Azure Node.js samples~, ~url~: ~https://learn.microsoft.com/en-us/samples/browse/?languages=javascript~, ~description~: ~Official Azure SDK samples for Node.js~, ~type~: ~sample~}, {~title~: ~Microservice architecture guide~, ~url~: ~https://learn.microsoft.com/en-us/azure/architecture/microservices/~, ~description~: ~Design patterns for microservice architectures~, ~type~: ~doc~}]".

Definition demo_tutorials : string :=
  q "[{~title~: ~Build a Node.js web app with Azure~, ~url~: ~https://learn.microsoft.com/en-us/training/modules/create-nodejs-project-dependencies/~, ~description~: ~Hands-on tutorial for full-stack Node.js development~, ~estimatedTime~: ~45 min~}, {~title~: ~Introduction to Docker containers~, ~url~: ~https://learn.microsoft.com/en-us/training/modules/intro-to-docker-containers/~, ~description~: ~Learn containerization fundamentals~, ~estimatedTime~: ~30 min~}]".

Definition demo_teams : string :=
  q "[{~topic~: ~Sprint 24 Planning~, ~channel~: ~Engineering~, ~summary~: ~Team agreed to prioritize auth module and caching layer for next sprint~, ~date~: ~2026-02-10~, ~relevance~: ~Understand current sprint priorities and your potential first tasks~}, {~topic~: ~Architecture Decision: Event-Driven~, ~channel~: ~Architecture~, ~summary~: ~Moving to event-driven architecture for real-time features~, ~date~: ~2026-02-08~, ~relevance~: ~Key architectural shift that affects how you'll write new services~}]".

Definition demo_people : string :=
  q "[{~name~: ~Alex Chen~, ~role~: ~Engineering Manager~, ~reason~: ~Your direct manager — schedule a 1:1 in your first week~}, {~name~: ~Sarah Johnson~, ~role~: ~Tech Lead~, ~reason~: ~Leads architecture decisions — great for codebase questions~}, {~name~: ~Mike Park~, ~role~: ~Senior Engineer~, ~reason~: ~Most active reviewer — will likely review your first PRs~}, {~name~: ~Lisa Wang~, ~role~: ~DevOps Lead~, ~reason~: ~Owns CI/CD and deployment — reach out for infra questions~}]".

Definition demo_events : string :=
  q "[{~event~: ~Daily Standup~, ~date~: ~Every day 9:30 AM~, ~recurring~: true, ~relevance~: ~Join from Day 1 to understand daily progress and blockers~}, {~event~: ~Sprint Planning~, ~date~: ~2026-02-17~, ~recurring~: true, ~relevance~: ~Great way to understand upcoming work and volunteer for tasks~}, {~event~: ~Architecture Review~, ~date~: ~2026-02-19~, ~recurring~: true, ~relevance~: ~Learn about system design decisions and propose improvements~}]".

Definition demo_norms : string :=
  q "{~communicationChannels~: [~#engineering-general~, ~#project-alpha~, ~#code-reviews~, ~#social~], ~meetingCadence~: ~Daily standup at 9:30 AM, sprint planning bi-weekly Monday, retro bi-weekly Friday~, ~codeReviewProcess~: ~All PRs require 2 approvals. Use conventional commit messages. Link issues in PR description.~, ~deploymentProcess~: ~CI/CD via GitHub Actions. Staging deploys on PR merge to main. Production deploys weekly on Tuesday.~, ~otherNorms~: [~Use threads in Teams for focused discussions~, ~Update your standup in the #standup channel by 9:30 AM~, ~Pair programming encouraged — just ask in the channel~]}".

Definition demo_emails : string :=
  q "[{~subject~: ~Architecture Review: Moving to Event-Driven~, ~from~: ~Sarah Johnson (Tech Lead)~, ~date~: ~2026-02-09~, ~summary~: ~Final decision to adopt event-driven architecture using Azure Service Bus for async communication between services~, ~relevance~: ~Major architectural shift — all new services should follow this pattern~}, {~subject~: ~Security Audit Results & Action Items~, ~from~: ~Security Team~, ~date~: ~2026-02-06~, ~summary~: ~Audit completed with 3 medium findings. Action items assigned to fix auth token rotation and add rate limiting by Sprint 25~, ~relevance~: ~Understand current security priorities and potential tasks~}, {~subject~: ~Welcome to the Team!~, ~from~: ~Alex Chen (Engineering Manager)~, ~date~: ~2026-02-12~, ~summary~: ~Onboarding checklist: request access to Azure subscription, join Teams channels, schedule 1:1s with key people~, ~relevance~: ~Your onboarding action items from your manager~}, {~subject~: ~Q1 OKRs Finalized~, ~from~: ~VP of Engineering~, ~date~: ~2026-02-01~, ~summary~: ~Team OKRs: ship auth module, reduce P95 latency by 30%, achieve 90% test coverage on critical paths~, ~relevance~: ~Understand what the team is measured on this quarter~}, {~subject~: ~RE: Database Migration Plan~, ~from~: ~Lisa Wang (DevOps Lead)~, ~date~: ~2026-02-05~, ~summary~: ~PostgreSQL to Cosmos DB migration scheduled for March. All new features should use the Cosmos DB SDK~, ~relevance~: ~Affects which database APIs to use in new code~}]".

Definition demo_sharepoint : string :=
  q "[{~title~: ~System Architecture Overview~, ~type~: ~PowerPoint~, ~location~: ~Engineering SharePoint > Architecture~, ~lastModified~: ~2026-02-08~, ~summary~: ~Comprehensive system architecture diagram with data flow, service boundaries, and deployment topology~, ~relevance~: ~Essential reading — the single source of truth for system design~}, {~title~: ~API Design Guidelines~, ~type~: ~Word~, ~location~: ~Engineering SharePoint > Standards~, ~lastModified~: ~2026-01-20~, ~summary~: ~REST API conventions, naming standards, error response formats, and versioning strategy~, ~relevance~: ~Must follow these guidelines when building new endpoints~}, {~title~: ~Runbook: Production Incidents~, ~type~: ~Wiki~, ~location~: ~Engineering SharePoint > Operations~, ~lastModified~: ~2026-02-03~, ~summary~: ~Step-by-step guide for handling production incidents, escalation paths, and post-mortem template~, ~relevance~: ~Reference for when you join the on-call rotation~}, {~title~: ~New Hire Technical Onboarding~, ~type~: ~Word~, ~location~: ~HR SharePoint > Onboarding~, ~lastModified~: ~2026-01-15~, ~summary~: ~Access request forms, dev environment setup checklist, and links to all team resources~, ~relevance~: ~Complements this guide with HR-specific onboarding steps~}, {~title~: ~Sprint 23 Retrospective~, ~type~: ~PowerPoint~, ~location~: ~Engineering SharePoint > Retros~, ~lastModified~: ~2026-02-07~, ~summary~: ~Key learnings: improve PR review turnaround, add integration tests before shipping, better sprint estimation~, ~relevance~: ~Understand recent team improvements and expectations~}, {~title~: ~Event-Driven Architecture RFC~, ~type~: ~Word~, ~location~: ~Engineering SharePoint > RFCs~, ~lastModified~: ~2026-02-09~, ~summary~: ~Detailed proposal for migrating to event-driven architecture with Azure Service Bus — includes trade-offs and migration plan~, ~relevance~: ~Active RFC — understanding this will help you contribute to architectural discussions~}]".

Definition demo_guide_template (owner repo name : string) : string :=
  "# 🚀 Welcome to "
  +:+ owner
  +:+ "/"
  +:+ repo
  +:+ "!

## 👋 Hello, "
  +:+ name
  +:+ "!

Welcome to the team! We're thrilled to have you on board. This project is at the heart of our engineering efforts, and your contributions will make a real difference. This guide was generated by 🤖 OnboardBot to help you hit the ground running.

## 🏗️ Architecture Overview

The project follows a **microservice architecture** with clear separation of concerns:

```
"
  +:+ repo
  +:+ "/
├── src/              # Main application source code
│   ├── api/          # REST API endpoints
│   ├── services/     # Business logic layer
│   ├── models/       # Data models and schemas
│   └── utils/        # Shared utilities
├── tests/            # Test suites (unit, integration, e2e)
├── docs/             # Project documentation
├── .github/          # CI/CD workflows and issue templates
├── Dockerfile        # Container definition
└── docker-compose.yml # Local development stack
```

**Key architectural decisions:**
- Event-driven communication between services
- OAuth2 authentication with Azure AD integration
- Redis caching for frequently accessed data
- Docker-based deployment with GitHub Actions CI/CD

## 🔧 Tech Stack

| Technology | Usage | Learn More |
|------------|-------|------------|
| **Node.js** | Backend runtime | [Azure Node.js Guide](https://learn.microsoft.com/en-us/azure/developer/javascript/) |
| **TypeScript** | Type-safe development | [TypeScript Learning Path](https://learn.microsoft.com/en-us/training/paths/build-javascript-applications-typescript/) |
| **Docker** | Containerization | [Docker on Azure](https://learn.microsoft.com/en-us/azure/container-instances/) |
| **Jest** | Testing framework | [Testing Best Practices](https://learn.microsoft.com/en-us/training/modules/create-nodejs-project-dependencies/) |
| **ESLint** | Code linting | Check `.eslintrc.json` in repo root |

## 🛠️ Development Environment Setup

```bash
# 1. Clone the repository
git clone https://github.com/"
  +:+ owner
  +:+ "/"
  +:+ repo
  +:+ ".git
cd "
  +:+ repo
  +:+ q "

# 2. Install dependencies
npm install

# 3. Set up environment variables
cp .env.example .env
# Edit .env with your values

# 4. Start local development stack
docker-compose up -d

# 5. Run the application
npm run dev

# 6. Run tests
npm test
```

**Prerequisites:** Node.js 22+, Docker Desktop, Git, VS Code with ESLint extension

## 📚 Essential Reading

### 🔴 Read First (before writing code)
- **README.md** — Project overview, setup instructions, architecture diagram
- **CONTRIBUTING.md** — Fork, branch, PR workflow. 2 reviewers required.

### 🟡 Read This Week
- **docs/architecture.md** — Detailed system design and data flow
- **RFC: API Versioning Strategy** — Upcoming changes to the API layer

### 🟢 Reference (bookmark for later)
- [Azure Node.js Samples](https://learn.microsoft.com/en-us/samples/browse/?languages=javascript)
- [Microservice Architecture Guide](https://learn.microsoft.com/en-us/azure/architecture/microservices/)

## 🔀 Current Work in Progress

| PR | Title | Author | Status |
|----|-------|--------|--------|
| #234 | Add user authentication module | senior-dev | 🟡 Open |
| #231 | Fix memory leak in data pipeline | tech-lead | ✅ Merged |
| #228 | Update API documentation | docs-team | ✅ Merged |

**Current sprint focus:** Authentication module and caching layer.

## 🐛 Good First Issues

| Issue | Title | Labels |
|-------|-------|--------|
| #95 | **Add unit tests for auth module** | `testing`, `good first issue` |
| #100 | Implement caching layer | `enhancement`, `performance` |

> 💡 **Suggestion:** Issue #95 is a perfect first contribution! It'll help you understand the auth module while adding valuable test coverage.

## 👥 Key People to Connect With

| Person | Role | Why Reach Out |
|--------|------|---------------|
| **Alex Chen** | Engineering Manager | Your direct manager — schedule a 1:1 in week 1 |
| **Sarah Johnson** | Tech Lead | Architecture questions and codebase guidance |
| **Mike Park** | Senior Engineer | Most active reviewer — will review your first PRs |
| **Lisa Wang** | DevOps Lead | CI/CD and deployment questions |

> 💬 **Intro template:** *~Hi [name]! I'm "
  +:+ name
  +:+ ", just joined the team. I'm working on getting up to speed with "
  +:+ repo
  +:+ q ". Would love to chat about [their area] when you have 15 min!~*

## 📅 Your First Two Weeks

### Week 1: Learn & Setup
| Day | Focus | Tasks |
|-----|-------|-------|
| **Day 1** | 🏠 Setup | Environment setup, read essential docs, introduce yourself in #engineering-general |
| **Day 2** | 📖 Learn | Explore codebase, understand folder structure, read architecture docs |
| **Day 3** | 🏃 Run | Run the app locally, explore the API, run test suites |
| **Day 4** | 👀 Observe | Read recent PRs (#234, #231), attend standup, shadow a code review |
| **Day 5** | 🎯 Pick | Choose your first issue (#95), start working on it |

### Week 2: Contribute & Connect
| Day | Focus | Tasks |
|-----|-------|-------|
| **Day 6-7** | 💻 Code | Submit your first PR, respond to code review feedback |
| **Day 8-9** | 🤝 Connect | Pair with Sarah on architecture, attend sprint planning |
| **Day 10** | 📝 Reflect | Share onboarding feedback, identify areas to improve for next new hire |

## 📅 Important Meetings & Events

| Event | When | Why Attend |
|-------|------|------------|
| **Daily Standup** | Every day 9:30 AM | Understand daily progress and blockers |
| **Sprint Planning** | Feb 17, 2026 | See upcoming work, volunteer for tasks |
| **Architecture Review** | Feb 19, 2026 | Learn system design, propose improvements |

## 💬 Communication Guide

**Channels to join:**
- `#engineering-general` — Main engineering discussions
- `#project-alpha` — Project-specific updates
- `#code-reviews` — PR notifications and review discussions
- `#social` — Team bonding and casual chat

**Team norms:**
- 💬 Use threads in Teams for focused discussions
- 📝 Update your standup in #standup by 9:30 AM
- 👯 Pair programming encouraged — just ask!
- 📦 Use conventional commit messages
- 🔀 Link issues in PR descriptions

## 📧 Recent Decisions from Email

| Subject | From | Date | Summary |
|---------|------|------|---------|
| **Architecture Review: Event-Driven** | Sarah Johnson (Tech Lead) | Feb 9 | Adopted event-driven architecture with Azure Service Bus |
| **Security Audit Results** | Security Team | Feb 6 | 3 medium findings — fix auth token rotation & rate limiting by Sprint 25 |
| **Q1 OKRs Finalized** | VP of Engineering | Feb 1 | Ship auth module, reduce P95 latency 30%, 90% test coverage |
| **Database Migration Plan** | Lisa Wang (DevOps) | Feb 5 | PostgreSQL → Cosmos DB in March. New code should use Cosmos SDK |

> 💡 These decisions shape your day-to-day work. Ask your tech lead if anything is unclear!

## 📄 Key Documents & Resources

| Document | Type | Location | Why Read It |
|----------|------|----------|-------------|
| **System Architecture Overview** | PowerPoint | Engineering SharePoint | Single source of truth for system design |
| **API Design Guidelines** | Word | Engineering SharePoint | Must-follow conventions for new endpoints |
| **Runbook: Production Incidents** | Wiki | Engineering SharePoint | Reference for on-call rotation |
| **Event-Driven Architecture RFC** | Word | Engineering SharePoint | Active RFC — join the discussion! |
| **New Hire Technical Onboarding** | Word | HR SharePoint | Access requests and setup checklist |

## 🎯 30-60-90 Day Goals

### 🎯 30 Days: Foundation
- [x] Complete environment setup
- [ ] Merge 2-3 PRs
- [ ] Understand core architecture
- [ ] Meet all key team members

### 🎯 60 Days: Contribution
- [ ] Own a feature or component
- [ ] Participate in 5+ code reviews
- [ ] Present in a team meeting
- [ ] Resolve a production issue

### 🎯 90 Days: Ownership
- [ ] Lead a small initiative or RFC
- [ ] Mentor the next new hire
- [ ] Contribute to architecture decisions
- [ ] Present a tech talk to the team

## 📖 Additional Resources

- [Getting started with Node.js on Azure](https://learn.microsoft.com/en-us/azure/developer/javascript/)
- [TypeScript Learning Path](https://learn.microsoft.com/en-us/training/paths/build-javascript-applications-typescript/)
- [Docker containers on Azure](https://learn.microsoft.com/en-us/azure/container-instances/)
- [Azure Node.js samples](https://learn.microsoft.com/en-us/samples/browse/?languages=javascript)
- [Microservice architecture guide](https://learn.microsoft.com/en-us/azure/architecture/microservices/)

---

*Generated by 🤖 OnboardBot — AI-Powered Onboarding Accelerator*
*Powered by GitHub Copilot + MCP (GitHub MCP, Microsoft Learn MCP, WorkIQ MCP)*
".

(** Generate a demo onboarding guide when SDK is not available. *)
Definition generateDemoGuide (prompt : string) : string :=
  let repoMatch := match_owner_repo prompt in
  let owner := js_or (fst <$> repoMatch) "org" in
  let repo := js_or (snd <$> repoMatch) "project" in
  let nameMatch := match_hello prompt in
  let name := js_or nameMatch "New Team Member" in
  demo_guide_template owner repo name.

(** [sendAndWait] of the object [createDemoSession] returns. *)
Definition demo_sendAndWait (prompt : string) : response :=
  if includes prompt "repository tree" || includes prompt "top-level" then
    {| message := demo_structure |}
  else if includes prompt "file contents" || includes prompt "key documentation" then
    {| message := demo_documents |}
  else if includes prompt "pull requests" then
    {| message := demo_pull_requests |}
  else if includes prompt "open issues" then
    {| message := demo_issues |}
  else if includes prompt "discussions" then
    {| message := demo_discussions |}
  else if includes prompt "Microsoft Learn" || includes prompt "documentation" then
    {| message := demo_learn |}
  else if includes prompt "code samples" || includes prompt "architecture" then
    {| message := demo_architecture |}
  else if includes prompt "tutorials" || includes prompt "learning paths" then
    {| message := demo_tutorials |}
  else if includes prompt "Teams" || includes prompt "recent messages" then
    {| message := demo_teams |}
  else if includes prompt "key people" || includes prompt "find key people" then
    {| message := demo_people |}
  else if includes prompt "upcoming meetings" || includes prompt "upcoming events" then
    {| message := demo_events |}
  else if includes prompt "team norms" || includes prompt "team processes" then
    {| message := demo_norms |}
  else if includes prompt "recent emails" || includes prompt "email" then
    {| message := demo_emails |}
  else if includes prompt "documents on SharePoint" || includes prompt "SharePoint"
          || includes prompt "OneDrive" then
    {| message := demo_sharepoint |}
  else if includes prompt "onboarding specialist" || includes prompt "Welcome to" then
    {| message := generateDemoGuide prompt |}
  else {| message := "[]" |}.

Definition createDemoSession : Session :=
  {| stage_of := "";
     reply := fun _ _ prompt => Resolved (demo_sendAndWait prompt) |}.

(** The same session, told as the specification tells it: an ordered list
    of substring predicates with their canned replies, the first match
    winning, and the text of an empty array when none matches. *)
Definition demo_rules : list (list string * (string -> string)) :=
  [ (["repository tree"; "top-level"], fun _ => demo_structure);
    (["file contents"; "key documentation"], fun _ => demo_documents);
    (["pull requests"], fun _ => demo_pull_requests);
    (["open issues"], fun _ => demo_issues);
    (["discussions"], fun _ => demo_discussions);
    (["Microsoft Learn"; "documentation"], fun _ => demo_learn);
    (["code samples"; "architecture"], fun _ => demo_architecture);
    (["tutorials"; "learning paths"], fun _ => demo_tutorials);
    (["Teams"; "recent messages"], fun _ => demo_teams);
    (["key people"; "find key people"], fun _ => demo_people);
    (["upcoming meetings"; "upcoming events"], fun _ => demo_events);
    (["team norms"; "team processes"], fun _ => demo_norms);
    (["recent emails"; "email"], fun _ => demo_emails);
    (["documents on SharePoint"; "SharePoint"; "OneDrive"], fun _ => demo_sharepoint);
    (["onboarding specialist"; "Welcome to"], generateDemoGuide) ].

Fixpoint first_match (rules : list (list string * (string -> string)))
  (prompt : string) : string :=
  match rules with
  | [] => "[]"
  | (needles, canned) :: rest =>
      if existsb (includes prompt) needles then canned prompt
      else first_match rest prompt
  end.

(** ** Vocabulary of the statements *)

(** The stages of a run, by the name under which they are recorded. *)
Definition stage_names : list string :=
  ["repo-analysis"; "docs-fetch"; "team-context"; "guide-generation"].




(** The calls issued between two worlds. *)
Definition since (w w' : World) : list call :=
  drop (length (calls w)) (calls w').

Fixpoint has_char (c : ascii) (s : string) : bool :=
  match s with
  | EmptyString => false
  | String c' r => Ascii.eqb c' c || has_char c r
  end.

Definition substring_of (m s : string) : Prop :=
  exists pre post, s = pre +:+ m +:+ post.

(** A text that holds, somewhere, the text of a well-formed JSON array
    (object). *)
Definition embeds_array (s : string) : Prop :=
  exists m items, substring_of m s /\ JSON_parse m = Resolved (JArray items).

Definition embeds_object (s : string) : Prop :=
  exists m members, substring_of m s /\ JSON_parse m = Resolved (JObject members).

(** Tech-stack detection as the specification words it: a pattern is
    stripped of its "*." wildcard prefix and of "/", lowercased, and looked
    for in the lowercased, space-joined listing. *)
Definition strip_wildcard (pattern : string) : string :=
  if String.prefix "*." pattern then drop_chars 2 pattern else pattern.

Fixpoint remove_slashes (s : string) : string :=
  match s with
  | EmptyString => EmptyString
  | String c r => if Ascii.eqb c "/" then remove_slashes r else String c (remove_slashes r)
  end.

Definition stripped (pattern : string) : string :=
  toLowerCase (remove_slashes (strip_wildcard pattern)).

Definition detected_by_spec (listing : list string) (tech : string) : Prop :=
  exists patterns pattern,
    In (tech, patterns) TECH_PATTERNS /\ In pattern patterns /\
    includes (toLowerCase (join " " listing)) (stripped pattern) = true.

(** What one stage adds to the world: at most one entry of each list of
    [results], and its calls. *)
Record contribution := {
  added_steps : list StepOutcome;
  added_errors : list ErrorEntry;
  added_calls : list call
}.

Definition extend (c : contribution) (w : World) : World :=
  {| results := {| steps := (steps (results w) ++ added_steps c)%list;
                   errors := (errors (results w) ++ added_errors c)%list;
                   guide := guide (results w) |};
     calls := (calls w ++ added_calls c)%list;
     clock_reads := clock_reads w;
     fs := fs w |}.

(** A stage either succeeded, with one step and no thrown call, or failed,
    with one error and [fell_back] telling that the default went
    downstream. *)
Definition stage_record (stage : string) (fell_back : Prop) (c : contribution) : Prop :=
  Forall (fun k => origin k = stage) (added_calls c) /\
  ((exists s, added_steps c = [s] /\ step s = stage /\ status s = "success" /\
              added_errors c = [] /\
              Forall (fun k => threw k = false) (added_calls c))
   \/
   (exists err, added_steps c = [] /\
                added_errors c = [{| error_step := stage; error := err |}] /\
                fell_back)).

(** A computation that only talks to the session, on behalf of [stage]: it
    leaves everything but the transcript alone, and it is rejected as soon
    as one of its calls is. *)
Definition session_only (stage : string) {A} (m : async A) : Prop :=
  forall env w, exists new,
    snd (m env w) = set_calls (calls w ++ new)%list w /\
    Forall (fun k => origin k = stage) new /\
    (Forall (fun k => threw k = false) new \/ is_rejected (fst (m env w)) = true).

(** The parsers of the JSON grammar: one that, when it succeeds, has read
    at least one character; and one that agrees with another wherever that
    one had fuel enough. *)
Definition consumes {A} (f : string -> parsed A) : Prop :=
  forall s a rest, f s = Parsed a rest -> (String.length rest < String.length s)%nat.

Definition settled {A} (f g : string -> parsed A) : Prop :=
  forall s, f s <> OutOfFuel -> g s = f s.


(** When a response fails extraction: the pattern finds no bracket group,
    or [JSON.parse] throws on the group it found. *)
Definition no_bracket_match (message : string) : Prop :=
  match_array message = None.

Definition parse_fails (message : string) : Prop :=
  exists m err, match_array message = Some m /\ JSON_parse m = Rejected err.

Definition fails_extraction (message : string) : Prop :=
  no_bracket_match message \/ parse_fails message.

(** ** Sessions and surroundings for the examples *)

(** A session that answers every prompt with the same text. *)
Definition canned_session (text : string) : Session :=
  {| stage_of := "";
     reply := fun _ _ _ => Resolved {| message := text |} |}.

(** A session that is down for one stage from its [i]-th call on, and the
    demo session otherwise. *)
Definition failing_session (stage : string) (i : nat) : Session :=
  {| stage_of := "";
     reply := fun origin n prompt =>
                if String.eqb origin stage && (i <=? n)%nat
                then Rejected "session closed"
                else Resolved (demo_sendAndWait prompt) |}.

Definition noon : Date :=
  {| year := 2026; month := 2; day := 14;
     hours := 12; minutes := 0; seconds := 0; milliseconds := 0 |}.

Definition evening : Date :=
  {| year := 2026; month := 2; day := 14;
     hours := 21; minutes := 30; seconds := 15; milliseconds := 250 |}.

(** Surroundings without faults: the clock stands at [now]. *)
Definition quiet_env (now : Date) : Env :=
  {| clock := fun _ => now;
     mkdir_error := fun _ _ => None;
     writeFile_error := fun _ _ => None;
     OUTPUT_DIR_env := None |}.

(** Surroundings in which the disk is full. *)
Definition full_disk_env : Env :=
  {| clock := fun _ => noon;
     mkdir_error := fun _ _ => None;
     writeFile_error := fun _ _ => Some "ENOSPC: no space left on device, write";
     OUTPUT_DIR_env := None |}.

Definition empty_fs : FileSystem := {| dirs := ∅; files := ∅ |}.

Definition start_world : World :=
  {| results := fresh_results; calls := []; clock_reads := 0; fs := empty_fs |}.

(** A world in which one file already exists. *)
Definition world_with_file (path content : string) : World :=
  {| results := fresh_results; calls := []; clock_reads := 0;
     fs := {| dirs := ∅; files := {[path := content]} |} |}.

Definition vscode_options : Options :=
  {| owner := "microsoft"; repo := "vscode";
     teamName := None; newHireName := Some "Ada" |}.

(** The names a contribution records. *)
Definition names (c : contribution) : list string :=
  (map step (added_steps c) ++ map error_step (added_errors c))%list.

(** The entry of [results.steps] for a guide. *)
Definition guide_step (g : Guide) : StepOutcome :=
  {| step := "guide-generation";
     status := "success";
     metrics := GuideMetrics (outputPath g) (js_length (content g)) |}.

(** The file name [saveGuide] builds for a calendar day. *)
Definition guide_filename (owner repo day : string) : string :=
  "onboarding-" +:+ owner +:+ "-" +:+ repo +:+ "-" +:+ day +:+ ".md".

(** Contributions, one after the other. *)
Definition extend_all (cs : list contribution) (w : World) : World :=
  fold_left (fun w c => extend c w) cs w.

Definition all_steps (cs : list contribution) : list StepOutcome :=
  flat_map added_steps cs.

Definition all_errors (cs : list contribution) : list ErrorEntry :=
  flat_map added_errors cs.

Definition all_calls (cs : list contribution) : list call :=
  flat_map added_calls cs.

(** The call that opens the synthesis stage. *)
Definition synthesis_prompt (repoAnalysis : RepositoryAnalysis)
  (learningResources : list LearningResourceGroup) (teamContext : TeamContext)
  (options : Options) : string :=
  buildSynthesisPrompt repoAnalysis learningResources teamContext
    (owner options) (repo options) (default "New Team Member" (newHireName options)).

Definition synthesis_call (session : Session) (w : World) (text : string) : call :=
  {| origin := stage_of session; prompt := text; answer := next_reply session w text |}.

(** What a run leaves to look at: the names in [steps], the names in
    [errors], and the path of the guide. *)
Definition outline (run : outcome PipelineRunResult * World)
  : list string * list string * option string :=
  match fst run with
  | Resolved r => (map step (steps r), map error_step (errors r), outputPath <$> guide r)
  | Rejected err => ([], [], Some err)
  end.

(** A segment that [path.join] keeps, and a directory path it keeps whole:
    segments neither empty nor "." nor "..", a leading slash apart. *)
Definition plain_segment (seg : string) : bool :=
  negb (String.eqb seg "" || String.eqb seg "." || String.eqb seg "..").

Definition plain_path (dir : string) : bool :=
  match split_slash dir with
  | first :: rest =>
      if String.eqb first "" then
        match rest with
        | [] => false
        | _ :: _ => forallb plain_segment rest
        end
      else plain_segment first && forallb plain_segment rest
  | [] => false
  end.
(** ** The rest of the sources *)

(** *** agents/docs-fetcher.js, utils/helpers.js *)

Definition fetchDocPage_prompt (url : string) : string :=
  "Use the Microsoft Learn MCP tools to fetch the content of this page: " +:+ url
  +:+ newline
  +:+ "Return a brief markdown summary (3-5 bullet points) of the key takeaways.".

(** Fetch a specific doc page and convert to markdown summary. *)
Definition fetchDocPage (session : Session) (url : string) : async string :=
  let prompt := fetchDocPage_prompt url in
  response ← sendAndWait session prompt;
  mret (message response).

(** Safely parse JSON, returning a fallback on failure. *)
Definition safeJsonParse (str : string) (fallback : json) : json :=
  match JSON_parse str with
  | Resolved v => v
  | Rejected _ => fallback
  end.

(** ** Vocabulary of the further statements *)


(** The record of a call [session] made with [prompt] and saw settle as
    [a]. *)
Definition made (session : Session) (prompt : string) (a : outcome response) : call :=
  {| origin := stage_of session; prompt := prompt; answer := a |}.

(** A rejected collector: its last call was rejected with the error it
    reports, the calls before it had been answered. *)
Definition stopped_by (err : string) (new : list call) : Prop :=
  exists before k,
    new = (before ++ [k])%list /\ answer k = Rejected err /\
    Forall (fun k => threw k = false) before.

(** The orders in which the contributions of the three collectors can
    reach the result: that of the documentation collector never comes
    before that of the repository collector. *)
Definition completion_orders (cR cD cT : contribution) (cs : list contribution) : Prop :=
  cs = [cR; cD; cT] \/ cs = [cR; cT; cD] \/ cs = [cT; cR; cD].

(** The canned replies of the first six rules of the demo session. *)
Definition first_six_replies : list string :=
  [demo_structure; demo_documents; demo_pull_requests; demo_issues;
   demo_discussions; demo_learn].

(** A name the pattern [\w+] can match whole: not empty, and made of
    letters, digits and underscores. *)
Fixpoint word_chars (s : string) : bool :=
  match s with
  | EmptyString => true
  | String c r => is_word c && word_chars r
  end.

Definition is_word_name (s : string) : bool :=
  negb (String.eqb s "") && word_chars s.

(** *** Numbers *)

(** A finite double that is not negative, as the quotient
    [significand / 2^scale]. *)
Record double := { significand : Z; scale : Z }.

(** [a / b] on two integers that are doubles ([0 <= a], [0 < b], both
    below 2^53): the quotient, rounded to 53 significant bits, ties to
    even. *)
Definition fdiv (a b : Z) : double :=
  if (a =? 0)%Z then {| significand := 0; scale := 0 |}
  else
    let e0 := (Z.log2 a - Z.log2 b)%Z in
    let below :=
      if (0 <=? e0)%Z then (a <? b * 2 ^ e0)%Z else (a * 2 ^ (- e0) <? b)%Z in
    let e := if below then (e0 - 1)%Z else e0 in
    let k := (52 - e)%Z in
    let num := if (0 <=? k)%Z then (a * 2 ^ k)%Z else a in
    let den := if (0 <=? k)%Z then b else (b * 2 ^ (- k))%Z in
    let q0 := (num / den)%Z in
    let rem := (num mod den)%Z in
    let q :=
      if (2 * rem <? den)%Z then q0
      else if (den <? 2 * rem)%Z then (q0 + 1)%Z
      else if Z.even q0 then q0 else (q0 + 1)%Z in
    {| significand := q; scale := k |}.

(** [n * x], exactly, for the rounding functions below. *)
Definition scaled (n : Z) (x : double) : Z * Z :=
  if (0 <=? scale x)%Z then ((n * significand x)%Z, (2 ^ scale x)%Z)
  else ((n * significand x * 2 ^ (- scale x))%Z, 1%Z).

(** [Math.floor(x)] *)
Definition Math_floor (x : double) : Z :=
  let '(num, den) := scaled 1 x in (num / den)%Z.

(** [Math.round(x)]: the nearest integer, a tie going up. *)
Definition Math_round (x : double) : Z :=
  let '(num, den) := scaled 2 x in ((num + den) / (2 * den))%Z.

Definition Z_to_string (n : Z) : string :=
  if (n <? 0)%Z then "-" +:+ nat_to_string (Z.to_nat (- n))
  else nat_to_string (Z.to_nat n).

(** [x.toFixed(1)], below 10^21: the nearest multiple of a tenth, a tie
    going up, with one digit after the point. *)
Definition toFixed1 (x : double) : string :=
  let '(num, den) := scaled 20 x in
  let n := ((num + den) / (2 * den))%Z in
  Z_to_string (n / 10) +:+ "." +:+ Z_to_string (n mod 10).

(** *** utils/helpers.js *)

(** Format a duration in milliseconds to a human-readable string; [ms] is
    an integer, the difference of two readings of [Date.now()]. *)
Definition formatDuration (ms : Z) : string :=
  if (ms <? 1000)%Z then Z_to_string ms +:+ "ms"
  else if (ms <? 60000)%Z then toFixed1 (fdiv ms 1000) +:+ "s"
  else Z_to_string (Math_floor (fdiv ms 60000)) +:+ "m "
       +:+ Z_to_string (Math_round (fdiv (ms mod 60000) 1000)) +:+ "s".

(** The styles of [chalk] that [showResults] uses, and [boxen]: what they
    return depends on the terminal, so they are taken as given. *)
Record Chalk := {
  bold_cyan : string -> string;
  green : string -> string;
  red : string -> string;
  bold : string -> string;
  dim : string -> string
}.

Record BoxOptions := {
  padding : nat;
  margin : nat;
  borderStyle : string;
  borderColor : string
}.

(** The fields of a step that [showResults] tests for truth: an array is
    truthy even when empty, a number when it is not zero. *)
Definition step_techStack (s : StepOutcome) : option (list string) :=
  match metrics s with
  | RepoMetrics techStack _ _ _ _ => Some techStack
  | _ => None
  end.

Definition step_resourceCount (s : StepOutcome) : option nat :=
  match metrics s with
  | DocsMetrics resourceCount => Some resourceCount
  | _ => None
  end.

Definition step_people (s : StepOutcome) : option nat :=
  match metrics s with
  | TeamMetrics _ people _ _ _ => Some people
  | _ => None
  end.

Definition truthy (n : option nat) : bool :=
  match n with
  | Some (S _) => true
  | _ => false
  end.

(** The body of the loop [for (const step of results.steps)]. *)
Definition step_line (s : StepOutcome) : string :=
  let icon := if String.eqb (status s) "success" then "✅" else "❌" in
  "  " +:+ icon +:+ " " +:+ step s
  +:+ (match step_techStack s with
       | Some techStack => " (" +:+ join ", " techStack +:+ ")"
       | None => ""
       end)
  +:+ (if truthy (step_resourceCount s)
       then " (" +:+ nat_to_string (default 0%nat (step_resourceCount s)) +:+ " resources)"
       else "")
  +:+ (if truthy (step_people s)
       then " (" +:+ nat_to_string (default 0%nat (step_people s)) +:+ " people found)"
       else "")
  +:+ newline.

(** The text [showResults] puts in the box. *)
Definition summaryText (chalk : Chalk) (results : PipelineRunResult) : string :=
  let successSteps := List.filter (fun s => String.eqb (status s) "success") (steps results) in
  let failedSteps := errors results in
  bold_cyan chalk ("📊 OnboardBot Results" +:+ newline +:+ newline)
  +:+ green chalk ("  ✅ " +:+ nat_to_string (length successSteps)
                   +:+ " steps completed successfully" +:+ newline)
  +:+ (if (0 <? length failedSteps)%nat
       then red chalk ("  ❌ " +:+ nat_to_string (length failedSteps)
                       +:+ " steps had errors" +:+ newline)
       else "")
  +:+ (match guide results with
       | Some g =>
           bold chalk (newline +:+ "  📄 Guide saved to: " +:+ outputPath g +:+ newline)
           +:+ dim chalk ("  📏 Guide size: "
                          +:+ toFixed1 (fdiv (Z.of_nat (js_length (content g))) 1024)
                          +:+ " KB")
       | None => ""
       end)
  +:+ newline +:+ newline +:+ bold chalk ("  Pipeline Steps:" +:+ newline)
  +:+ String.concat "" (map step_line (steps results)).

(** Display the final results summary: what is handed to [console.log]. *)
Definition showResults (chalk : Chalk) (boxen : string -> BoxOptions -> string)
  (results : PipelineRunResult) : list string :=
  let successSteps := List.filter (fun s => String.eqb (status s) "success") (steps results) in
  [ newline;
    boxen (summaryText chalk results)
      {| padding := 1; margin := 1; borderStyle := "round";
         borderColor := if (3 <=? length successSteps)%nat then "green" else "yellow" |} ].

(** A number of tenths, as [toFixed(1)] writes it. *)
Definition tenths (n : Z) : string :=
  Z_to_string (n / 10) +:+ "." +:+ Z_to_string (n mod 10).

(** A pattern of the table as [detectTechStack] looks for it. *)
Definition normalizedPattern (pattern : string) : string :=
  replace (toLowerCase (replace pattern "*." "")) "/" "".

(** An entry of a listing gives a technology away. *)
Definition entry_shows (entry tech : string) : Prop :=
  exists patterns pattern,
    In (tech, patterns) TECH_PATTERNS /\ In pattern patterns /\
    includes (toLowerCase entry) (normalizedPattern pattern) = true.

(** *** How far the parser looks *)

(** Two continuations of a text that a parser cannot tell apart when it
    stops before them: the same one, or two that start alike. *)
Definition same_front (rest rest' : string) : Prop :=
  rest' = rest \/ exists c t t', rest = String c t /\ rest' = String c t'.

(** A parser that reads no further than what it consumes, but for one
    character after a result that is not [closed]: what follows the
    consumed text can be replaced. *)
Definition local {A} (closed : A -> Prop) (f : string -> parsed A) : Prop :=
  forall s a rest, f s = Parsed a rest ->
    exists used,
      s = used +:+ rest /\
      forall rest', closed a \/ same_front rest rest' ->
                    f (used +:+ rest') = Parsed a rest'.

(** Every value but a number ends with a character of its own. *)
Definition closed_value (v : json) : Prop :=
  match v with
  | JNumber _ => False
  | _ => True
  end.

(* ===================================================================== *)
(** * Part II. Properties                                                 *)
(* ===================================================================== *)

(** ** Text and patterns *)

Lemma append_String (c : ascii) (s t : string) :
  String c s +:+ t = String c (s +:+ t).
Proof. reflexivity. Qed.

Lemma append_empty_l (s : string) : "" +:+ s = s.
Proof. reflexivity. Qed.

Lemma append_empty_r (s : string) : s +:+ "" = s.
Proof.
  induction s as [|c s IH]; [reflexivity|].
  now rewrite append_String, IH.
Qed.

Lemma append_assoc3 (s t u : string) : (s +:+ t) +:+ u = s +:+ (t +:+ u).
Proof.
  induction s as [|c s IH]; [reflexivity|].
  now rewrite !append_String, IH.
Qed.

(** Push the characters of a literal prefix out of an append. *)
Ltac expose := rewrite ?append_String, ?append_empty_l in *.

Lemma lazy_close_stops (body post : string) :
  has_char "]" body = false ->
  lazy_close (body +:+ String "]" post) = Some (body +:+ "]").
Proof.
  induction body as [|c body IH]; intros Hno; expose; simpl.
  - reflexivity.
  - simpl in Hno. apply orb_false_iff in Hno as [Hc Hrest].
    rewrite Hc, (IH Hrest). reflexivity.
Qed.

Lemma match_array_finds (pre body post : string) :
  has_char "[" pre = false ->
  has_char "]" body = false ->
  match_array (pre +:+ String "[" (body +:+ String "]" post))
  = Some (String "[" (body +:+ "]")).
Proof.
  intros Hpre Hbody.
  induction pre as [|c pre IH]; expose; simpl.
  - now rewrite lazy_close_stops.
  - simpl in Hpre. apply orb_false_iff in Hpre as [Hc Hrest].
    rewrite Hc. now apply IH.
Qed.

Lemma lazy_close_prefix (r m : string) :
  lazy_close r = Some m -> exists post, r = m +:+ post.
Proof.
  revert m. induction r as [|c r IH]; simpl; intros m H; [discriminate|].
  destruct (Ascii.eqb_spec c "]") as [->|_].
  - injection H as <-. now exists r.
  - destruct (lazy_close r) as [m'|]; [|discriminate].
    injection H as <-. destruct (IH m' eq_refl) as [post ->].
    now exists post.
Qed.

Lemma greedy_close_prefix (r m : string) :
  greedy_close r = Some m -> exists post, r = m +:+ post.
Proof.
  revert m. induction r as [|c r IH]; simpl; intros m H; [discriminate|].
  destruct (greedy_close r) as [m'|].
  - injection H as <-. destruct (IH m' eq_refl) as [post ->]. now exists post.
  - destruct (Ascii.eqb_spec c "}") as [->|_]; [|discriminate].
    injection H as <-. now exists r.
Qed.

(** What [match_array] returns is a piece of the text that opens with a
    bracket. *)
Lemma match_array_piece (s m : string) :
  match_array s = Some m ->
  exists pre body post, s = pre +:+ m +:+ post /\ m = String "[" body.
Proof.
  revert m. induction s as [|c s IH]; simpl; intros m H; [discriminate|].
  destruct (Ascii.eqb_spec c "[") as [->|_].
  - destruct (lazy_close s) as [m'|] eqn:Hclose.
    + injection H as <-. destruct (lazy_close_prefix _ _ Hclose) as [post ->].
      now exists "", m', post.
    + destruct (IH m H) as (pre & body & post & -> & ->).
      now exists (String "[" pre), body, post.
  - destruct (IH m H) as (pre & body & post & -> & ->).
    now exists (String c pre), body, post.
Qed.

Lemma match_object_piece (s m : string) :
  match_object s = Some m ->
  exists pre body post, s = pre +:+ m +:+ post /\ m = String "{" body.
Proof.
  revert m. induction s as [|c s IH]; simpl; intros m H; [discriminate|].
  destruct (Ascii.eqb_spec c "{") as [->|_].
  - destruct (greedy_close s) as [m'|] eqn:Hclose.
    + injection H as <-. destruct (greedy_close_prefix _ _ Hclose) as [post ->].
      now exists "", m', post.
    + destruct (IH m H) as (pre & body & post & -> & ->).
      now exists (String "{" pre), body, post.
  - destruct (IH m H) as (pre & body & post & -> & ->).
    now exists (String c pre), body, post.
Qed.

(** ** JSON.parse *)

(** A text that opens with a bracket parses to an array or not at all. *)
Lemma value_bracket (fuel : nat) (r : string) (v : json) (rest : string) :
  value fuel (String "[" r) = Parsed v rest -> exists items, v = JArray items.
Proof.
  destruct fuel as [|fuel]; simpl; [discriminate|].
  unfold value_with; simpl.
  destruct (skip_ws r) as [|c' r']; [discriminate|].
  destruct (Ascii.eqb c' "]").
  - intros [= <- _]. now exists [].
  - destruct (elements fuel (String c' r')) as [vs rest'| |]; try discriminate.
    intros [= <- _]. now exists vs.
Qed.

Lemma value_brace (fuel : nat) (r : string) (v : json) (rest : string) :
  value fuel (String "{" r) = Parsed v rest -> exists members, v = JObject members.
Proof.
  destruct fuel as [|fuel]; simpl; [discriminate|].
  unfold value_with; simpl.
  destruct (skip_ws r) as [|c' r']; [discriminate|].
  destruct (Ascii.eqb c' "}").
  - intros [= <- _]. now exists [].
  - destruct (members fuel (String c' r')) as [ms rest'| |]; try discriminate.
    intros [= <- _]. now exists ms.
Qed.

Lemma parse_bracket_is_array (body : string) (v : json) :
  JSON_parse (String "[" body) = Resolved v -> exists items, v = JArray items.
Proof.
  unfold JSON_parse.
  destruct (value _ _) as [v' rest| |] eqn:Hv; try discriminate.
  destruct (skip_ws rest); [|discriminate].
  intros [= <-]. eapply value_bracket, Hv.
Qed.

Lemma parse_brace_is_object (body : string) (v : json) :
  JSON_parse (String "{" body) = Resolved v -> exists members, v = JObject members.
Proof.
  unfold JSON_parse.
  destruct (value _ _) as [v' rest| |] eqn:Hv; try discriminate.
  destruct (skip_ws rest); [|discriminate].
  intros [= <-]. eapply value_brace, Hv.
Qed.

(** Hence [as_array] never meets anything but an array in [array_from]:
    the statement returns the parsed value itself. *)
Lemma array_from_parsed (message m : string) (v : json) (on_error : list json) :
  match_array message = Some m ->
  JSON_parse m = Resolved v ->
  array_from message on_error = Resolved (as_array v) /\ v = JArray (as_array v).
Proof.
  intros Hm Hv. unfold array_from. rewrite Hm, Hv. split; [reflexivity|].
  destruct (match_array_piece _ _ Hm) as (_ & body & _ & _ & ->).
  destruct (parse_bracket_is_array _ _ Hv) as [items ->]. reflexivity.
Qed.

(** *** The fuel of the parser is enough *)

Section Fuel.

Lemma skip_ws_le (s : string) : (String.length (skip_ws s) <= String.length s)%nat.
Proof.
  induction s as [|c s IH]; simpl; [lia|].
  destruct (is_ws c); simpl; lia.
Qed.

Lemma skip_ws_cons (s : string) (c : ascii) (r : string) :
  skip_ws s = String c r -> (String.length r < String.length s)%nat.
Proof.
  intros H. pose proof (skip_ws_le s) as Hle. rewrite H in Hle. simpl in Hle. lia.
Qed.

Lemma span_length (p : ascii -> bool) (s : string) :
  (String.length (fst (span p s)) + String.length (snd (span p s)) = String.length s)%nat.
Proof.
  induction s as [|c s IH]; simpl; [reflexivity|].
  destruct (p c); simpl; [|reflexivity].
  destruct (span p s) as [a b]; simpl in *. lia.
Qed.

Lemma prefix_dropped (p s : string) :
  String.prefix p s = true ->
  (String.length (drop_chars (String.length p) s) + String.length p = String.length s)%nat.
Proof.
  revert s. induction p as [|c p IH]; intros s; simpl.
  - intros _. destruct s; simpl; lia.
  - destruct s as [|c' s]; simpl; [discriminate|].
    destruct (ascii_dec c c'); [|discriminate].
    intros H. specialize (IH s H). lia.
Qed.

Lemma string_body_lt (s v rest : string) :
  string_body s = Some (v, rest) -> (String.length rest < String.length s)%nat.
Proof.
  enough (H : forall n s v rest, (String.length s <= n)%nat ->
              string_body s = Some (v, rest) ->
              (String.length rest < String.length s)%nat)
    by (apply (H (String.length s)); lia).
  clear. intros n.
  induction n as [|n IH]; intros s v rest Hle; destruct s as [|c r]; simpl in *;
    try discriminate; try lia.
  destruct (Ascii.eqb c dquote).
  { intros [= _ <-]. lia. }
  destruct (Ascii.eqb c backslash).
  - destruct r as [|e r1]; [discriminate|].
    destruct (Ascii.eqb e "u").
    + destruct r1 as [|h1 [|h2 [|h3 [|h4 r2]]]]; try discriminate.
      destruct (hex_value h1), (hex_value h2), (hex_value h3), (hex_value h4);
        try discriminate.
      destruct (string_body r2) as [[v' rest']|] eqn:Hb; [|discriminate].
      intros [= _ <-]. apply IH in Hb; simpl in *; lia.
    + destruct (simple_escape e); [|discriminate].
      destruct (string_body r1) as [[v' rest']|] eqn:Hb; [|discriminate].
      intros [= _ <-]. apply IH in Hb; simpl in *; lia.
  - destruct (code c <? 32)%nat; [discriminate|].
    destruct (string_body r) as [[v' rest']|] eqn:Hb; [|discriminate].
    intros [= _ <-]. apply IH in Hb; simpl in *; lia.
Qed.

Lemma digits1_lt (s ds rest : string) :
  digits1 s = Some (ds, rest) -> (String.length rest < String.length s)%nat.
Proof.
  unfold digits1. pose proof (span_length is_digit s) as H.
  destruct (span is_digit s) as [[|d a] b]; [discriminate|].
  intros [= _ <-]. simpl in H. lia.
Qed.

Lemma number_lt (s lex rest : string) :
  number s = Some (lex, rest) -> (String.length rest < String.length s)%nat.
Proof.
  unfold number.
  set (head := match s with
               | String c r => if Ascii.eqb c "-" then ("-", r) else ("", s)
               | EmptyString => ("", s)
               end).
  assert (Hhead : (String.length (snd head) <= String.length s)%nat).
  { subst head. destruct s as [|c r]; simpl; [lia|].
    destruct (Ascii.eqb c "-"); simpl; lia. }
  destruct head as [sign r]; simpl in Hhead.
  destruct (number_int r) as [[i r1]|] eqn:Hi; [|discriminate].
  assert (H1 : (String.length r1 < String.length r)%nat).
  { unfold number_int in Hi. destruct r as [|c r']; [discriminate|].
    destruct (Ascii.eqb c "0").
    - injection Hi as _ <-. simpl. lia.
    - now apply digits1_lt in Hi. }
  destruct (number_frac r1) as [[f r2]|] eqn:Hf; [|discriminate].
  assert (H2 : (String.length r2 <= String.length r1)%nat).
  { unfold number_frac in Hf. destruct r1 as [|c r']; [injection Hf as _ <-; lia|].
    destruct (Ascii.eqb c ".").
    - destruct (digits1 r') as [[ds rest']|] eqn:Hd; [|discriminate].
      injection Hf as _ <-. apply digits1_lt in Hd. simpl. lia.
    - injection Hf as _ <-. lia. }
  destruct (number_exp r2) as [[e r3]|] eqn:He; [|discriminate].
  assert (H3 : (String.length r3 <= String.length r2)%nat).
  { unfold number_exp in He. destruct r2 as [|c r']; [injection He as _ <-; lia|].
    destruct (Ascii.eqb c "e" || Ascii.eqb c "E").
    - assert (Hs : (String.length (snd (number_sign r')) <= String.length r')%nat).
      { unfold number_sign. destruct r' as [|x r'']; simpl; [lia|].
        destruct (Ascii.eqb x "+" || Ascii.eqb x "-"); simpl; lia. }
      destruct (number_sign r') as [sg r'']; simpl in Hs.
      destruct (digits1 r'') as [[ds rest']|] eqn:Hd; [|discriminate].
      injection He as _ <-. apply digits1_lt in Hd. simpl. lia.
    - injection He as _ <-. lia. }
  intros [= _ <-]. lia.
Qed.

Lemma scalar_lt (s : string) (v : json) (rest : string) :
  scalar s = Parsed v rest -> (String.length rest < String.length s)%nat.
Proof.
  unfold scalar.
  destruct (String.prefix "null" s) eqn:Hn.
  { intros [= _ <-]. apply prefix_dropped in Hn. simpl in Hn. lia. }
  destruct (String.prefix "true" s) eqn:Ht.
  { intros [= _ <-]. apply prefix_dropped in Ht. simpl in Ht. lia. }
  destruct (String.prefix "false" s) eqn:Hf.
  { intros [= _ <-]. apply prefix_dropped in Hf. simpl in Hf. lia. }
  destruct (number s) as [[lex rest']|] eqn:Hnum; [|discriminate].
  intros [= _ <-]. eapply number_lt, Hnum.
Qed.

Lemma value_with_consumes e m :
  consumes e -> consumes m -> consumes (value_with e m).
Proof.
  intros He Hm s v rest. unfold value_with.
  destruct (skip_ws s) as [|c r] eqn:Hs; [discriminate|].
  apply skip_ws_cons in Hs.
  destruct (Ascii.eqb c "[").
  { destruct (skip_ws r) as [|c' r'] eqn:Hr; [discriminate|].
    apply skip_ws_cons in Hr.
    destruct (Ascii.eqb c' "]"); [intros [= _ <-]; lia|].
    destruct (e (String c' r')) as [vs rest'| |] eqn:Hel; try discriminate.
    intros [= _ <-]. apply He in Hel. simpl in Hel. lia. }
  destruct (Ascii.eqb c "{").
  { destruct (skip_ws r) as [|c' r'] eqn:Hr; [discriminate|].
    apply skip_ws_cons in Hr.
    destruct (Ascii.eqb c' "}"); [intros [= _ <-]; lia|].
    destruct (m (String c' r')) as [ms rest'| |] eqn:Hmem; try discriminate.
    intros [= _ <-]. apply Hm in Hmem. simpl in Hmem. lia. }
  destruct (Ascii.eqb c dquote).
  { destruct (string_body r) as [[k rest']|] eqn:Hb; [|discriminate].
    intros [= _ <-]. apply string_body_lt in Hb. lia. }
  intros H. apply scalar_lt in H. simpl in H. lia.
Qed.

Lemma elements_with_consumes v e :
  consumes v -> consumes e -> consumes (elements_with v e).
Proof.
  intros Hv He s vs rest. unfold elements_with.
  destruct (v s) as [x rest1| |] eqn:Hx; try discriminate.
  apply Hv in Hx.
  destruct (skip_ws rest1) as [|c r] eqn:Hs; [discriminate|].
  apply skip_ws_cons in Hs.
  destruct (Ascii.eqb c ",").
  { destruct (e r) as [xs rest2| |] eqn:Hxs; try discriminate.
    intros [= _ <-]. apply He in Hxs. lia. }
  destruct (Ascii.eqb c "]"); [|discriminate].
  intros [= _ <-]. lia.
Qed.

Lemma members_with_consumes v m :
  consumes v -> consumes m -> consumes (members_with v m).
Proof.
  intros Hv Hm s ms rest. unfold members_with.
  destruct (skip_ws s) as [|c r] eqn:Hs; [discriminate|].
  apply skip_ws_cons in Hs.
  destruct (Ascii.eqb c dquote); [|discriminate].
  destruct (string_body r) as [[k rest1]|] eqn:Hb; [|discriminate].
  apply string_body_lt in Hb.
  destruct (skip_ws rest1) as [|c2 r2] eqn:Hs2; [discriminate|].
  apply skip_ws_cons in Hs2.
  destruct (Ascii.eqb c2 ":"); [|discriminate].
  destruct (v r2) as [x rest2| |] eqn:Hx; try discriminate.
  apply Hv in Hx.
  destruct (skip_ws rest2) as [|c3 r3] eqn:Hs3; [discriminate|].
  apply skip_ws_cons in Hs3.
  destruct (Ascii.eqb c3 ",").
  { destruct (m r3) as [xs rest3| |] eqn:Hxs; try discriminate.
    intros [= _ <-]. apply Hm in Hxs. lia. }
  destruct (Ascii.eqb c3 "}"); [|discriminate].
  intros [= _ <-]. lia.
Qed.

Lemma parsers_consume (fuel : nat) :
  consumes (value fuel) /\ consumes (elements fuel) /\ consumes (members fuel).
Proof.
  induction fuel as [|fuel (IHv & IHe & IHm)].
  - repeat split; intros s a rest; discriminate.
  - repeat split.
    + now apply value_with_consumes.
    + now apply elements_with_consumes.
    + now apply members_with_consumes.
Qed.

(** Running out of fuel, production by production. *)
Lemma value_with_fuelled e m (s : string) :
  (forall s', (String.length s' < String.length s)%nat -> e s' <> OutOfFuel) ->
  (forall s', (String.length s' < String.length s)%nat -> m s' <> OutOfFuel) ->
  value_with e m s <> OutOfFuel.
Proof.
  intros He Hm. unfold value_with.
  destruct (skip_ws s) as [|c r] eqn:Hs; [discriminate|].
  apply skip_ws_cons in Hs.
  destruct (Ascii.eqb c "[").
  { destruct (skip_ws r) as [|c' r'] eqn:Hr; [discriminate|].
    apply skip_ws_cons in Hr.
    destruct (Ascii.eqb c' "]"); [discriminate|].
    specialize (He (String c' r')).
    destruct (e (String c' r')); try discriminate.
    exfalso. apply He; [simpl; lia | reflexivity]. }
  destruct (Ascii.eqb c "{").
  { destruct (skip_ws r) as [|c' r'] eqn:Hr; [discriminate|].
    apply skip_ws_cons in Hr.
    destruct (Ascii.eqb c' "}"); [discriminate|].
    specialize (Hm (String c' r')).
    destruct (m (String c' r')); try discriminate.
    exfalso. apply Hm; [simpl; lia | reflexivity]. }
  destruct (Ascii.eqb c dquote).
  { destruct (string_body r) as [[k rest']|]; discriminate. }
  unfold scalar.
  repeat match goal with
         | |- context [if ?b then _ else _] => destruct b; try discriminate
         end.
  destruct (number _) as [[lex rest']|]; discriminate.
Qed.

Lemma elements_with_fuelled v e (s : string) :
  consumes v ->
  v s <> OutOfFuel ->
  (forall s', (String.length s' + 2 <= String.length s)%nat -> e s' <> OutOfFuel) ->
  elements_with v e s <> OutOfFuel.
Proof.
  intros Hc Hv He. unfold elements_with.
  destruct (v s) as [x rest1| |] eqn:Hx; try discriminate; [|congruence].
  apply Hc in Hx.
  destruct (skip_ws rest1) as [|c r] eqn:Hs; [discriminate|].
  apply skip_ws_cons in Hs.
  destruct (Ascii.eqb c ",").
  { specialize (He r). destruct (e r); try discriminate.
    exfalso. apply He; [lia | reflexivity]. }
  destruct (Ascii.eqb c "]"); discriminate.
Qed.

Lemma members_with_fuelled v m (s : string) :
  consumes v ->
  (forall s', (String.length s' < String.length s)%nat -> v s' <> OutOfFuel) ->
  (forall s', (String.length s' < String.length s)%nat -> m s' <> OutOfFuel) ->
  members_with v m s <> OutOfFuel.
Proof.
  intros Hc Hv Hm. unfold members_with.
  destruct (skip_ws s) as [|c r] eqn:Hs; [discriminate|].
  apply skip_ws_cons in Hs.
  destruct (Ascii.eqb c dquote); [|discriminate].
  destruct (string_body r) as [[k rest1]|] eqn:Hb; [|discriminate].
  apply string_body_lt in Hb.
  destruct (skip_ws rest1) as [|c2 r2] eqn:Hs2; [discriminate|].
  apply skip_ws_cons in Hs2.
  destruct (Ascii.eqb c2 ":"); [|discriminate].
  specialize (Hv r2).
  destruct (v r2) as [x rest2| |] eqn:Hx; try discriminate.
  2:{ exfalso. apply Hv; [lia | reflexivity]. }
  apply Hc in Hx.
  destruct (skip_ws rest2) as [|c3 r3] eqn:Hs3; [discriminate|].
  apply skip_ws_cons in Hs3.
  destruct (Ascii.eqb c3 ",").
  { specialize (Hm r3). destruct (m r3); try discriminate.
    exfalso. apply Hm; [lia | reflexivity]. }
  destruct (Ascii.eqb c3 "}"); discriminate.
Qed.

Lemma parsers_fuelled (fuel : nat) :
  (forall s, (2 * String.length s + 1 <= fuel)%nat -> value fuel s <> OutOfFuel) /\
  (forall s, (2 * String.length s + 2 <= fuel)%nat -> elements fuel s <> OutOfFuel) /\
  (forall s, (2 * String.length s + 2 <= fuel)%nat -> members fuel s <> OutOfFuel).
Proof.
  induction fuel as [|fuel (IHv & IHe & IHm)].
  - repeat split; intros s H; lia.
  - destruct (parsers_consume fuel) as (Cv & Ce & Cm).
    repeat split; intros s H; simpl.
    + apply value_with_fuelled; intros s' Hs'; [apply IHe | apply IHm]; lia.
    + apply elements_with_fuelled; [exact Cv | apply IHv; lia |].
      intros s' Hs'. apply IHe. lia.
    + apply members_with_fuelled; [exact Cv | |];
        intros s' Hs'; [apply IHv | apply IHm]; lia.
Qed.

(** More fuel never changes an answer. *)
Lemma value_with_settled e e' m m' :
  settled e e' -> settled m m' -> settled (value_with e m) (value_with e' m').
Proof.
  intros He Hm s. unfold value_with.
  destruct (skip_ws s) as [|c r]; [reflexivity|].
  destruct (Ascii.eqb c "[").
  { destruct (skip_ws r) as [|c' r']; [reflexivity|].
    destruct (Ascii.eqb c' "]"); [reflexivity|].
    specialize (He (String c' r')).
    destruct (e (String c' r')); intros H; try congruence; rewrite He; congruence. }
  destruct (Ascii.eqb c "{").
  { destruct (skip_ws r) as [|c' r']; [reflexivity|].
    destruct (Ascii.eqb c' "}"); [reflexivity|].
    specialize (Hm (String c' r')).
    destruct (m (String c' r')); intros H; try congruence; rewrite Hm; congruence. }
  reflexivity.
Qed.

Lemma elements_with_settled v v' e e' :
  settled v v' -> settled e e' -> settled (elements_with v e) (elements_with v' e').
Proof.
  intros Hv He s. unfold elements_with.
  specialize (Hv s).
  destruct (v s) as [x rest1| |]; intros H; try congruence;
    rewrite Hv by congruence; [|reflexivity].
  destruct (skip_ws rest1) as [|c r]; [reflexivity|].
  destruct (Ascii.eqb c ","); [|reflexivity].
  specialize (He r).
  destruct (e r); try congruence; rewrite He; congruence.
Qed.

Lemma members_with_settled v v' m m' :
  settled v v' -> settled m m' -> settled (members_with v m) (members_with v' m').
Proof.
  intros Hv Hm s. unfold members_with.
  destruct (skip_ws s) as [|c r]; [reflexivity|].
  destruct (Ascii.eqb c dquote); [|reflexivity].
  destruct (string_body r) as [[k rest1]|]; [|reflexivity].
  destruct (skip_ws rest1) as [|c2 r2]; [reflexivity|].
  destruct (Ascii.eqb c2 ":"); [|reflexivity].
  specialize (Hv r2).
  destruct (v r2) as [x rest2| |]; intros H; try congruence;
    rewrite Hv by congruence; [|reflexivity].
  destruct (skip_ws rest2) as [|c3 r3]; [reflexivity|].
  destruct (Ascii.eqb c3 ","); [|reflexivity].
  specialize (Hm r3).
  destruct (m r3); try congruence; rewrite Hm; congruence.
Qed.

Lemma one_more_unit (fuel : nat) :
  settled (value fuel) (value (S fuel)) /\
  settled (elements fuel) (elements (S fuel)) /\
  settled (members fuel) (members (S fuel)).
Proof.
  induction fuel as [|fuel (IHv & IHe & IHm)].
  - repeat split; intros s H; simpl in H; congruence.
  - repeat split.
    + apply (value_with_settled _ _ _ _ IHe IHm).
    + apply (elements_with_settled _ _ _ _ IHv IHe).
    + apply (members_with_settled _ _ _ _ IHv IHm).
Qed.

Lemma value_more_fuel (fuel extra : nat) (s : string) :
  value fuel s <> OutOfFuel -> value (fuel + extra) s = value fuel s.
Proof.
  intros H. induction extra as [|extra IH].
  - now rewrite Nat.add_0_r.
  - rewrite Nat.add_succ_r.
    destruct (one_more_unit (fuel + extra)) as (Hv & _ & _).
    rewrite Hv; [exact IH | congruence].
Qed.

(** [JSON_parse] never fails for want of fuel, and any larger fuel gives
    the same answer: a rejection is a syntax error of the text. *)
Lemma JSON_parse_fuel (text : string) :
  value (fuel_for text) text <> OutOfFuel /\
  forall fuel, (fuel_for text <= fuel)%nat ->
               value fuel text = value (fuel_for text) text.
Proof.
  assert (H : value (fuel_for text) text <> OutOfFuel).
  { apply (parsers_fuelled (fuel_for text)). unfold fuel_for. lia. }
  split; [exact H|].
  intros fuel Hle.
  replace fuel with (fuel_for text + (fuel - fuel_for text))%nat by lia.
  now apply value_more_fuel.
Qed.

End Fuel.

(** ** Response extraction *)

Lemma array_from_no_match (message : string) (on_error : list json) :
  match_array message = None -> array_from message on_error = Resolved [].
Proof. intros H. unfold array_from. now rewrite H. Qed.

Lemma array_from_parse_error (message m err : string) (on_error : list json) :
  match_array message = Some m -> JSON_parse m = Rejected err ->
  array_from message on_error = Resolved on_error.
Proof. intros Hm He. unfold array_from. now rewrite Hm, He. Qed.

(** The extraction statements never throw. *)
Lemma array_from_total (message : string) (on_error : list json) :
  exists items, array_from message on_error = Resolved items.
Proof.
  unfold array_from.
  destruct (match_array message) as [m|]; simpl; [|now eexists].
  destruct (JSON_parse m); simpl; now eexists.
Qed.

Lemma norms_from_total (message : string) :
  exists v, norms_from message = Resolved v.
Proof.
  unfold norms_from.
  destruct (match_object message) as [m|]; simpl; [|now eexists].
  destruct (JSON_parse m); simpl; now eexists.
Qed.

(** Without an embedded array (object) there is nothing to extract. *)
Lemma array_from_nothing_embedded (message : string) (on_error : list json) :
  ~ embeds_array message ->
  array_from message on_error
  = Resolved (match match_array message with Some _ => on_error | None => [] end).
Proof.
  intros Hno. unfold array_from.
  destruct (match_array message) as [m|] eqn:Hm; [|reflexivity].
  destruct (JSON_parse m) as [v|err] eqn:Hv; [|reflexivity].
  exfalso. apply Hno.
  destruct (match_array_piece _ _ Hm) as (pre & body & post & Hs & ->).
  destruct (parse_bracket_is_array _ _ Hv) as [items ->].
  exists (String "[" body), items. split; [now exists pre, post | exact Hv].
Qed.

Lemma norms_from_nothing_embedded (message : string) :
  ~ embeds_object message -> norms_from message = Resolved getDefaultNorms.
Proof.
  intros Hno. unfold norms_from.
  destruct (match_object message) as [m|] eqn:Hm; [|reflexivity].
  destruct (JSON_parse m) as [v|err] eqn:Hv; [|reflexivity].
  exfalso. apply Hno.
  destruct (match_object_piece _ _ Hm) as (pre & body & post & Hs & ->).
  destruct (parse_brace_is_object _ _ Hv) as [members ->].
  exists (String "{" body), members. split; [now exists pre, post | exact Hv].
Qed.

(** A text without an opening bracket embeds no array. *)
Lemma has_char_app (c : ascii) (s t : string) :
  has_char c (s +:+ t) = has_char c s || has_char c t.
Proof.
  induction s as [|a s IH]; [reflexivity|].
  rewrite append_String. simpl. rewrite IH. now rewrite orb_assoc.
Qed.

Lemma has_char_skip_ws (c : ascii) (s : string) :
  has_char c (skip_ws s) = true -> has_char c s = true.
Proof.
  induction s as [|a s IH]; simpl; [discriminate|].
  destruct (is_ws a); simpl; [|tauto].
  intros H. rewrite (IH H). apply orb_true_r.
Qed.

Lemma value_array_opens (fuel : nat) (s : string) (items : list json) (rest : string) :
  value fuel s = Parsed (JArray items) rest -> has_char "[" s = true.
Proof.
  destruct fuel as [|fuel]; simpl; [discriminate|].
  unfold value_with. intros H. apply has_char_skip_ws.
  destruct (skip_ws s) as [|c r]; [discriminate|]. simpl.
  destruct (Ascii.eqb c "["); [reflexivity|]. exfalso.
  destruct (Ascii.eqb c "{").
  { destruct (skip_ws r) as [|c' r']; [discriminate|].
    destruct (Ascii.eqb c' "}"); [discriminate|].
    destruct (members fuel (String c' r')); discriminate. }
  destruct (Ascii.eqb c dquote).
  { destruct (string_body r) as [[k rest']|]; discriminate. }
  unfold scalar in H.
  repeat match type of H with
         | context [if ?b then _ else _] => destruct b; try discriminate
         end.
  destruct (number _) as [[lex rest']|]; discriminate.
Qed.

Lemma no_bracket_no_array (message : string) :
  has_char "[" message = false -> ~ embeds_array message.
Proof.
  intros Hno (m & items & (pre & post & ->) & Hparse).
  rewrite !has_char_app in Hno.
  apply orb_false_iff in Hno as [_ Hno]. apply orb_false_iff in Hno as [Hno _].
  unfold JSON_parse in Hparse.
  destruct (value (fuel_for m) m) as [v rest| |] eqn:Hv; try discriminate.
  destruct (skip_ws rest); [|discriminate].
  injection Hparse as ->. apply value_array_opens in Hv. congruence.
Qed.

(** How an array-shape call ends, once the session has answered. *)
Lemma array_call_result (session : Session) (prompt : string)
  (on_error : list json) (env : Env) (w : World) (r : response) :
  next_reply session w prompt = Resolved r ->
  fst ((response ← sendAndWait session prompt;
        settle (array_from (message response) on_error)) env w)
  = array_from (message r) on_error.
Proof.
  intros H. unfold mbind, async_bind, sendAndWait, settle. now rewrite H.
Qed.

Lemma norms_call_result (session : Session) (teamName : string)
  (env : Env) (w : World) (r : response) :
  next_reply session w (getTeamNorms_prompt teamName) = Resolved r ->
  fst (getTeamNorms session teamName env w) = norms_from (message r).
Proof.
  intros H. unfold getTeamNorms, mbind, async_bind, sendAndWait, settle.
  now rewrite H.
Qed.

(** C1, as stated, fails twice over.  A bracket group in the prose before
    the array is what the pattern finds first, and its text is not JSON;
    and the lazy pattern stops at the first closing bracket, so an array
    that holds an array (here the issue list of the demo session, with its
    labels) is cut short and does not parse either. *)
Lemma embedded_array_missed :
  JSON_parse (q "[~README.md~, ~src/~]")
  = Resolved (JArray [JString "README.md"; JString "src/"]) /\
  array_from ("Top-level files [sorted]: " +:+ q "[~README.md~, ~src/~]" +:+ "") []
  = Resolved [] /\
  (exists a b c, JSON_parse demo_issues = Resolved (JArray [a; b; c])) /\
  array_from ("" +:+ demo_issues +:+ "") [] = Resolved [].
Proof.
  split; [vm_compute; reflexivity|].
  split; [vm_compute; reflexivity|].
  split; [|vm_compute; reflexivity].
  vm_compute. do 3 eexists. reflexivity.
Qed.

(** C1, amended: when the prose before the array holds no opening bracket
    and the array holds no closing bracket but its last character (a flat
    array), the array-shape extraction returns the parse of the embedded
    array, whatever follows it. *)
Theorem flat_embedded_array_extracted (pre body post : string) (items : list json) :
  has_char "[" pre = false ->
  has_char "]" body = false ->
  JSON_parse (String "[" (body +:+ "]")) = Resolved (JArray items) ->
  array_from (pre +:+ String "[" (body +:+ "]") +:+ post) [] = Resolved items.
Proof.
  intros Hpre Hbody Hparse.
  assert (Hm : match_array (pre +:+ String "[" (body +:+ "]") +:+ post)
               = Some (String "[" (body +:+ "]"))).
  { rewrite append_String, append_assoc3. simpl (String "]" "" +:+ post).
    now apply match_array_finds. }
  destruct (array_from_parsed _ _ _ [] Hm Hparse) as [-> _]. reflexivity.
Qed.

Lemma flat_embedded_array_extracted_witness :
  array_from ("Here is the listing: " +:+ String "[" (q "~README.md~, ~src/~" +:+ "]")
              +:+ " Anything else?") []
  = Resolved [JString "README.md"; JString "src/"].
Proof.
  apply (flat_embedded_array_extracted "Here is the listing: "
           (q "~README.md~, ~src/~") " Anything else?");
    vm_compute; reflexivity.
Defined.

(** C6, as stated, fails: a well-formed JSON object is JSON of the wrong
    shape for an array-shape call, yet the array inside it is extracted;
    and the norms call extracts the object inside an array. *)
Lemma wrong_shape_extracted :
  JSON_parse (q "{~items~: [1]}")
  = Resolved (JObject [("items", JArray [JNumber "1"])]) /\
  array_from (q "{~items~: [1]}") [] = Resolved [JNumber "1"] /\
  JSON_parse (q "[{~a~: 1}]") = Resolved (JArray [JObject [("a", JNumber "1")]]) /\
  norms_from (q "[{~a~: 1}]") = Resolved (JObject [("a", JNumber "1")]).
Proof. repeat split; vm_compute; reflexivity. Qed.

(** C6, amended: for every text that embeds no well-formed JSON of the
    requested shape (the empty string, prose, JSON of another shape without
    such a piece), an array-shape statement returns its fallback - the
    empty array, or in [getKeyDocuments] the empty array or its
    placeholder - and the norms statement returns the default norms; no
    extraction ever raises. So do the calls of the team collector. *)
Theorem nothing_embedded_falls_back (message : string) :
  (~ embeds_array message ->
   array_from message [] = Resolved [] /\
   (array_from message could_not_parse = Resolved [] \/
    array_from message could_not_parse = Resolved could_not_parse) /\
   forall session teamName env w,
     next_reply session w (getRecentTeamsActivity_prompt teamName)
     = Resolved {| message := message |} ->
     fst (getRecentTeamsActivity session teamName env w) = Resolved []) /\
  (~ embeds_object message ->
   norms_from message = Resolved getDefaultNorms /\
   forall session teamName env w,
     next_reply session w (getTeamNorms_prompt teamName)
     = Resolved {| message := message |} ->
     fst (getTeamNorms session teamName env w) = Resolved getDefaultNorms) /\
  (forall on_error, is_rejected (array_from message on_error) = false) /\
  is_rejected (norms_from message) = false.
Proof.
  split; [|split; [|split]].
  - intros Hno.
    pose proof (array_from_nothing_embedded message [] Hno) as H0.
    pose proof (array_from_nothing_embedded message could_not_parse Hno) as H1.
    assert (Hempty : array_from message [] = Resolved []).
    { rewrite H0. now destruct (match_array message). }
    split; [exact Hempty|]. split.
    + rewrite H1. destruct (match_array message); [now right | now left].
    + intros session teamName env w Hreply.
      unfold getRecentTeamsActivity.
      rewrite (array_call_result _ _ _ _ _ _ Hreply). exact Hempty.
  - intros Hno.
    pose proof (norms_from_nothing_embedded message Hno) as H0.
    split; [exact H0|].
    intros session teamName env w Hreply.
    now rewrite (norms_call_result _ _ _ _ _ Hreply).
  - intros on_error. destruct (array_from_total message on_error) as [v ->].
    reflexivity.
  - destruct (norms_from_total message) as [v ->]. reflexivity.
Qed.

Lemma empty_embeds_nothing : ~ embeds_array "" /\ ~ embeds_object "".
Proof.
  split.
  - apply no_bracket_no_array. reflexivity.
  - intros (m & members & (pre & post & H) & Hparse).
    destruct pre; [|discriminate H]. destruct m; [|discriminate H].
    vm_compute in Hparse. discriminate.
Qed.

Lemma nothing_embedded_falls_back_witness :
  array_from "" [] = Resolved [] /\
  norms_from "" = Resolved getDefaultNorms /\
  array_from "I could not reach the server." [] = Resolved [].
Proof.
  destruct (nothing_embedded_falls_back "") as (Ha & Hn & _).
  destruct (nothing_embedded_falls_back "I could not reach the server.") as (Hb & _).
  split; [apply Ha, empty_embeds_nothing|].
  split; [apply Hn, empty_embeds_nothing|].
  apply Hb, no_bracket_no_array. vm_compute. reflexivity.
Defined.

(** ** The remote calls of the repository collector *)

Lemma failed_extraction_is_empty (message : string) :
  fails_extraction message -> array_from message [] = Resolved [].
Proof.
  intros [Hnone | (m & err & Hm & He)].
  - now apply array_from_no_match.
  - now apply (array_from_parse_error _ m err).
Qed.

Lemma documents_call_result (session : Session) (owner repo : string)
  (structure : list json) (docsToFetch : list string) (env : Env) (w : World)
  (r : response) :
  docs_to_fetch structure = Resolved docsToFetch ->
  next_reply session w (getKeyDocuments_prompt owner repo docsToFetch) = Resolved r ->
  fst (getKeyDocuments session owner repo structure env w)
  = array_from (message r) could_not_parse.
Proof.
  intros Hdocs Hreply.
  unfold getKeyDocuments, mbind, async_bind, settle, sendAndWait.
  now rewrite Hdocs, Hreply.
Qed.

(** C4, as stated, fails for the documentation call: on a JSON-parse error
    [getKeyDocuments] returns its one-element placeholder, not the empty
    sequence. *)
Lemma documents_placeholder_on_parse_error :
  match_array "[oops]" = Some "[oops]" /\
  JSON_parse "[oops]" = Rejected "SyntaxError" /\
  fst (getKeyDocuments (canned_session "[oops]") "octo" "demo" []
         (quiet_env noon) start_world)
  = Resolved [JObject [("file", JString "README.md");
                       ("summary", JString "Could not parse documentation.")]].
Proof. repeat split; vm_compute; reflexivity. Qed.

(** C4, amended: the structure listing, the PR list, the issue list and the
    discussion list return the empty sequence whenever their response fails
    extraction; the documentation call returns the empty sequence when no
    bracket group is found and its placeholder
    [{file: "README.md", summary: "Could not parse documentation."}] on a
    JSON-parse error. *)
Theorem remote_calls_fall_back (session : Session) (owner repo : string)
  (env : Env) (w : World) :
  (forall r,
     next_reply session w (getRepoStructure_prompt owner repo) = Resolved r ->
     fails_extraction (message r) ->
     fst (getRepoStructure session owner repo env w) = Resolved []) /\
  (forall r,
     next_reply session w (getRecentPRs_prompt owner repo) = Resolved r ->
     fails_extraction (message r) ->
     fst (getRecentPRs session owner repo env w) = Resolved []) /\
  (forall r,
     next_reply session w (getActiveIssues_prompt owner repo) = Resolved r ->
     fails_extraction (message r) ->
     fst (getActiveIssues session owner repo env w) = Resolved []) /\
  (forall r,
     next_reply session w (getDiscussions_prompt owner repo) = Resolved r ->
     fails_extraction (message r) ->
     fst (getDiscussions session owner repo env w) = Resolved []) /\
  (forall structure docsToFetch r,
     docs_to_fetch structure = Resolved docsToFetch ->
     next_reply session w (getKeyDocuments_prompt owner repo docsToFetch) = Resolved r ->
     (no_bracket_match (message r) ->
      fst (getKeyDocuments session owner repo structure env w) = Resolved []) /\
     (parse_fails (message r) ->
      fst (getKeyDocuments session owner repo structure env w)
      = Resolved could_not_parse)).
Proof.
  repeat split.
  - intros r Hr Hf. unfold getRepoStructure.
    rewrite (array_call_result _ _ _ _ _ _ Hr). now apply failed_extraction_is_empty.
  - intros r Hr Hf. unfold getRecentPRs.
    rewrite (array_call_result _ _ _ _ _ _ Hr). now apply failed_extraction_is_empty.
  - intros r Hr Hf. unfold getActiveIssues.
    rewrite (array_call_result _ _ _ _ _ _ Hr). now apply failed_extraction_is_empty.
  - intros r Hr Hf. unfold getDiscussions.
    rewrite (array_call_result _ _ _ _ _ _ Hr). now apply failed_extraction_is_empty.
  - intros Hnone. rewrite (documents_call_result _ _ _ _ _ _ _ _ H H0).
    now apply array_from_no_match.
  - intros (m & err & Hm & He). rewrite (documents_call_result _ _ _ _ _ _ _ _ H H0).
    now apply (array_from_parse_error _ m err).
Qed.

Lemma remote_calls_fall_back_witness :
  fst (getRepoStructure (canned_session "No data.") "octo" "demo"
         (quiet_env noon) start_world) = Resolved [] /\
  fst (getActiveIssues (canned_session "[1, 2") "octo" "demo"
         (quiet_env noon) start_world) = Resolved [] /\
  fst (getKeyDocuments (canned_session "No data.") "octo" "demo" []
         (quiet_env noon) start_world) = Resolved [] /\
  fst (getKeyDocuments (canned_session "[oops]") "octo" "demo" []
         (quiet_env noon) start_world) = Resolved could_not_parse.
Proof.
  destruct (remote_calls_fall_back (canned_session "No data.") "octo" "demo"
              (quiet_env noon) start_world) as (H1 & _ & _ & _ & H5).
  destruct (remote_calls_fall_back (canned_session "[1, 2") "octo" "demo"
              (quiet_env noon) start_world) as (_ & _ & H3 & _).
  destruct (remote_calls_fall_back (canned_session "[oops]") "octo" "demo"
              (quiet_env noon) start_world) as (_ & _ & _ & _ & H6).
  split; [apply (H1 {| message := "No data." |}); [reflexivity | left; reflexivity]|].
  split; [apply (H3 {| message := "[1, 2" |}); [reflexivity | left; reflexivity]|].
  split.
  - apply (H5 [] ["README.md"] {| message := "No data." |});
      [vm_compute; reflexivity | reflexivity | reflexivity].
  - apply (H6 [] ["README.md"] {| message := "[oops]" |});
      [vm_compute; reflexivity | reflexivity |].
    exists "[oops]", "SyntaxError". split; vm_compute; reflexivity.
Defined.

(** ** Tech-stack detection *)

Lemma prefix_of_append (x b : string) : String.prefix x (x +:+ b) = true.
Proof.
  induction x as [|c x IH]; [now destruct b|].
  rewrite append_String. simpl. now destruct (ascii_dec c c).
Qed.

Lemma includes_unfold (s x : string) :
  includes s x
  = if String.prefix x s then true
    else match s with
         | EmptyString => false
         | String _ r => includes r x
         end.
Proof. now destruct s. Qed.

Lemma includes_here (x b : string) : includes (x +:+ b) x = true.
Proof. now rewrite includes_unfold, prefix_of_append. Qed.

Lemma includes_later (a s x : string) :
  includes s x = true -> includes (a +:+ s) x = true.
Proof.
  intros H. induction a as [|c a IH]; [exact H|].
  rewrite append_String, includes_unfold, IH.
  destruct (String.prefix x (String c (a +:+ s))); reflexivity.
Qed.

Lemma prefix_longer (x s b : string) :
  String.prefix x s = true -> String.prefix x (s +:+ b) = true.
Proof.
  revert x. induction s as [|d s IH]; intros x; destruct x as [|y x]; simpl;
    try reflexivity; try discriminate.
  - now destruct b.
  - rewrite ?append_String. simpl. destruct (ascii_dec y d); [|discriminate].
    apply IH.
Qed.

Lemma includes_longer (s b x : string) :
  includes s x = true -> includes (s +:+ b) x = true.
Proof.
  induction s as [|c s IH]; rewrite includes_unfold.
  - destruct x; [|discriminate]. intros _. rewrite includes_unfold.
    simpl. now destruct b.
  - destruct (String.prefix x (String c s)) eqn:Hp; intros H.
    + now rewrite includes_unfold, (prefix_longer _ _ _ Hp).
    + rewrite append_String, includes_unfold, (IH H).
      destruct (String.prefix x (String c (s +:+ b))); reflexivity.
Qed.

Lemma toLowerCase_app (s t : string) :
  toLowerCase (s +:+ t) = toLowerCase s +:+ toLowerCase t.
Proof.
  induction s as [|c s IH]; [reflexivity|].
  rewrite append_String. simpl. now rewrite IH.
Qed.

Lemma join_holds (sep x : string) (l : list string) :
  In x l -> exists a b, join sep l = a +:+ x +:+ b.
Proof.
  unfold join. induction l as [|y l IH]; [intros []|].
  intros [-> | Hin].
  - destruct l as [|z l].
    + exists "", "". simpl. now rewrite append_empty_l, append_empty_r.
    + now exists "", (sep +:+ String.concat sep (z :: l)).
  - destruct (IH Hin) as (a & b & E). destruct l as [|z l]; [destruct Hin|].
    exists (y +:+ sep +:+ a), b.
    change (String.concat sep (y :: z :: l))
      with (y +:+ sep +:+ String.concat sep (z :: l)).
    now rewrite E, !append_assoc3.
Qed.

(** An entry of the listing shows, lowercased, in the text that is
    searched. *)
Lemma entry_in_listing (listing : list string) (entry x : string) :
  In entry listing ->
  includes (toLowerCase entry) x = true ->
  includes (toLowerCase (join " " listing)) x = true.
Proof.
  intros Hin Hx. destruct (join_holds " " entry listing Hin) as (a & b & ->).
  rewrite !toLowerCase_app. apply includes_later. now apply includes_longer.
Qed.

Lemma some_pattern_found_iff (structureStr : string) (patterns : list string) :
  some_pattern_found structureStr patterns = true <->
  exists pattern, In pattern patterns /\
    includes structureStr
      (replace (toLowerCase (replace pattern "*." "")) "/" "") = true.
Proof.
  induction patterns as [|p ps IH]; simpl.
  - split; [discriminate | intros (x & [] & _)].
  - destruct (includes structureStr _) eqn:Hp.
    + split; [intros _; exists p; auto | reflexivity].
    + rewrite IH. split.
      * intros (x & Hin & Hx). exists x. auto.
      * intros (x & [<- | Hin] & Hx); [congruence | exists x; auto].
Qed.

Lemma detected_in_iff (structureStr tech : string) (table : list (string * list string)) :
  In tech (detected_in structureStr table) <->
  exists patterns, In (tech, patterns) table /\
                   some_pattern_found structureStr patterns = true.
Proof.
  induction table as [|[t ps] table IH]; simpl.
  - split; [intros [] | intros (x & [] & _)].
  - destruct (some_pattern_found structureStr ps) eqn:Hps; simpl; rewrite IH.
    + split.
      * intros [<- | (x & Hin & Hx)]; [exists ps; auto | exists x; auto].
      * intros (x & [[= <- <-] | Hin] & Hx); [now left | right; exists x; auto].
    + split.
      * intros (x & Hin & Hx). exists x. auto.
      * intros (x & [[= <- <-] | Hin] & Hx); [congruence | exists x; auto].
Qed.

Lemma existsb_eqb_In (x : string) (seen : list string) :
  existsb (String.eqb x) seen = true <-> In x seen.
Proof.
  rewrite existsb_exists. split.
  - intros (y & Hin & Heq). apply String.eqb_eq in Heq. now subst.
  - intros Hin. exists x. split; [exact Hin | apply String.eqb_refl].
Qed.

Lemma set_from_spec (l seen : list string) :
  (forall x, In x (set_from seen l) <-> In x l /\ ~ In x seen) /\
  List.NoDup (set_from seen l).
Proof.
  revert seen. induction l as [|y l IH]; intros seen; simpl.
  - split; [intros x; tauto | constructor].
  - destruct (existsb (String.eqb y) seen) eqn:Hy.
    + apply existsb_eqb_In in Hy. destruct (IH seen) as [Hin Hnd].
      split; [|exact Hnd].
      intros x. rewrite Hin. split; [tauto|].
      intros [[<- | Hx] Hns]; tauto.
    + assert (Hy' : ~ In y seen).
      { intros Hin. apply existsb_eqb_In in Hin. congruence. }
      destruct (IH (y :: seen)) as [Hin Hnd]. split.
      * intros x. simpl. rewrite Hin. simpl. split.
        -- intros [<- | [Hx Hns]]; [tauto|]. split; [tauto|]. tauto.
        -- intros [[<- | Hx] Hns]; [tauto|].
           destruct (String.eqb_spec y x) as [->|Hne]; [tauto|]. right. tauto.
      * constructor; [|exact Hnd]. rewrite Hin. simpl. tauto.
Qed.

(** On the patterns of the table, what the code strips is what the
    specification strips. *)
Lemma table_patterns_stripped :
  forall tech patterns pattern,
    In (tech, patterns) TECH_PATTERNS -> In pattern patterns ->
    replace (toLowerCase (replace pattern "*." "")) "/" "" = stripped pattern.
Proof.
  assert (H : forallb (fun entry =>
                forallb (fun pattern =>
                  String.eqb (replace (toLowerCase (replace pattern "*." "")) "/" "")
                             (stripped pattern)) (snd entry))
              TECH_PATTERNS = true) by (vm_compute; reflexivity).
  intros tech patterns pattern Ht Hp.
  rewrite forallb_forall in H. specialize (H _ Ht). simpl in H.
  rewrite forallb_forall in H. specialize (H _ Hp).
  now apply String.eqb_eq.
Qed.

Lemma listing_text (listing : list string) :
  join " " (map join_item (map JString listing)) = join " " listing.
Proof. rewrite map_map. simpl. now rewrite map_id. Qed.

(** C5: on a listing of path strings, [detectTechStack] returns exactly
    the technologies of the pattern table one of whose patterns, stripped
    of "*." and "/" and lowercased, occurs in the lowercased, space-joined
    listing, each once; a listing with the entry "Package.JSON" detects
    "Node.js / JavaScript"; and ["go.mod", "main.go"] detects exactly Go. *)
Theorem detectTechStack_spec (listing : list string) :
  (forall tech,
     In tech (detectTechStack (map JString listing)) <-> detected_by_spec listing tech) /\
  List.NoDup (detectTechStack (map JString listing)) /\
  (In "Package.JSON" listing ->
   In "Node.js / JavaScript" (detectTechStack (map JString listing))) /\
  detectTechStack (map JString ["go.mod"; "main.go"]) = ["Go"].
Proof.
  assert (Hiff : forall tech,
    In tech (detectTechStack (map JString listing)) <-> detected_by_spec listing tech).
  { intros tech. unfold detectTechStack, detected_by_spec.
    rewrite listing_text.
    destruct (set_from_spec
                (detected_in (toLowerCase (join " " listing)) TECH_PATTERNS) [])
      as [Hin _].
    rewrite Hin, detected_in_iff. split.
    - intros [(patterns & Ht & Hfound) _].
      apply some_pattern_found_iff in Hfound as (pattern & Hp & Hinc).
      exists patterns, pattern. repeat split; try assumption.
      now rewrite <- (table_patterns_stripped tech patterns pattern).
    - intros (patterns & pattern & Ht & Hp & Hinc). split; [|intros []].
      exists patterns. split; [exact Ht|].
      apply some_pattern_found_iff. exists pattern. split; [exact Hp|].
      now rewrite (table_patterns_stripped tech patterns pattern). }
  split; [exact Hiff|]. split; [|split].
  - unfold detectTechStack. apply set_from_spec.
  - intros Hin. apply Hiff.
    exists ["package.json"; "node_modules"; ".nvmrc"], "package.json".
    split; [left; reflexivity|]. split; [left; reflexivity|].
    apply (entry_in_listing listing "Package.JSON"); [exact Hin | reflexivity].
  - vm_compute. reflexivity.
Qed.

Lemma detectTechStack_spec_witness :
  In "Node.js / JavaScript"
    (detectTechStack (map JString ["src/"; "Package.JSON"; "LICENSE"])).
Proof.
  destruct (detectTechStack_spec ["src/"; "Package.JSON"; "LICENSE"])
    as (_ & _ & H & _).
  apply H. right. left. reflexivity.
Defined.

(** ** The demo session *)

Lemma first_match_is_the_code (prompt : string) :
  message (demo_sendAndWait prompt) = first_match demo_rules prompt.
Proof.
  unfold demo_sendAndWait, demo_rules, first_match, existsb.
  repeat match goal with
         | |- context [includes prompt ?needle] =>
             destruct (includes prompt needle); cbn [orb message]; try reflexivity
         end.
Qed.

(** C10: the demo session answers every prompt, whenever and on whose
    behalf it is asked, with the message the first matching rule of its
    fixed list gives - the text of the empty array when no rule matches;
    it never rejects, and two calls with the same prompt get the same
    message. *)
Theorem demo_session_first_match (prompt : string) :
  (forall origin i,
     reply createDemoSession origin i prompt
     = Resolved {| message := first_match demo_rules prompt |}) /\
  ((forall rule, In rule demo_rules -> existsb (includes prompt) (fst rule) = false) ->
   forall origin i,
     reply createDemoSession origin i prompt = Resolved {| message := "[]" |}) /\
  (forall origin i origin' j,
     reply createDemoSession origin i prompt
     = reply createDemoSession origin' j prompt).
Proof.
  assert (H : forall origin i,
     reply createDemoSession origin i prompt
     = Resolved {| message := first_match demo_rules prompt |}).
  { intros origin i.
    change (reply createDemoSession origin i prompt)
      with (Resolved (demo_sendAndWait prompt)).
    rewrite <- first_match_is_the_code.
    now destruct (demo_sendAndWait prompt). }
  split; [exact H|]. split.
  - intros Hnone origin i. rewrite H. do 2 f_equal.
    revert Hnone. generalize demo_rules as rules.
    induction rules as [|[needles canned] rules IH]; intros Hnone; [reflexivity|].
    pose proof (Hnone (needles, canned) (or_introl eq_refl)) as Hn.
    simpl in Hn. simpl. rewrite Hn.
    apply IH. intros rule Hin. apply Hnone. now right.
  - intros origin i origin' j. now rewrite !H.
Qed.

Lemma demo_session_first_match_witness :
  reply createDemoSession "team-context" 3 "What is the weather like?"
  = Resolved {| message := "[]" |}.
Proof.
  destruct (demo_session_first_match "What is the weather like?") as (_ & H & _).
  apply H. intros rule Hin.
  repeat (destruct Hin as [<- | Hin]; [vm_compute; reflexivity|]).
  destruct Hin.
Defined.

(** ** Running asynchronous code *)

Lemma run_bind {A B} (m : async A) (k : A -> async B) (env : Env) (w : World) :
  (m ≫= k) env w
  = match m env w with
    | (Resolved a, w') => k a env w'
    | (Rejected err, w') => (Rejected err, w')
    end.
Proof. reflexivity. Qed.

Lemma set_calls_same (w : World) : set_calls (calls w ++ []) w = w.
Proof. destruct w. unfold set_calls. simpl. now rewrite app_nil_r. Qed.

Lemma set_calls_twice (w : World) (a b : list call) :
  set_calls (calls (set_calls (calls w ++ a) w) ++ b) (set_calls (calls w ++ a) w)
  = set_calls (calls w ++ a ++ b) w.
Proof. unfold set_calls. simpl. now rewrite app_assoc. Qed.

Section SessionOnly.

Variable stage : string.

Lemma session_only_ret {A} (a : A) : session_only stage (mret a).
Proof.
  intros env w. exists []. simpl. rewrite set_calls_same.
  repeat split; auto.
Qed.

Lemma session_only_settle {A} (o : outcome A) : session_only stage (settle o).
Proof.
  intros env w. exists []. simpl. rewrite set_calls_same.
  repeat split; auto.
Qed.

Lemma session_only_send (session : Session) (prompt : string) :
  stage_of session = stage -> session_only stage (sendAndWait session prompt).
Proof.
  intros <- env w. unfold sendAndWait. eexists. simpl.
  split; [reflexivity|]. split; [repeat constructor|].
  unfold threw. simpl.
  destruct (next_reply session w prompt); [left; repeat constructor | right];
    reflexivity.
Qed.

Lemma session_only_bind {A B} (m : async A) (k : A -> async B) :
  session_only stage m -> (forall a, session_only stage (k a)) ->
  session_only stage (m ≫= k).
Proof.
  intros Hm Hk env w. rewrite run_bind.
  destruct (Hm env w) as (new1 & Hw1 & Ho1 & Ht1).
  destruct (m env w) as [[a|err] w1]; simpl in Hw1, Ht1; subst w1.
  - destruct (Hk a env (set_calls (calls w ++ new1) w)) as (new2 & Hw2 & Ho2 & Ht2).
    exists (new1 ++ new2)%list. rewrite Hw2, set_calls_twice.
    split; [reflexivity|]. split; [now apply Forall_app|].
    destruct Ht1 as [Ht1|Ht1]; [|discriminate].
    destruct Ht2 as [Ht2|Ht2]; [left; now apply Forall_app | now right].
  - exists new1. simpl. repeat split; auto.
Qed.

End SessionOnly.

(** The collectors only talk to the session they are handed. *)
Ltac session_only_steps :=
  repeat first
    [ apply session_only_ret
    | apply session_only_settle
    | apply session_only_send; reflexivity
    | apply session_only_bind; [|intros ?] ].

Lemma analyzeRepository_session_only (stage : string) (session : Session)
  (owner repo : string) :
  session_only stage (analyzeRepository (for_stage stage session) owner repo).
Proof.
  unfold analyzeRepository, getRepoStructure, getKeyDocuments, getRecentPRs,
    getActiveIssues, getDiscussions.
  session_only_steps.
Qed.

Lemma search_each_tech_session_only (stage : string) (session : Session)
  (techs : list string) :
  session_only stage (search_each_tech (for_stage stage session) techs).
Proof.
  induction techs as [|tech rest IH]; simpl.
  - apply session_only_ret.
  - unfold searchDocsForTech. session_only_steps. exact IH.
Qed.

Lemma fetchLearningResources_session_only (stage : string) (session : Session)
  (techs : list string) (repoContext : RepositoryAnalysis) :
  session_only stage
    (fetchLearningResources (for_stage stage session) techs repoContext).
Proof.
  unfold fetchLearningResources, searchArchitectureDocs, searchTutorials.
  apply session_only_bind; [apply search_each_tech_session_only|intros ?].
  session_only_steps.
Qed.

Lemma gatherTeamContext_session_only (stage : string) (session : Session)
  (teamName projectContext : string) :
  session_only stage
    (gatherTeamContext (for_stage stage session) teamName projectContext).
Proof.
  unfold gatherTeamContext, getRecentTeamsActivity, getKeyPeople,
    getUpcomingEvents, getTeamNorms, getEmailInsights, getRelatedDocuments.
  session_only_steps.
Qed.

(** ** The stage runner *)

(** The shape the three collector tasks share: on success one step is
    pushed and the value goes downstream, on failure one error is pushed
    and the default goes downstream; the task itself always resolves. *)
Lemma stage_runner (stage : string) {A} (collector : async A)
  (outcome_of : A -> StepOutcome) (fallback : A) (env : Env) (w : World) :
  session_only stage collector ->
  (forall a, step (outcome_of a) = stage /\ status (outcome_of a) = "success") ->
  exists a c,
    try_catch
      (x ← collector; push_step (outcome_of x);; mret x)
      (fun err => push_error {| error_step := stage; error := err |};; mret fallback)
      env w
    = (Resolved a, extend c w) /\
    stage_record stage (a = fallback) c.
Proof.
  intros Hso Hout.
  destruct (Hso env w) as (new & Hw & Ho & Ht).
  unfold try_catch. rewrite run_bind.
  destruct (collector env w) as [[a|err] w1]; simpl in Hw, Ht; subst w1.
  - exists a, {| added_steps := [outcome_of a]; added_errors := []; added_calls := new |}.
    split.
    + unfold extend, push_step, set_results, set_calls. simpl.
      now rewrite app_nil_r.
    + split; [exact Ho|]. left. exists (outcome_of a).
      destruct (Hout a) as [Hs Hst]. destruct Ht as [Ht|Ht]; [|discriminate].
      repeat split; auto.
  - exists fallback,
      {| added_steps := [];
         added_errors := [{| error_step := stage; error := err |}];
         added_calls := new |}.
    split.
    + unfold extend, push_error, set_results, set_calls. simpl.
      now rewrite app_nil_r.
    + split; [exact Ho|]. right. exists err. repeat split; auto.
Qed.

Lemma repoTask_runs (session : Session) (owner repo : string) (env : Env) (w : World) :
  exists a c,
    repoTask session owner repo env w = (Resolved a, extend c w) /\
    stage_record "repo-analysis" (a = default_analysis owner repo) c.
Proof.
  apply (stage_runner "repo-analysis").
  - apply analyzeRepository_session_only.
  - intros a. split; reflexivity.
Qed.

Lemma docsTask_runs (session : Session) (repoAnalysis : RepositoryAnalysis)
  (env : Env) (w : World) :
  exists a c,
    docsTask session repoAnalysis env w = (Resolved a, extend c w) /\
    stage_record "docs-fetch" (a = default_resources) c.
Proof.
  apply (stage_runner "docs-fetch").
  - apply fetchLearningResources_session_only.
  - intros a. split; reflexivity.
Qed.

Lemma teamTask_runs (session : Session) (owner repo : string)
  (teamName : option string) (env : Env) (w : World) :
  exists a c,
    teamTask session owner repo teamName env w = (Resolved a, extend c w) /\
    stage_record "team-context" (a = default_team_context) c.
Proof.
  apply (stage_runner "team-context").
  - apply gatherTeamContext_session_only.
  - intros a. split; reflexivity.
Qed.

(** ** The parallel phase *)

(** Whatever the completion order, the three chains resolve, and the world
    is extended by the three contributions in that order. *)
Lemma parallel_phase_runs (session : Session) (order : completion_order)
  (options : Options) (env : Env) (w : World) :
  exists ra lr tc cR cD cT cs,
    stage_record "repo-analysis"
      (ra = default_analysis (owner options) (repo options)) cR /\
    stage_record "docs-fetch" (lr = default_resources) cD /\
    stage_record "team-context" (tc = default_team_context) cT /\
    Permutation cs [cR; cD; cT] /\
    parallel_phase session order options env w
    = (Resolved (ra, lr, tc), extend_all cs w).
Proof.
  destruct order; unfold parallel_phase; rewrite !run_bind.
  - destruct (repoTask_runs session (owner options) (repo options) env w)
      as (ra & cR & -> & HR).
    rewrite !run_bind.
    destruct (docsTask_runs session ra env (extend cR w)) as (lr & cD & -> & HD).
    rewrite !run_bind.
    destruct (teamTask_runs session (owner options) (repo options) (teamName options)
                env (extend cD (extend cR w))) as (tc & cT & -> & HT).
    exists ra, lr, tc, cR, cD, cT, [cR; cD; cT].
    split; [exact HR|]. split; [exact HD|]. split; [exact HT|].
    split; reflexivity.
  - destruct (repoTask_runs session (owner options) (repo options) env w)
      as (ra & cR & -> & HR).
    rewrite !run_bind.
    destruct (teamTask_runs session (owner options) (repo options) (teamName options)
                env (extend cR w)) as (tc & cT & -> & HT).
    rewrite !run_bind.
    destruct (docsTask_runs session ra env (extend cT (extend cR w)))
      as (lr & cD & -> & HD).
    exists ra, lr, tc, cR, cD, cT, [cR; cT; cD].
    split; [exact HR|]. split; [exact HD|]. split; [exact HT|].
    split; [|reflexivity]. apply perm_skip, perm_swap.
  - destruct (teamTask_runs session (owner options) (repo options) (teamName options)
                env w) as (tc & cT & -> & HT).
    rewrite !run_bind.
    destruct (repoTask_runs session (owner options) (repo options) env (extend cT w))
      as (ra & cR & -> & HR).
    rewrite !run_bind.
    destruct (docsTask_runs session ra env (extend cR (extend cT w)))
      as (lr & cD & -> & HD).
    exists ra, lr, tc, cR, cD, cT, [cT; cR; cD].
    split; [exact HR|]. split; [exact HD|]. split; [exact HT|].
    split; [|reflexivity].
    transitivity [cR; cT; cD]; [apply perm_swap | apply perm_skip, perm_swap].
Qed.

Lemma extend_all_world (cs : list contribution) (w : World) :
  extend_all cs w
  = {| results := {| steps := steps (results w) ++ all_steps cs;
                     errors := errors (results w) ++ all_errors cs;
                     guide := guide (results w) |};
       calls := calls w ++ all_calls cs;
       clock_reads := clock_reads w;
       fs := fs w |}.
Proof.
  revert w. induction cs as [|c cs IH]; intros w.
  - destruct w as [[]]. unfold extend_all, all_steps, all_errors, all_calls.
    simpl. now rewrite !app_nil_r.
  - change (extend_all (c :: cs) w) with (extend_all cs (extend c w)).
    rewrite IH. unfold extend, all_steps, all_errors, all_calls. simpl.
    now rewrite <- !app_assoc.
Qed.

(** ** The synthesis stage *)

Lemma day_of_timestamp (d : Date) :
  (0 <= year d <= 9999)%Z -> slice0 10 (toISOString d) = ymd d.
Proof.
  intros [Hlo Hhi]. unfold toISOString, iso_year, ymd.
  apply Z.leb_le in Hlo, Hhi. rewrite Hlo, Hhi. reflexivity.
Qed.

(** What [generateOnboardingGuide] does to the world: one call, with the
    synthesis prompt; then, unless something throws, the directory and the
    file. A rejected synthesis leaves every file as it was. *)
Lemma generate_runs (session : Session) (ra : RepositoryAnalysis)
  (lr : list LearningResourceGroup) (tc : TeamContext) (options : Options)
  (env : Env) (w : World) :
  let asked := synthesis_call session w (synthesis_prompt ra lr tc options) in
  let path :=
    path_join (OUTPUT_DIR env)
      (guide_filename (owner options) (repo options)
         (slice0 10 (toISOString (clock env (S (clock_reads w)))))) in
  match generateOnboardingGuide session ra lr tc options env w with
  | (Resolved g, w') =>
      outputPath g = path /\
      threw asked = false /\
      results w' = results w /\
      calls w' = (calls w ++ [asked])%list /\
      dirs (fs w') = {[OUTPUT_DIR env]} ∪ dirs (fs w) /\
      files (fs w') = <[path := content g]> (files (fs w))
  | (Rejected err, w') =>
      results w' = results w /\
      calls w' = (calls w ++ [asked])%list /\
      files (fs w') = files (fs w)
  end.
Proof.
  unfold generateOnboardingGuide, saveGuide, synthesis_call, synthesis_prompt.
  rewrite !run_bind. unfold sendAndWait, threw.
  destruct (next_reply session w _) as [r|err]; [|now repeat split].
  rewrite !run_bind. unfold new_Date at 1. rewrite !run_bind. unfold ask.
  rewrite !run_bind. unfold mkdir.
  destruct (mkdir_error env _ _); [now repeat split|].
  rewrite !run_bind. unfold new_Date. rewrite !run_bind. unfold writeFile.
  destruct (writeFile_error env _ _); [now repeat split|].
  now repeat split.
Qed.

Lemma guideStep_runs (session : Session) (ra : RepositoryAnalysis)
  (lr : list LearningResourceGroup) (tc : TeamContext) (options : Options)
  (env : Env) (w : World) :
  guideStep session ra lr tc options env w
  = match generateOnboardingGuide (for_stage "guide-generation" session)
            ra lr tc (guide_options options) env w with
    | (Resolved g, wg) =>
        (Resolved tt,
         set_results {| steps := steps (results wg) ++ [guide_step g];
                        errors := errors (results wg);
                        guide := Some g |} wg)
    | (Rejected err, wg) =>
        (Resolved tt,
         set_results
           {| steps := steps (results wg);
              errors := errors (results wg)
                        ++ [{| error_step := "guide-generation"; error := err |}];
              guide := guide (results wg) |} wg)
    end.
Proof.
  unfold guideStep, try_catch. rewrite run_bind.
  now destruct (generateOnboardingGuide _ _ _ _ _ env w) as [[g|err] wg].
Qed.

(** ** A run, summed up *)

Lemma flat_map_perm {A B} (f : A -> list B) (l l' : list A) :
  Permutation l l' -> Permutation (flat_map f l) (flat_map f l').
Proof.
  induction 1 as [|x l l' _ IH|x y l|l l' l'' _ IH1 _ IH2]; simpl.
  - reflexivity.
  - now apply Permutation_app_head.
  - rewrite !app_assoc. apply Permutation_app_tail, Permutation_app_comm.
  - now transitivity (flat_map f l').
Qed.

(** Every run resolves.  Its result lists what the three collectors
    contributed, in their completion order, and then what the synthesis
    stage contributed. *)
Lemma run_summary (session : Session) (order : completion_order)
  (options : Options) (env : Env) (w : World) :
  exists ra lr tc cR cD cT cG cs r w',
    runOnboardBot session order options env w = (Resolved r, w') /\
    parallel_phase session order options env (set_results fresh_results w)
    = (Resolved (ra, lr, tc), extend_all cs (set_results fresh_results w)) /\
    stage_record "repo-analysis"
      (ra = default_analysis (owner options) (repo options)) cR /\
    stage_record "docs-fetch" (lr = default_resources) cD /\
    stage_record "team-context" (tc = default_team_context) cT /\
    stage_record "guide-generation" True cG /\
    Permutation cs [cR; cD; cT] /\
    steps r = all_steps (cs ++ [cG]) /\
    errors r = all_errors (cs ++ [cG]) /\
    calls w' = (calls w ++ all_calls (cs ++ [cG]))%list /\
    added_calls cG
    = [synthesis_call (for_stage "guide-generation" session)
         (extend_all cs (set_results fresh_results w))
         (synthesis_prompt ra lr tc (guide_options options))] /\
    match fst (generateOnboardingGuide (for_stage "guide-generation" session)
                 ra lr tc (guide_options options) env
                 (extend_all cs (set_results fresh_results w))) with
    | Resolved g =>
        guide r = Some g /\ added_steps cG = [guide_step g] /\ added_errors cG = []
    | Rejected err =>
        guide r = None /\ added_steps cG = [] /\
        added_errors cG = [{| error_step := "guide-generation"; error := err |}] /\
        files (fs w') = files (fs w)
    end.
Proof.
  destruct (parallel_phase_runs session order options env
              (set_results fresh_results w))
    as (ra & lr & tc & cR & cD & cT & cs & HR & HD & HT & Hperm & Hphase).
  set (w1 := extend_all cs (set_results fresh_results w)) in *.
  pose proof (generate_runs (for_stage "guide-generation" session) ra lr tc
                (guide_options options) env w1) as Hgen.
  pose proof (guideStep_runs session ra lr tc options env w1) as Hstep.
  assert (Hw1 : results w1
                = {| steps := all_steps cs; errors := all_errors cs; guide := None |}
                /\ calls w1 = (calls w ++ all_calls cs)%list /\ fs w1 = fs w).
  { subst w1. rewrite extend_all_world. simpl. auto. }
  destruct Hw1 as (Hres1 & Hcalls1 & Hfs1).
  set (asked := synthesis_call (for_stage "guide-generation" session) w1
                  (synthesis_prompt ra lr tc (guide_options options))) in *.
  assert (Hrun : runOnboardBot session order options env w
                 = match guideStep session ra lr tc options env w1 with
                   | (Resolved _, w2) => (Resolved (results w2), w2)
                   | (Rejected err, w2) => (Rejected err, w2)
                   end).
  { unfold runOnboardBot. rewrite run_bind. unfold new_results at 1.
    rewrite run_bind, Hphase. cbv beta iota. rewrite run_bind.
    destruct (guideStep session ra lr tc options env w1) as [[[]|err] w2];
      reflexivity. }
  rewrite Hstep in Hrun. cbv zeta in Hgen.
  destruct (generateOnboardingGuide (for_stage "guide-generation" session)
              ra lr tc (guide_options options) env w1) as [[g|err] wg] eqn:Hg.
  - destruct Hgen as (_ & Hok & Hres & Hcalls & _ & _).
    exists ra, lr, tc, cR, cD, cT,
      {| added_steps := [guide_step g]; added_errors := []; added_calls := [asked] |},
      cs. eexists. eexists. split; [exact Hrun|].
    split; [exact Hphase|]. split; [exact HR|]. split; [exact HD|]. split; [exact HT|].
    split.
    { split; [now repeat constructor|]. left. exists (guide_step g).
      split; [reflexivity|]. split; [reflexivity|]. split; [reflexivity|].
      split; [reflexivity|]. constructor; [exact Hok | constructor]. }
    split; [exact Hperm|].
    fold w1. rewrite Hg.
    unfold all_steps, all_errors, all_calls. rewrite !flat_map_app. simpl.
    rewrite Hres, Hres1, Hcalls, Hcalls1. simpl. rewrite !app_nil_r, <- app_assoc.
    repeat split; reflexivity.
  - destruct Hgen as (Hres & Hcalls & Hfiles).
    exists ra, lr, tc, cR, cD, cT,
      {| added_steps := [];
         added_errors := [{| error_step := "guide-generation"; error := err |}];
         added_calls := [asked] |},
      cs. eexists. eexists. split; [exact Hrun|].
    split; [exact Hphase|]. split; [exact HR|]. split; [exact HD|]. split; [exact HT|].
    split.
    { split; [now repeat constructor|]. right. exists err.
      split; [reflexivity|]. split; [reflexivity | exact I]. }
    split; [exact Hperm|].
    fold w1. rewrite Hg.
    unfold all_steps, all_errors, all_calls. rewrite !flat_map_app. simpl.
    rewrite Hres, Hres1, Hcalls, Hcalls1, Hfiles, Hfs1. simpl.
    rewrite !app_nil_r, <- app_assoc.
    repeat split; reflexivity.
Qed.

(** ** Paths

    [path.join] leaves a directory of plain segments and a file name
    without slash as they are, with one slash between them. *)

Lemma split_slash_cons (s : string) : exists seg segs, split_slash s = seg :: segs.
Proof.
  induction s as [|c s (seg & segs & IH)]; simpl; [now eexists _, _|].
  destruct (Ascii.eqb c "/"); [now eexists _, _|].
  rewrite IH. now eexists _, _.
Qed.

Lemma split_slash_app (a b : string) :
  split_slash (a +:+ String "/" b) = (split_slash a ++ split_slash b)%list.
Proof.
  induction a as [|c a IH]; [reflexivity|].
  rewrite append_String. simpl. rewrite IH.
  destruct (Ascii.eqb c "/"); [reflexivity|].
  destruct (split_slash_cons a) as (seg & segs & ->). reflexivity.
Qed.

Lemma split_slash_plain (f : string) :
  has_char "/" f = false -> split_slash f = [f].
Proof.
  induction f as [|c f IH]; simpl; [reflexivity|].
  intros H. apply orb_false_iff in H as [Hc Hf].
  rewrite Hc, (IH Hf). reflexivity.
Qed.

Lemma join_cons (sep x y : string) (l : list string) :
  join sep (x :: y :: l) = x +:+ sep +:+ join sep (y :: l).
Proof. reflexivity. Qed.

Lemma join_split_slash (s : string) : join "/" (split_slash s) = s.
Proof.
  induction s as [|c s IH]; [reflexivity|]. simpl.
  destruct (split_slash_cons s) as (seg & segs & E). rewrite E in *.
  destruct (Ascii.eqb_spec c "/") as [->|_].
  - rewrite join_cons, IH. reflexivity.
  - destruct segs as [|seg' segs].
    + unfold join in *. simpl in *. now rewrite IH.
    + rewrite join_cons in *. rewrite append_String. now rewrite IH.
Qed.

Lemma normalize_plain (allow : bool) (segs res : list string) :
  forallb plain_segment segs = true ->
  normalize_segments allow res segs = (rev res ++ segs)%list.
Proof.
  revert res. induction segs as [|seg segs IH]; intros res; simpl.
  - intros _. now rewrite app_nil_r.
  - intros H. apply andb_true_iff in H as [Hseg Hsegs].
    unfold plain_segment in Hseg. apply negb_true_iff in Hseg.
    apply orb_false_iff in Hseg as [Hseg H2]. apply orb_false_iff in Hseg as [H0 H1].
    rewrite H0, H1, H2. simpl. rewrite (IH _ Hsegs). simpl.
    now rewrite <- app_assoc.
Qed.

Lemma join_snoc (sep x f : string) (l : list string) :
  join sep ((x :: l) ++ [f]) = join sep (x :: l) +:+ sep +:+ f.
Proof.
  revert x. induction l as [|y l IH]; intros x; [reflexivity|].
  change ((x :: y :: l) ++ [f])%list with (x :: ((y :: l) ++ [f]))%list.
  change ((y :: l) ++ [f])%list with (y :: (l ++ [f]))%list at 1.
  rewrite join_cons. change (y :: (l ++ [f]))%list with ((y :: l) ++ [f])%list.
  rewrite IH, join_cons. now rewrite !append_assoc3.
Qed.

Lemma ends_with_slash_none (f : string) :
  has_char "/" f = false -> ends_with_slash f = false.
Proof.
  induction f as [|c f IH]; simpl; [reflexivity|].
  intros H. apply orb_false_iff in H as [Hc Hf].
  destruct f; [exact Hc | now apply IH].
Qed.

Lemma ends_with_slash_app (a f : string) :
  f <> "" -> ends_with_slash (a +:+ f) = ends_with_slash f.
Proof.
  intros Hf. induction a as [|c a IH]; [reflexivity|].
  rewrite append_String. simpl.
  destruct (a +:+ f) eqn:E; [|exact IH].
  destruct a; [|discriminate E]. simpl in E. contradiction.
Qed.

Lemma normalize_skips_empty (allow : bool) (res segs : list string) :
  normalize_segments allow res ("" :: segs) = normalize_segments allow res segs.
Proof. reflexivity. Qed.

Lemma prefix_empty (s : string) : String.prefix "" s = true.
Proof. now destruct s. Qed.

Lemma plain_not_empty (seg : string) : plain_segment seg = true -> seg <> "".
Proof. intros H ->. discriminate H. Qed.

(** On a plain directory, joining a plain file name is writing the two
    with a slash between them. *)
Lemma path_join_plain (dir f : string) :
  plain_path dir = true -> plain_segment f = true -> has_char "/" f = false ->
  path_join dir f = dir +:+ "/" +:+ f.
Proof.
  intros Hdir Hf Hslash.
  pose proof (plain_not_empty f Hf) as Hfne.
  assert (Hdne : dir <> "") by (intros ->; discriminate Hdir).
  unfold path_join.
  destruct (String.eqb_spec dir "") as [?|_]; [contradiction|].
  destruct (String.eqb_spec f "") as [?|_]; [contradiction|].
  destruct (String.eqb_spec (dir +:+ "/" +:+ f) "") as [E|_].
  { destruct dir; [contradiction | discriminate E]. }
  unfold path_normalize.
  destruct (String.eqb_spec (dir +:+ "/" +:+ f) "") as [E|_].
  { destruct dir; [contradiction | discriminate E]. }
  assert (Htrail : ends_with_slash (dir +:+ "/" +:+ f) = false).
  { rewrite ends_with_slash_app by discriminate.
    change ("/" +:+ f) with (String "/" f). simpl.
    destruct f; [contradiction|]. now apply ends_with_slash_none. }
  rewrite Htrail.
  assert (Hsegs : split_slash (dir +:+ "/" +:+ f) = (split_slash dir ++ [f])%list).
  { change (dir +:+ "/" +:+ f) with (dir +:+ String "/" f).
    now rewrite split_slash_app, (split_slash_plain f Hslash). }
  rewrite !Hsegs. clear Hsegs.
  pose proof (join_split_slash dir) as Hback.
  unfold plain_path in Hdir.
  destruct (split_slash dir) as [|first rest] eqn:Hsplit; [discriminate Hdir|].
  destruct (String.eqb_spec first "") as [->|Hfirst].
  - destruct rest as [|r0 rs]; [discriminate Hdir|].
    rewrite join_cons, append_empty_l in Hback.
    change ("/" +:+ join "/" (r0 :: rs)) with (String "/" (join "/" (r0 :: rs))) in Hback.
    assert (Habs : String.prefix "/" (dir +:+ "/" +:+ f) = true).
    { rewrite <- Hback, append_String. simpl. apply prefix_empty. }
    rewrite Habs. simpl negb.
    change (("" :: r0 :: rs) ++ [f])%list with ("" :: ((r0 :: rs) ++ [f]))%list.
    rewrite !normalize_skips_empty.
    assert (Hall : forallb plain_segment ((r0 :: rs) ++ [f]) = true).
    { apply forallb_forall. intros x Hx.
      apply in_app_or in Hx as [Hx | [<- | []]]; [|exact Hf].
      rewrite forallb_forall in Hdir. now apply Hdir. }
    rewrite (normalize_plain _ _ _ Hall).
    simpl rev. rewrite app_nil_l, join_snoc.
    destruct (String.eqb_spec (join "/" (r0 :: rs) +:+ "/" +:+ f) "") as [E|_].
    { destruct (join "/" (r0 :: rs)); discriminate E. }
    rewrite append_empty_r, <- Hback. reflexivity.
  - apply andb_true_iff in Hdir as [Hp Hrest].
    assert (Hrel : String.prefix "/" (dir +:+ "/" +:+ f) = false).
    { destruct dir as [|c dir]; [contradiction|].
      rewrite append_String. cbn [String.prefix].
      destruct (ascii_dec "/" c) as [<-|_]; [|reflexivity].
      simpl in Hsplit. injection Hsplit as <- _. contradiction. }
    rewrite Hrel. simpl negb.
    assert (Hall : forallb plain_segment ((first :: rest) ++ [f]) = true).
    { apply forallb_forall. intros x Hx.
      apply in_app_or in Hx as [[<- | Hx] | [<- | []]];
        [exact Hp | | exact Hf].
      rewrite forallb_forall in Hrest. now apply Hrest. }
    rewrite (normalize_plain _ _ _ Hall).
    simpl rev. rewrite app_nil_l, join_snoc, Hback.
    destruct (String.eqb_spec (dir +:+ "/" +:+ f) "") as [E|_].
    { destruct dir; [contradiction | discriminate E]. }
    now rewrite append_empty_l, append_empty_r.
Qed.

Lemma digit_not_slash (n : nat) : Ascii.eqb (digit n) "/" = false.
Proof.
  unfold digit. pose proof (Nat.mod_upper_bound n 10) as H.
  destruct (n mod 10) as [|[|[|[|[|[|[|[|[|[|k]]]]]]]]]]; try reflexivity. lia.
Qed.

Lemma pad2_no_slash (n : nat) : has_char "/" (pad2 n) = false.
Proof. unfold pad2. cbn [has_char]. now rewrite !digit_not_slash. Qed.

Lemma pad4_no_slash (n : nat) : has_char "/" (pad4 n) = false.
Proof.
  unfold pad4, pad3. cbn [has_char]. now rewrite !digit_not_slash, pad2_no_slash.
Qed.

Lemma ymd_no_slash (d : Date) : has_char "/" (ymd d) = false.
Proof.
  unfold ymd. now rewrite !has_char_app, pad4_no_slash, !pad2_no_slash.
Qed.

Lemma guide_filename_plain (owner repo : string) (d : Date) :
  has_char "/" owner = false -> has_char "/" repo = false ->
  plain_segment (guide_filename owner repo (ymd d)) = true /\
  has_char "/" (guide_filename owner repo (ymd d)) = false.
Proof.
  intros Ho Hr. split; [reflexivity|].
  unfold guide_filename. rewrite !has_char_app, Ho, Hr, ymd_no_slash. reflexivity.
Qed.

(** ** What a stage record says *)

Section StageRecord.

Variables (stage : string) (fell_back : Prop) (c : contribution).
Hypothesis Hrec : stage_record stage fell_back c.

Lemma record_names : names c = [stage].
Proof.
  destruct Hrec as [_ [(s & Hs & Hst & _ & He & _) | (err & Hs & He & _)]];
    unfold names; rewrite Hs, He; simpl; congruence.
Qed.

Lemma record_steps (s : StepOutcome) :
  In s (added_steps c) -> step s = stage /\ status s = "success".
Proof.
  destruct Hrec as [_ [(s' & Hs & Hst & Hok & _) | (err & Hs & _)]];
    rewrite Hs; simpl; [|tauto].
  intros [<- | []]. auto.
Qed.

Lemma record_errors (e : ErrorEntry) :
  In e (added_errors c) -> error_step e = stage.
Proof.
  destruct Hrec as [_ [(s' & _ & _ & _ & He & _) | (err & _ & He & _)]];
    rewrite He; simpl; [tauto|].
  intros [<- | []]. reflexivity.
Qed.



End StageRecord.

Section FourStages.

Variables (cR cD cT cG : contribution) (PR PD PT PG : Prop).
Hypothesis HR : stage_record "repo-analysis" PR cR.
Hypothesis HD : stage_record "docs-fetch" PD cD.
Hypothesis HT : stage_record "team-context" PT cT.
Hypothesis HG : stage_record "guide-generation" PG cG.

Variable every : list contribution.
Hypothesis Hevery : Permutation every [cR; cD; cT; cG].

Lemma in_every {A} (f : contribution -> list A) (x : A) :
  In x (flat_map f every) <->
  In x (f cR) \/ In x (f cD) \/ In x (f cT) \/ In x (f cG).
Proof.
  rewrite in_flat_map. split.
  - intros (c & Hc & Hx). apply (Permutation_in _ Hevery) in Hc.
    simpl in Hc. destruct Hc as [<- | [<- | [<- | [<- | []]]]]; tauto.
  - intros H.
    assert (Hin : forall c, In c [cR; cD; cT; cG] -> In c every).
    { intros c. apply Permutation_in. now symmetry. }
    destruct H as [H | [H | [H | H]]]; eexists; (split; [apply Hin|exact H]);
      simpl; tauto.
Qed.

Lemma step_of_every (s : StepOutcome) :
  In s (all_steps every) ->
  status s = "success" /\
  ((step s = "repo-analysis" /\ In s (added_steps cR)) \/
   (step s = "docs-fetch" /\ In s (added_steps cD)) \/
   (step s = "team-context" /\ In s (added_steps cT)) \/
   (step s = "guide-generation" /\ In s (added_steps cG))).
Proof.
  intros Hs. apply in_every in Hs. destruct Hs as [H | [H | [H | H]]].
  - destruct (record_steps _ _ _ HR _ H). tauto.
  - destruct (record_steps _ _ _ HD _ H). tauto.
  - destruct (record_steps _ _ _ HT _ H). tauto.
  - destruct (record_steps _ _ _ HG _ H). tauto.
Qed.

Lemma error_of_every (e : ErrorEntry) :
  In e (all_errors every) ->
  (error_step e = "repo-analysis" /\ In e (added_errors cR)) \/
  (error_step e = "docs-fetch" /\ In e (added_errors cD)) \/
  (error_step e = "team-context" /\ In e (added_errors cT)) \/
  (error_step e = "guide-generation" /\ In e (added_errors cG)).
Proof.
  intros He. apply in_every in He. destruct He as [H | [H | [H | H]]].
  - pose proof (record_errors _ _ _ HR _ H). tauto.
  - pose proof (record_errors _ _ _ HD _ H). tauto.
  - pose proof (record_errors _ _ _ HT _ H). tauto.
  - pose proof (record_errors _ _ _ HG _ H). tauto.
Qed.


Lemma interchange {A} (a x b y : list A) :
  Permutation ((a ++ x) ++ (b ++ y)) ((a ++ b) ++ (x ++ y)).
Proof.
  rewrite <- !app_assoc. apply Permutation_app_head.
  rewrite !app_assoc. apply Permutation_app_tail, Permutation_app_comm.
Qed.

Lemma recorded_names (cs : list contribution) :
  Permutation (map step (all_steps cs) ++ map error_step (all_errors cs))
              (flat_map names cs).
Proof.
  induction cs as [|c cs IH]; simpl; [reflexivity|].
  rewrite !map_app. unfold names at 1.
  etransitivity; [apply interchange|]. now apply Permutation_app_head.
Qed.

(** Each of the four stages is recorded exactly once. *)
Lemma every_recorded :
  Permutation (map step (all_steps every) ++ map error_step (all_errors every))
              stage_names.
Proof.
  etransitivity; [apply recorded_names|].
  etransitivity; [apply (flat_map_perm names _ _ Hevery)|].
  simpl. rewrite (record_names _ _ _ HR), (record_names _ _ _ HD),
    (record_names _ _ _ HT), (record_names _ _ _ HG). reflexivity.
Qed.

End FourStages.




Lemma run_every (cs : list contribution) (cR cD cT cG : contribution) :
  Permutation cs [cR; cD; cT] -> Permutation (cs ++ [cG]) [cR; cD; cT; cG].
Proof.
  intros H. change [cR; cD; cT; cG] with ([cR; cD; cT] ++ [cG])%list.
  now apply Permutation_app_tail.
Qed.

(** ** The orchestrator *)


(** C9: in every result, the guide is present exactly when [steps] holds a
    successful "guide-generation" entry, and absent exactly when [errors]
    holds a "guide-generation" entry; when present, the entry of [steps]
    is the one made from the guide, with its [outputPath]. *)
Theorem guide_iff_step (session : Session) (order : completion_order)
  (options : Options) (env : Env) (w : World) :
  exists r w',
    runOnboardBot session order options env w = (Resolved r, w') /\
    (is_Some (guide r) <->
     exists s, In s (steps r) /\ step s = "guide-generation" /\ status s = "success") /\
    (guide r = None <->
     exists e, In e (errors r) /\ error_step e = "guide-generation") /\
    (forall g, guide r = Some g ->
       In (guide_step g) (steps r) /\
       forall s, In s (steps r) -> step s = "guide-generation" ->
                 metrics s = GuideMetrics (outputPath g) (js_length (content g))).
Proof.
  destruct (run_summary session order options env w)
    as (ra & lr & tc & cR & cD & cT & cG & cs & r & w' & Hrun & _ &
        HR & HD & HT & HG & Hperm & Hsteps & Herrors & _ & _ & Hguide).
  pose proof (run_every _ _ _ _ cG Hperm) as Hevery.
  pose proof (step_of_every cR cD cT cG _ _ _ _ HR HD HT HG _ Hevery) as Hstep.
  pose proof (error_of_every cR cD cT cG _ _ _ _ HR HD HT HG _ Hevery) as Herr.
  pose proof (in_every cR cD cT cG _ Hevery added_steps) as Hins.
  pose proof (in_every cR cD cT cG _ Hevery added_errors) as Hine.
  fold (all_steps (cs ++ [cG])) in Hins. fold (all_errors (cs ++ [cG])) in Hine.
  rewrite <- Hsteps in Hstep, Hins. rewrite <- Herrors in Herr, Hine.
  exists r, w'. split; [exact Hrun|].
  destruct (fst (generateOnboardingGuide _ _ _ _ _ _ _)) as [g|err].
  - destruct Hguide as (Hg & HsG & HeG). rewrite Hg.
    assert (Hthere : In (guide_step g) (steps r)).
    { apply Hins. rewrite HsG. simpl. tauto. }
    split; [|split].
    + split; [|now eexists]. intros _. now exists (guide_step g).
    + split; [discriminate|]. intros (e & He & Hname).
      destruct (Herr e He) as [[E _] | [[E _] | [[E _] | [_ Hin]]]];
        try congruence.
      rewrite HeG in Hin. destruct Hin.
    + intros g' [= <-]. split; [exact Hthere|].
      intros s Hs Hname.
      destruct (Hstep s Hs) as [_ [[E _] | [[E _] | [[E _] | [_ Hin]]]]];
        try congruence.
      rewrite HsG in Hin. destruct Hin as [<- | []]. reflexivity.
  - destruct Hguide as (Hg & HsG & HeG & _). rewrite Hg.
    split; [|split].
    + split; [intros [? [=]]|]. intros (s & Hs & Hname & _).
      destruct (Hstep s Hs) as [_ [[E _] | [[E _] | [[E _] | [_ Hin]]]]];
        try congruence.
      rewrite HsG in Hin. destruct Hin.
    + split; [|reflexivity]. intros _.
      exists {| error_step := "guide-generation"; error := err |}.
      split; [|reflexivity]. apply Hine. rewrite HeG. simpl. tauto.
    + discriminate.
Qed.



(** ** Where the guide is saved *)

(** C8: a successful synthesis for owner [o] and repo [r] returns the path
    [OUTPUT_DIR]/onboarding-[o]-[r]-YYYY-MM-DD.md, the day being the one
    the clock shows when the guide is saved, and the path being joined as
    [path.join] does (for a directory of plain segments and names without
    slash that is the directory, a slash and the file name, letter for
    letter); the output directory exists afterwards; the file holds exactly
    the content of the guide; and a second successful run with the same
    parameters on the same day returns the same path and replaces the file
    by its own content, leaving the other files alone. *)
Theorem guide_saved_by_day
  (session1 session2 : Session)
  (ra1 ra2 : RepositoryAnalysis) (lr1 lr2 : list LearningResourceGroup)
  (tc1 tc2 : TeamContext) (options1 options2 : Options)
  (env1 env2 : Env) (w1 w1' w2 w2' : World) (g1 g2 : Guide) :
  generateOnboardingGuide session1 ra1 lr1 tc1 options1 env1 w1 = (Resolved g1, w1') ->
  generateOnboardingGuide session2 ra2 lr2 tc2 options2 env2 w2 = (Resolved g2, w2') ->
  (0 <= year (clock env1 (S (clock_reads w1))) <= 9999)%Z ->
  (0 <= year (clock env2 (S (clock_reads w2))) <= 9999)%Z ->
  outputPath g1
  = path_join (OUTPUT_DIR env1)
      (guide_filename (owner options1) (repo options1)
         (ymd (clock env1 (S (clock_reads w1))))) /\
  (plain_path (OUTPUT_DIR env1) = true ->
   has_char "/" (owner options1) = false ->
   has_char "/" (repo options1) = false ->
   outputPath g1
   = OUTPUT_DIR env1 +:+ "/" +:+
     guide_filename (owner options1) (repo options1)
       (ymd (clock env1 (S (clock_reads w1))))) /\
  OUTPUT_DIR env1 ∈ dirs (fs w1') /\
  files (fs w1') = <[outputPath g1 := content g1]> (files (fs w1)) /\
  (owner options2 = owner options1 ->
   repo options2 = repo options1 ->
   OUTPUT_DIR env2 = OUTPUT_DIR env1 ->
   ymd (clock env2 (S (clock_reads w2))) = ymd (clock env1 (S (clock_reads w1))) ->
   outputPath g2 = outputPath g1 /\
   files (fs w2') !! outputPath g1 = Some (content g2) /\
   forall path, path <> outputPath g1 ->
                files (fs w2') !! path = files (fs w2) !! path).
Proof.
  intros Hrun1 Hrun2 Hyear1 Hyear2.
  pose proof (generate_runs session1 ra1 lr1 tc1 options1 env1 w1) as H1.
  pose proof (generate_runs session2 ra2 lr2 tc2 options2 env2 w2) as H2.
  rewrite Hrun1 in H1. rewrite Hrun2 in H2. cbv zeta in H1, H2.
  rewrite (day_of_timestamp _ Hyear1) in H1.
  rewrite (day_of_timestamp _ Hyear2) in H2.
  destruct H1 as (Hpath1 & _ & _ & _ & Hdirs1 & Hfiles1).
  destruct H2 as (Hpath2 & _ & _ & _ & _ & Hfiles2).
  split; [exact Hpath1|].
  split.
  { intros Hplain Ho Hr. rewrite Hpath1.
    destruct (guide_filename_plain _ _ (clock env1 (S (clock_reads w1))) Ho Hr)
      as [Hseg Hslash].
    now apply path_join_plain. }
  split; [rewrite Hdirs1; apply elem_of_union_l, elem_of_singleton; reflexivity|].
  split; [now rewrite Hfiles1, Hpath1|].
  intros Ho Hr Hd Hday.
  assert (Hsame : outputPath g2 = outputPath g1).
  { rewrite Hpath1, Hpath2. now rewrite Ho, Hr, Hd, Hday. }
  split; [exact Hsame|]. rewrite Hfiles2, <- Hpath2, Hsame. split.
  - apply lookup_insert_eq.
  - intros path Hne. now apply lookup_insert_ne.
Qed.

(** Two runs on the same day, at noon and in the evening: the second
    finds a file under the path of the first and replaces it. *)
Lemma guide_saved_by_day_witness :
  exists g1 w1' g2 w2',
    generateOnboardingGuide (canned_session "# Welcome")
      (default_analysis "microsoft" "vscode") [] default_team_context
      vscode_options (quiet_env noon) start_world = (Resolved g1, w1') /\
    generateOnboardingGuide (canned_session "# Welcome back")
      (default_analysis "microsoft" "vscode") [] default_team_context
      vscode_options (quiet_env evening)
      (world_with_file "onboarding-guides/onboarding-microsoft-vscode-2026-02-14.md"
         "the guide written at noon")
    = (Resolved g2, w2') /\
    outputPath g1 = "onboarding-guides/onboarding-microsoft-vscode-2026-02-14.md" /\
    outputPath g2 = outputPath g1 /\
    files (fs w2') !! outputPath g1 = Some (content g2).
Proof.
  destruct (generateOnboardingGuide (canned_session "# Welcome")
              (default_analysis "microsoft" "vscode") [] default_team_context
              vscode_options (quiet_env noon) start_world)
    as [[g1|err1] w1'] eqn:E1.
  2:{ exfalso.
      assert (H : is_rejected
                    (fst (generateOnboardingGuide (canned_session "# Welcome")
                            (default_analysis "microsoft" "vscode") []
                            default_team_context vscode_options (quiet_env noon)
                            start_world)) = false) by (vm_compute; reflexivity).
      rewrite E1 in H. discriminate H. }
  destruct (generateOnboardingGuide (canned_session "# Welcome back")
              (default_analysis "microsoft" "vscode") [] default_team_context
              vscode_options (quiet_env evening)
              (world_with_file
                 "onboarding-guides/onboarding-microsoft-vscode-2026-02-14.md"
                 "the guide written at noon"))
    as [[g2|err2] w2'] eqn:E2.
  2:{ exfalso.
      assert (H : is_rejected
                    (fst (generateOnboardingGuide (canned_session "# Welcome back")
                            (default_analysis "microsoft" "vscode") []
                            default_team_context vscode_options (quiet_env evening)
                            (world_with_file
                               "onboarding-guides/onboarding-microsoft-vscode-2026-02-14.md"
                               "the guide written at noon"))) = false)
        by (vm_compute; reflexivity).
      rewrite E2 in H. discriminate H. }
  destruct (guide_saved_by_day _ _ _ _ _ _ _ _ _ _ _ _ _ _ _ _ _ _ E1 E2)
    as (Hpath & _ & _ & _ & Hsecond); [simpl; lia | simpl; lia |].
  destruct Hsecond as (Hsame & Hnow & _); try reflexivity.
  exists g1, w1', g2, w2'.
  split; [reflexivity|]. split; [reflexivity|].
  split; [rewrite Hpath; reflexivity|]. split; [exact Hsame | exact Hnow].
Defined.

(** ** The theorems of the orchestrator, at work *)


Lemma guide_iff_step_witness :
  exists r w',
    runOnboardBot createDemoSession Team_Repo_Docs vscode_options
      (quiet_env noon) start_world = (Resolved r, w') /\
    (is_Some (guide r) <->
     exists s, In s (steps r) /\ step s = "guide-generation" /\ status s = "success") /\
    (guide r = None <->
     exists e, In e (errors r) /\ error_step e = "guide-generation").
Proof.
  destruct (guide_iff_step createDemoSession Team_Repo_Docs vscode_options
              (quiet_env noon) start_world)
    as (r & w' & Hrun & Hsome & Hnone & _).
  exists r, w'. split; [exact Hrun|]. split; [exact Hsome | exact Hnone].
Defined.




(** ** End to end *)

(** The demo session, for microsoft/vscode: four steps, no error, and the
    guide under its dated name. *)
Example demo_run :
  outline (runOnboardBot createDemoSession Repo_Docs_Team vscode_options
             (quiet_env noon) start_world)
  = (["repo-analysis"; "docs-fetch"; "team-context"; "guide-generation"], [],
     Some "onboarding-guides/onboarding-microsoft-vscode-2026-02-14.md").
Proof. vm_compute. reflexivity. Qed.

(** The same with the team collector failing: three steps, one error. *)
Example demo_run_without_team :
  outline (runOnboardBot (failing_session "team-context" 0) Repo_Team_Docs
             vscode_options (quiet_env noon) start_world)
  = (["repo-analysis"; "docs-fetch"; "guide-generation"], ["team-context"],
     Some "onboarding-guides/onboarding-microsoft-vscode-2026-02-14.md").
Proof. vm_compute. reflexivity. Qed.

(** A full disk fails the synthesis stage only. *)
Example demo_run_full_disk :
  outline (runOnboardBot createDemoSession Team_Repo_Docs vscode_options
             full_disk_env start_world)
  = (["team-context"; "repo-analysis"; "docs-fetch"], ["guide-generation"], None).
Proof. vm_compute. reflexivity. Qed.

(** The issue list of the demo session never reaches the analysis: the
    lazy pattern cuts it at the first closing bracket, that of a label
    list, and the statement falls back to the empty array. *)
Example demo_issues_lost :
  match_array demo_issues
  = Some (q "[{~number~: 100, ~title~: ~Implement caching layer~, ~labels~: [~enhancement~, ~performance~]")
  /\ fst (getActiveIssues createDemoSession "microsoft" "vscode"
            (quiet_env noon) start_world) = Resolved [].
Proof. split; vm_compute; reflexivity. Qed.

(** A listing that is not made of strings fails the repository collector
    without any call being thrown. *)
Example listing_of_numbers :
  outline (runOnboardBot (canned_session "[1, 2]") Repo_Docs_Team vscode_options
             (quiet_env noon) start_world)
  = (["docs-fetch"; "team-context"; "guide-generation"], ["repo-analysis"],
     Some "onboarding-guides/onboarding-microsoft-vscode-2026-02-14.md").
Proof. vm_compute. reflexivity. Qed.

Example path_join_examples :
  path_join "./onboarding-guides" "onboarding-a-b-2026-02-14.md"
  = "onboarding-guides/onboarding-a-b-2026-02-14.md" /\
  path_join "/var/guides/" "x.md" = "/var/guides/x.md" /\
  path_join "guides" "../x.md" = "x.md" /\
  plain_path "/var/guides" = true /\
  plain_path "./onboarding-guides" = false.
Proof. repeat split; vm_compute; reflexivity. Qed.

Example toISOString_examples :
  toISOString evening = "2026-02-14T21:30:15.250Z" /\
  slice0 10 (toISOString evening) = "2026-02-14".
Proof. split; vm_compute; reflexivity. Qed.

(* ===================================================================== *)
(** * Part III. Further properties of the code                            *)
(* ===================================================================== *)

(** ** Tech-stack detection *)

Lemma detected_in_sublist (structureStr : string) (table : list (string * list string)) :
  sublist (detected_in structureStr table) (map fst table).
Proof.
  induction table as [|[tech patterns] rest IH]; simpl; [constructor|].
  destruct (some_pattern_found structureStr patterns).
  - now apply sublist_skip.
  - now apply sublist_cons.
Qed.

Lemma set_from_fresh (l seen : list string) :
  List.NoDup l -> (forall x, In x l -> ~ In x seen) -> set_from seen l = l.
Proof.
  revert seen. induction l as [|x l IH]; intros seen Hnd Hfresh; [reflexivity|].
  simpl. inversion Hnd as [|? ? Hx Hl]; subst.
  destruct (existsb (String.eqb x) seen) eqn:Hseen.
  - exfalso. apply existsb_exists in Hseen as (y & Hy & Heq).
    apply String.eqb_eq in Heq as <-. now apply (Hfresh x); [left|].
  - f_equal. apply IH; [exact Hl|].
    intros y Hy [<-|Hin]; [contradiction|].
    now apply (Hfresh y); [right|].
Qed.

Lemma table_keys_distinct : List.NoDup (map fst TECH_PATTERNS).
Proof.
  apply NoDup_ListNoDup, (bool_decide_unpack _). vm_compute. reflexivity.
Qed.

Lemma tech_stack_in_table_order (structure : list json) :
  detectTechStack structure
  = detected_in (toLowerCase (join " " (map join_item structure))) TECH_PATTERNS /\
  sublist (detectTechStack structure) (map fst TECH_PATTERNS) /\
  (length (detectTechStack structure) <= 14)%nat.
Proof.
  assert (Hsub : forall s, sublist (detected_in s TECH_PATTERNS) (map fst TECH_PATTERNS))
    by (intros s; apply detected_in_sublist).
  assert (Heq : detectTechStack structure
                = detected_in (toLowerCase (join " " (map join_item structure)))
                    TECH_PATTERNS).
  { unfold detectTechStack. apply set_from_fresh; [|intros x _ []].
    apply NoDup_ListNoDup.
    apply (sublist_NoDup _ (map fst TECH_PATTERNS)); [|apply Hsub].
    apply NoDup_ListNoDup, table_keys_distinct. }
  split; [exact Heq|]. rewrite Heq. split; [apply Hsub|].
  change 14%nat with (length (map fst TECH_PATTERNS)).
  apply sublist_length, Hsub.
Qed.


(** ** The documentation files asked for *)

(** The test [ARCHITECTURE_FILES.filter] applies to a candidate, on a
    listing of strings. *)
Lemma structure_some_strings (normalizedFile : string) (listing : list string) :
  structure_some normalizedFile (map JString listing)
  = Resolved (existsb (fun s => includes (toLowerCase s) normalizedFile
                                || includes normalizedFile
                                     (replace (toLowerCase s) "/" "")) listing).
Proof.
  induction listing as [|s rest IH]; [reflexivity|]. simpl. rewrite IH.
  now destruct (includes (toLowerCase s) normalizedFile
                || includes normalizedFile (replace (toLowerCase s) "/" "")).
Qed.

Lemma filter_files_strings (candidates listing : list string) :
  exists found, filter_files candidates (map JString listing) = Resolved found /\
                sublist found candidates /\
                (In "" listing -> found = candidates) /\
                (listing = [] -> found = []).
Proof.
  induction candidates as [|f rest (found & IH & Hsub & Hall & Hnone)].
  - exists []. now repeat split.
  - simpl. rewrite structure_some_strings, IH.
    destruct (existsb _ listing) eqn:Hkeep.
    + exists (f :: found). split; [reflexivity|]. split; [now apply sublist_skip|].
      split; [intros H; now rewrite Hall | intros ->; discriminate Hkeep].
    + exists found. split; [reflexivity|]. split; [now apply sublist_cons|].
      split; [|exact Hnone]. intros Hin. exfalso.
      apply not_true_iff_false in Hkeep. apply Hkeep, existsb_exists.
      exists "". split; [exact Hin|]. apply orb_true_iff. right.
      now destruct (replace (toLowerCase f) "/" "").
Qed.

(** X2: on a listing of strings the documentation call always has files to
    ask for: between one and twenty of the candidates, in the order of the
    table, "README.md" alone when the listing is empty; an empty entry
    makes every candidate match, and the cut at twenty then drops the last
    two of the twenty-two. *)
Theorem docs_to_fetch_shape (listing : list string) :
  exists docsToFetch,
    docs_to_fetch (map JString listing) = Resolved docsToFetch /\
    docsToFetch <> [] /\
    (length docsToFetch <= MAX_FILES_TO_ANALYZE)%nat /\
    sublist docsToFetch ARCHITECTURE_FILES /\
    (listing = [] -> docsToFetch = ["README.md"]) /\
    (In "" listing -> docsToFetch = take 20 ARCHITECTURE_FILES).
Proof.
  destruct (filter_files_strings ARCHITECTURE_FILES listing)
    as (found & Hfound & Hsub & Hall & Hnone).
  unfold docs_to_fetch. rewrite Hfound.
  destruct (take MAX_FILES_TO_ANALYZE found) as [|f d] eqn:Htake.
  - exists ["README.md"]. split; [reflexivity|]. split; [discriminate|].
    split; [unfold MAX_FILES_TO_ANALYZE; simpl; lia|].
    split; [apply sublist_skip, sublist_nil_l|]. split; [reflexivity|].
    intros Hin. rewrite (Hall Hin) in Htake. discriminate Htake.
  - exists (f :: d). split; [reflexivity|]. split; [discriminate|].
    rewrite <- Htake. split; [rewrite length_take; lia|].
    split; [etransitivity; [apply sublist_take | exact Hsub]|].
    split; [intros Hl; now rewrite (Hnone Hl) in Htake|].
    intros Hin. now rewrite (Hall Hin).
Qed.

(** ** The shape of the team norms *)

(** X3: whatever the session answers to the norms prompt, the norms are an
    object: the parsed brace group or the default norms, the latter
    whenever the answer holds no brace group. *)
Theorem getTeamNorms_is_object (session : Session) (teamName : string)
  (env : Env) (w : World) (r : response) :
  next_reply session w (getTeamNorms_prompt teamName) = Resolved r ->
  exists members,
    fst (getTeamNorms session teamName env w) = Resolved (JObject members) /\
    (match_object (message r) = None -> JObject members = getDefaultNorms).
Proof.
  intros Hr. rewrite (norms_call_result _ _ _ _ _ Hr). unfold norms_from.
  destruct (match_object (message r)) as [m|] eqn:Hm.
  - destruct (match_object_piece _ _ Hm) as (pre & body & post & _ & ->).
    destruct (JSON_parse (String "{" body)) as [v|err] eqn:Hv; simpl.
    + destruct (parse_brace_is_object _ _ Hv) as [members ->].
      exists members. split; [reflexivity | discriminate].
    + eexists. split; [reflexivity | discriminate].
  - eexists. split; reflexivity.
Qed.

Lemma getTeamNorms_is_object_witness :
  exists members,
    fst (getTeamNorms (canned_session "We have no written norms yet.") "platform"
           (quiet_env noon) start_world) = Resolved (JObject members) /\
    JObject members = getDefaultNorms.
Proof.
  destruct (getTeamNorms_is_object (canned_session "We have no written norms yet.")
              "platform" (quiet_env noon) start_world
              {| message := "We have no written norms yet." |} eq_refl)
    as (members & Hrun & Hdefault).
  exists members. split; [exact Hrun | apply Hdefault; reflexivity].
Defined.

(** ** The calls of the collectors *)

Lemma send_bind {B} (session : Session) (prompt : string) (k : response -> async B)
  (env : Env) (w : World) :
  (sendAndWait session prompt ≫= k) env w
  = match next_reply session w prompt with
    | Resolved r =>
        k r env (set_calls (calls w ++ [made session prompt (Resolved r)]) w)
    | Rejected err =>
        (Rejected err, set_calls (calls w ++ [made session prompt (Rejected err)]) w)
    end.
Proof.
  rewrite run_bind. unfold sendAndWait, made.
  now destruct (next_reply session w prompt).
Qed.

(** An array-shape call within a collector: one call, and a value for the
    rest of the collector unless the call itself was rejected. *)
Lemma array_call_bind {B} (session : Session) (prompt : string)
  (on_error : list json) (k : list json -> async B) (env : Env) (w : World) :
  ((response ← sendAndWait session prompt;
    settle (array_from (message response) on_error)) ≫= k) env w
  = match next_reply session w prompt with
    | Resolved r =>
        match array_from (message r) on_error with
        | Resolved items =>
            k items env (set_calls (calls w ++ [made session prompt (Resolved r)]) w)
        | Rejected err =>
            (Rejected err,
             set_calls (calls w ++ [made session prompt (Resolved r)]) w)
        end
    | Rejected err =>
        (Rejected err, set_calls (calls w ++ [made session prompt (Rejected err)]) w)
    end.
Proof.
  rewrite run_bind, send_bind.
  destruct (next_reply session w prompt) as [r|err]; [|reflexivity].
  unfold settle. now destruct (array_from (message r) on_error).
Qed.

Lemma set_calls_app (w : World) (a b : list call) :
  set_calls (calls (set_calls (calls w ++ a) w) ++ b) (set_calls (calls w ++ a) w)
  = set_calls (calls w ++ (a ++ b)) w.
Proof. apply set_calls_twice. Qed.

Lemma set_calls_calls (w : World) (cs : list call) : calls (set_calls cs w) = cs.
Proof. reflexivity. Qed.

Lemma stopped_at_once (err : string) (k : call) :
  answer k = Rejected err -> stopped_by err [k].
Proof. intros H. exists [], k. now repeat split. Qed.

Lemma stopped_later (err : string) (k : call) (new : list call) :
  threw k = false -> stopped_by err new -> stopped_by err (k :: new).
Proof.
  intros Hk (before & k' & -> & Hans & Hbefore).
  exists (k :: before), k'. repeat split; auto.
Qed.


(** One array-shape call of a collector, taken on its two branches; the
    statement after the call never throws. *)
Ltac array_call r err Hreply :=
  rewrite array_call_bind;
  match goal with
  | |- context [next_reply ?s ?w ?p] =>
      destruct (next_reply s w p) as [r|err] eqn:Hreply;
      [ let items := fresh "items" in
        let Hitems := fresh "Hitems" in
        match goal with
        | |- context [array_from (message r) ?on_error] =>
            destruct (array_from_total (message r) on_error) as [items Hitems];
            rewrite Hitems
        end
      | ]
  end.



Lemma stopped_after (err : string) (before new : list call) :
  Forall (fun k => threw k = false) before -> stopped_by err new ->
  stopped_by err (before ++ new).
Proof.
  intros Hb (before' & k & -> & Hans & Hbefore').
  exists (before ++ before')%list, k. rewrite app_assoc.
  repeat split; auto. now apply Forall_app.
Qed.

Lemma search_each_tech_calls (session : Session) (techs : list string)
  (env : Env) (w : World) :
  exists new,
    snd (search_each_tech session techs env w) = set_calls (calls w ++ new) w /\
    Forall (fun k => origin k = stage_of session) new /\
    match fst (search_each_tech session techs env w) with
    | Resolved groups =>
        map technology groups = techs /\
        map prompt new = map searchDocsForTech_prompt techs /\
        Forall (fun k => threw k = false) new
    | Rejected err =>
        map prompt new `prefix_of` map searchDocsForTech_prompt techs /\
        stopped_by err new
    end.
Proof.
  revert w. induction techs as [|tech rest IH]; intros w.
  - exists []. simpl. rewrite set_calls_same. now repeat split.
  - simpl. unfold searchDocsForTech. cbv zeta.
    array_call r e Hr.
    2:{ eexists. split; [reflexivity|]. split; [repeat constructor|].
        split; [apply prefix_cons, prefix_nil|]. now apply stopped_at_once. }
    rewrite run_bind.
    destruct (IH (set_calls (calls w ++ [made session (searchDocsForTech_prompt tech)
                                            (Resolved r)]) w))
      as (new & Hw & Ho & Hres).
    destruct (search_each_tech session rest env _) as [[groups|err] w'];
      cbn [fst snd] in Hw, Hres; subst w'; rewrite set_calls_app.
    + eexists. split; [reflexivity|]. split; [now constructor|].
      destruct Hres as (Hg & Hp & Ht). simpl. rewrite Hg, Hp.
      repeat split. now constructor.
    + eexists. split; [reflexivity|]. split; [now constructor|].
      destruct Hres as (Hpre & Hstop). split; [now apply prefix_cons|].
      now apply stopped_later.
Qed.

Lemma fetchLearningResources_script (session : Session) (techs : list string)
  (repoContext : RepositoryAnalysis) (env : Env) (w : World) :
  exists new,
    snd (fetchLearningResources session techs repoContext env w)
    = set_calls (calls w ++ new) w /\
    Forall (fun k => origin k = stage_of session) new /\
    match fst (fetchLearningResources session techs repoContext env w) with
    | Resolved groups =>
        map technology groups
        = (techs ++ ["Architecture & Best Practices"; "Getting Started Tutorials"])%list /\
        map prompt new
        = (map searchDocsForTech_prompt techs
           ++ [ searchArchitectureDocs_prompt (join ", " (techStack repoContext));
                searchTutorials_prompt (join " and " (take 3 techs)) ])%list /\
        Forall (fun k => threw k = false) new
    | Rejected err =>
        map prompt new
        `prefix_of`
        (map searchDocsForTech_prompt techs
         ++ [ searchArchitectureDocs_prompt (join ", " (techStack repoContext));
              searchTutorials_prompt (join " and " (take 3 techs)) ])%list /\
        stopped_by err new
    end.
Proof.
  unfold fetchLearningResources. rewrite run_bind.
  destruct (search_each_tech_calls session techs env w) as (new & Hw & Ho & Hres).
  destruct (search_each_tech session techs env w) as [[groups|err] w'];
    cbn [fst snd] in Hw, Hres; subst w'.
  2:{ exists new. split; [reflexivity|]. split; [exact Ho|].
      destruct Hres as [Hpre Hstop].
      split; [now apply prefix_app_r | exact Hstop]. }
  destruct Hres as (Hg & Hp & Ht).
  unfold searchArchitectureDocs, searchTutorials. cbv zeta.
  array_call r1 e1 H1.
  2:{ rewrite set_calls_app. eexists. split; [reflexivity|].
      split; [apply Forall_app; split; [exact Ho | repeat constructor]|].
      split; [rewrite map_app, Hp; apply prefix_app, prefix_cons, prefix_nil|].
      apply stopped_after; [exact Ht | now apply stopped_at_once]. }
  array_call r2 e2 H2.
  2:{ rewrite !set_calls_app. eexists. split; [reflexivity|].
      split; [apply Forall_app; split; [exact Ho | repeat constructor]|].
      split; [rewrite map_app, Hp; apply prefix_app; reflexivity|].
      apply stopped_after; [exact Ht|].
      apply stopped_later; [reflexivity | now apply stopped_at_once]. }
  rewrite !set_calls_app. eexists. split; [reflexivity|].
  split; [apply Forall_app; split; [exact Ho | repeat constructor]|].
  simpl. rewrite !map_app, Hg, Hp. repeat split.
  apply Forall_app; split; [exact Ht | repeat constructor].
Qed.

(** X5: the documentation collector searches once for each technology, in
    order, then for architecture guides and for tutorials; when it
    resolves it has made these calls and no other, none was rejected, and
    its groups are the technologies followed by the two fixed headings.
    It is rejected only by a rejected call, which is then its last. *)
Theorem fetchLearningResources_calls (session : Session) (techs : list string)
  (repoContext : RepositoryAnalysis) (env : Env) (w : World) :
  exists new,
    snd (fetchLearningResources session techs repoContext env w)
    = set_calls (calls w ++ new) w /\
    Forall (fun k => origin k = stage_of session) new /\
    match fst (fetchLearningResources session techs repoContext env w) with
    | Resolved groups =>
        map technology groups
        = (techs ++ ["Architecture & Best Practices"; "Getting Started Tutorials"])%list /\
        map prompt new
        = (map searchDocsForTech_prompt techs
           ++ [ searchArchitectureDocs_prompt (join ", " (techStack repoContext));
                searchTutorials_prompt (join " and " (take 3 techs)) ])%list /\
        Forall (fun k => threw k = false) new
    | Rejected err =>
        map prompt new
        `prefix_of`
        (map searchDocsForTech_prompt techs
         ++ [ searchArchitectureDocs_prompt (join ", " (techStack repoContext));
              searchTutorials_prompt (join " and " (take 3 techs)) ])%list /\
        stopped_by err new
    end.
Proof. apply fetchLearningResources_script. Qed.

Lemma norms_from_object (message : string) :
  exists members, norms_from message = Resolved (JObject members).
Proof.
  unfold norms_from.
  destruct (match_object message) as [m|] eqn:Hm; [|now eexists].
  destruct (match_object_piece _ _ Hm) as (pre & body & post & _ & ->).
  destruct (JSON_parse (String "{" body)) as [v|err] eqn:Hv; simpl; [|now eexists].
  destruct (parse_brace_is_object _ _ Hv) as [members ->]. now exists members.
Qed.

Lemma norms_call_bind {B} (session : Session) (teamName : string)
  (k : json -> async B) (env : Env) (w : World) :
  (getTeamNorms session teamName ≫= k) env w
  = match next_reply session w (getTeamNorms_prompt teamName) with
    | Resolved r =>
        match norms_from (message r) with
        | Resolved norms =>
            k norms env
              (set_calls (calls w ++ [made session (getTeamNorms_prompt teamName)
                                        (Resolved r)]) w)
        | Rejected err =>
            (Rejected err,
             set_calls (calls w ++ [made session (getTeamNorms_prompt teamName)
                                      (Resolved r)]) w)
        end
    | Rejected err =>
        (Rejected err,
         set_calls (calls w ++ [made session (getTeamNorms_prompt teamName)
                                  (Rejected err)]) w)
    end.
Proof.
  unfold getTeamNorms. cbv zeta. rewrite run_bind, send_bind.
  destruct (next_reply session w _) as [r|err]; [|reflexivity].
  unfold settle. now destruct (norms_from (message r)).
Qed.

Lemma gatherTeamContext_script (session : Session) (teamName projectContext : string)
  (env : Env) (w : World) :
  exists new,
    snd (gatherTeamContext session teamName projectContext env w)
    = set_calls (calls w ++ new) w /\
    Forall (fun k => origin k = stage_of session) new /\
    match fst (gatherTeamContext session teamName projectContext env w) with
    | Resolved context =>
        map prompt new
        = [ getRecentTeamsActivity_prompt teamName;
            getKeyPeople_prompt teamName projectContext;
            getUpcomingEvents_prompt teamName;
            getTeamNorms_prompt teamName;
            getEmailInsights_prompt teamName projectContext;
            getRelatedDocuments_prompt teamName projectContext ] /\
        Forall (fun k => threw k = false) new /\
        exists members, teamNorms context = JObject members
    | Rejected err =>
        map prompt new
        `prefix_of`
        [ getRecentTeamsActivity_prompt teamName;
          getKeyPeople_prompt teamName projectContext;
          getUpcomingEvents_prompt teamName;
          getTeamNorms_prompt teamName;
          getEmailInsights_prompt teamName projectContext;
          getRelatedDocuments_prompt teamName projectContext ] /\
        stopped_by err new
    end.
Proof.
  unfold gatherTeamContext, getRecentTeamsActivity, getKeyPeople, getUpcomingEvents,
    getEmailInsights, getRelatedDocuments. cbv zeta.
  array_call r1 e1 H1.
  2:{ eexists. split; [reflexivity|]. split; [repeat constructor|].
      split; [simpl; repeat apply prefix_cons; apply prefix_nil|].
      now apply stopped_at_once. }
  array_call r2 e2 H2.
  2:{ rewrite !set_calls_app. eexists. split; [reflexivity|].
      split; [repeat constructor|]. split; [simpl; repeat apply prefix_cons; apply prefix_nil|].
      do 1 (apply stopped_later; [reflexivity|]). now apply stopped_at_once. }
  array_call r3 e3 H3.
  2:{ rewrite !set_calls_app. eexists. split; [reflexivity|].
      split; [repeat constructor|]. split; [simpl; repeat apply prefix_cons; apply prefix_nil|].
      do 2 (apply stopped_later; [reflexivity|]). now apply stopped_at_once. }
  rewrite norms_call_bind.
  destruct (next_reply session _ (getTeamNorms_prompt teamName)) as [r4|e4] eqn:H4.
  2:{ rewrite !set_calls_app. eexists. split; [reflexivity|].
      split; [repeat constructor|]. split; [simpl; repeat apply prefix_cons; apply prefix_nil|].
      do 3 (apply stopped_later; [reflexivity|]). now apply stopped_at_once. }
  destruct (norms_from_object (message r4)) as [members Hnorms]. rewrite Hnorms.
  array_call r5 e5 H5.
  2:{ rewrite !set_calls_app. eexists. split; [reflexivity|].
      split; [repeat constructor|]. split; [simpl; repeat apply prefix_cons; apply prefix_nil|].
      do 4 (apply stopped_later; [reflexivity|]). now apply stopped_at_once. }
  array_call r6 e6 H6.
  2:{ rewrite !set_calls_app. eexists. split; [reflexivity|].
      split; [repeat constructor|]. split; [simpl; repeat apply prefix_cons; apply prefix_nil|].
      do 5 (apply stopped_later; [reflexivity|]). now apply stopped_at_once. }
  rewrite !set_calls_app. eexists. split; [reflexivity|].
  split; [repeat constructor|]. simpl.
  split; [reflexivity|]. split; [repeat constructor|]. now exists members.
Qed.

(** X6: the team collector makes its six calls in order and resolves,
    whatever the answers say; only a rejected call rejects it, and that
    call is then its last.  The norms it returns are an object. *)
Theorem gatherTeamContext_calls (session : Session) (teamName projectContext : string)
  (env : Env) (w : World) :
  exists new,
    snd (gatherTeamContext session teamName projectContext env w)
    = set_calls (calls w ++ new) w /\
    Forall (fun k => origin k = stage_of session) new /\
    match fst (gatherTeamContext session teamName projectContext env w) with
    | Resolved context =>
        map prompt new
        = [ getRecentTeamsActivity_prompt teamName;
            getKeyPeople_prompt teamName projectContext;
            getUpcomingEvents_prompt teamName;
            getTeamNorms_prompt teamName;
            getEmailInsights_prompt teamName projectContext;
            getRelatedDocuments_prompt teamName projectContext ] /\
        Forall (fun k => threw k = false) new /\
        exists members, teamNorms context = JObject members
    | Rejected err =>
        map prompt new
        `prefix_of`
        [ getRecentTeamsActivity_prompt teamName;
          getKeyPeople_prompt teamName projectContext;
          getUpcomingEvents_prompt teamName;
          getTeamNorms_prompt teamName;
          getEmailInsights_prompt teamName projectContext;
          getRelatedDocuments_prompt teamName projectContext ] /\
        stopped_by err new
    end.
Proof. apply gatherTeamContext_script. Qed.

(** ** A listing that is not made of strings *)


Lemma since_app (w : World) (new : list call) (w' : World) :
  calls w' = (calls w ++ new)%list -> since w w' = new.
Proof. intros H. unfold since. rewrite H. apply drop_app_length. Qed.





(** ** The synthesis stage, step by step *)

(** [generateOnboardingGuide], unfolded along its three fallible steps. *)
Lemma generate_steps (session : Session) (ra : RepositoryAnalysis)
  (lr : list LearningResourceGroup) (tc : TeamContext) (options : Options)
  (env : Env) (w : World) :
  let text := synthesis_prompt ra lr tc options in
  let asked a := set_calls (calls w ++ [made session text a]) w in
  generateOnboardingGuide session ra lr tc options env w
  = match next_reply session w text with
    | Rejected err => (Rejected err, asked (Rejected err))
    | Resolved r =>
        let w1 := set_clock_reads (S (clock_reads w)) (asked (Resolved r)) in
        let guideContent :=
          addGuideHeader (message r) (owner options) (repo options)
            (default "New Team Member" (newHireName options))
            (toISOString (clock env (clock_reads w))) (techStack ra) in
        match mkdir_error env (OUTPUT_DIR env) (fs w) with
        | Some err => (Rejected err, w1)
        | None =>
            let made_dir :=
              {| dirs := {[OUTPUT_DIR env]} ∪ dirs (fs w); files := files (fs w) |} in
            let w2 := set_clock_reads (S (S (clock_reads w))) (set_fs made_dir w1) in
            let outputPath :=
              path_join (OUTPUT_DIR env)
                (guide_filename (owner options) (repo options)
                   (slice0 10 (toISOString (clock env (S (clock_reads w)))))) in
            match writeFile_error env outputPath made_dir with
            | Some err => (Rejected err, w2)
            | None =>
                (Resolved {| content := guideContent; outputPath := outputPath |},
                 set_fs {| dirs := dirs made_dir;
                           files := <[outputPath := guideContent]> (files made_dir) |}
                   w2)
            end
        end
    end.
Proof.
  cbv zeta. unfold generateOnboardingGuide, saveGuide, synthesis_prompt.
  rewrite !run_bind. unfold sendAndWait, made.
  destruct (next_reply session w _) as [r|err]; [|reflexivity].
  rewrite !run_bind. unfold new_Date at 1. rewrite !run_bind. unfold ask.
  rewrite !run_bind. unfold mkdir.
  cbn [fs set_calls set_clock_reads clock_reads].
  destruct (mkdir_error env _ _); [reflexivity|].
  rewrite !run_bind. unfold new_Date. rewrite !run_bind. unfold writeFile.
  cbn [fs set_calls set_clock_reads set_fs clock_reads].
  now destruct (writeFile_error env _ _).
Qed.

(** X8: the content of a guide is the answer of the session to the
    synthesis prompt, unchanged, behind the metadata header; the header is
    stamped with one reading of the clock and the file is named after the
    next one. *)
Theorem guide_is_header_and_answer (session : Session) (ra : RepositoryAnalysis)
  (lr : list LearningResourceGroup) (tc : TeamContext) (options : Options)
  (env : Env) (w w' : World) (g : Guide) :
  generateOnboardingGuide session ra lr tc options env w = (Resolved g, w') ->
  exists r,
    next_reply session w (synthesis_prompt ra lr tc options) = Resolved r /\
    content g
    = guide_header (owner options) (repo options)
        (default "New Team Member" (newHireName options))
        (toISOString (clock env (clock_reads w))) (techStack ra)
      +:+ message r /\
    outputPath g
    = path_join (OUTPUT_DIR env)
        (guide_filename (owner options) (repo options)
           (slice0 10 (toISOString (clock env (S (clock_reads w)))))) /\
    clock_reads w' = S (S (clock_reads w)).
Proof.
  rewrite generate_steps. cbv zeta.
  destruct (next_reply session w _) as [r|err]; [|discriminate].
  destruct (mkdir_error env _ _); [discriminate|].
  destruct (writeFile_error env _ _); [discriminate|].
  intros [= <- <-]. exists r. now repeat split.
Qed.

Lemma guide_is_header_and_answer_witness :
  exists g w',
    generateOnboardingGuide (canned_session "# Welcome")
      (default_analysis "microsoft" "vscode") [] default_team_context
      vscode_options (quiet_env noon) start_world = (Resolved g, w') /\
    content g
    = guide_header "microsoft" "vscode" "Ada" "2026-02-14T12:00:00.000Z" []
      +:+ "# Welcome" /\
    clock_reads w' = 2%nat.
Proof.
  destruct (generateOnboardingGuide (canned_session "# Welcome")
              (default_analysis "microsoft" "vscode") [] default_team_context
              vscode_options (quiet_env noon) start_world)
    as [[g|err] w'] eqn:E.
  2:{ exfalso.
      assert (H : is_rejected
                    (fst (generateOnboardingGuide (canned_session "# Welcome")
                            (default_analysis "microsoft" "vscode") []
                            default_team_context vscode_options (quiet_env noon)
                            start_world)) = false) by (vm_compute; reflexivity).
      rewrite E in H. discriminate H. }
  destruct (guide_is_header_and_answer _ _ _ _ _ _ _ _ _ E)
    as (r & Hr & Hcontent & _ & Hclock).
  exists g, w'. split; [reflexivity|]. split; [|exact Hclock].
  rewrite Hcontent. injection Hr as <-. reflexivity.
Defined.



(** ** The anatomy of a run *)

(** The parallel phase, with the run of each task kept. *)
Lemma parallel_phase_anatomy (session : Session) (order : completion_order)
  (options : Options) (env : Env) (w : World) :
  exists ra lr tc cR cD cT wR wD wT cs,
    repoTask session (owner options) (repo options) env wR
    = (Resolved ra, extend cR wR) /\
    docsTask session ra env wD = (Resolved lr, extend cD wD) /\
    teamTask session (owner options) (repo options) (teamName options) env wT
    = (Resolved tc, extend cT wT) /\
    stage_record "repo-analysis"
      (ra = default_analysis (owner options) (repo options)) cR /\
    stage_record "docs-fetch" (lr = default_resources) cD /\
    stage_record "team-context" (tc = default_team_context) cT /\
    completion_orders cR cD cT cs /\
    parallel_phase session order options env w
    = (Resolved (ra, lr, tc), extend_all cs w).
Proof.
  destruct order; unfold parallel_phase; rewrite !run_bind.
  - destruct (repoTask_runs session (owner options) (repo options) env w)
      as (ra & cR & ER & HR).
    rewrite ER, !run_bind.
    destruct (docsTask_runs session ra env (extend cR w)) as (lr & cD & ED & HD).
    rewrite ED, !run_bind.
    destruct (teamTask_runs session (owner options) (repo options) (teamName options)
                env (extend cD (extend cR w))) as (tc & cT & ET & HT).
    rewrite ET.
    exists ra, lr, tc, cR, cD, cT, w, (extend cR w), (extend cD (extend cR w)),
      [cR; cD; cT].
    repeat (split; [assumption|]). split; [now left | reflexivity].
  - destruct (repoTask_runs session (owner options) (repo options) env w)
      as (ra & cR & ER & HR).
    rewrite ER, !run_bind.
    destruct (teamTask_runs session (owner options) (repo options) (teamName options)
                env (extend cR w)) as (tc & cT & ET & HT).
    rewrite ET, !run_bind.
    destruct (docsTask_runs session ra env (extend cT (extend cR w)))
      as (lr & cD & ED & HD).
    rewrite ED.
    exists ra, lr, tc, cR, cD, cT, w, (extend cT (extend cR w)), (extend cR w),
      [cR; cT; cD].
    repeat (split; [assumption|]). split; [now right; left | reflexivity].
  - destruct (teamTask_runs session (owner options) (repo options) (teamName options)
                env w) as (tc & cT & ET & HT).
    rewrite ET, !run_bind.
    destruct (repoTask_runs session (owner options) (repo options) env (extend cT w))
      as (ra & cR & ER & HR).
    rewrite ER, !run_bind.
    destruct (docsTask_runs session ra env (extend cR (extend cT w)))
      as (lr & cD & ED & HD).
    rewrite ED.
    exists ra, lr, tc, cR, cD, cT, (extend cT w), (extend cR (extend cT w)), w,
      [cT; cR; cD].
    repeat (split; [assumption|]). split; [now right; right | reflexivity].
Qed.

Lemma extend_all_same (cs cs' : list contribution) (w : World) :
  extend_all cs w = extend_all cs' w ->
  all_steps cs = all_steps cs' /\ all_errors cs = all_errors cs' /\
  all_calls cs = all_calls cs'.
Proof.
  rewrite !extend_all_world. intros [= Hs He Hc].
  apply app_inv_head in Hs, He, Hc. auto.
Qed.

(** Every run resolves; its result and its transcript are made of what the
    three collector tasks and the synthesis stage contributed. *)
Lemma run_anatomy (session : Session) (order : completion_order)
  (options : Options) (env : Env) (w : World) :
  exists ra lr tc cR cD cT cG wR wD wT cs r w',
    runOnboardBot session order options env w = (Resolved r, w') /\
    repoTask session (owner options) (repo options) env wR
    = (Resolved ra, extend cR wR) /\
    docsTask session ra env wD = (Resolved lr, extend cD wD) /\
    teamTask session (owner options) (repo options) (teamName options) env wT
    = (Resolved tc, extend cT wT) /\
    stage_record "repo-analysis"
      (ra = default_analysis (owner options) (repo options)) cR /\
    stage_record "docs-fetch" (lr = default_resources) cD /\
    stage_record "team-context" (tc = default_team_context) cT /\
    stage_record "guide-generation" True cG /\
    completion_orders cR cD cT cs /\
    steps r = (all_steps cs ++ added_steps cG)%list /\
    errors r = (all_errors cs ++ added_errors cG)%list /\
    since w w' = (all_calls cs ++ added_calls cG)%list /\
    exists asked,
      added_calls cG = [asked] /\
      prompt asked = synthesis_prompt ra lr tc (guide_options options).
Proof.
  destruct (run_summary session order options env w)
    as (ra & lr & tc & cR0 & cD0 & cT0 & cG & cs0 & r & w' & Hrun & Hphase0 &
        _ & _ & _ & HG & _ & Hsteps & Herrors & Hcalls & Hasked & _).
  destruct (parallel_phase_anatomy session order options env
              (set_results fresh_results w))
    as (ra' & lr' & tc' & cR & cD & cT & wR & wD & wT & cs &
        ER & ED & ET & HR & HD & HT & Horder & Hphase).
  rewrite Hphase in Hphase0. injection Hphase0 as -> -> -> Hsame.
  apply extend_all_same in Hsame as (Hs & He & Hc).
  exists ra, lr, tc, cR, cD, cT, cG, wR, wD, wT, cs, r, w'.
  repeat (split; [assumption|]).
  unfold all_steps, all_errors, all_calls in *.
  rewrite flat_map_app in Hsteps, Herrors, Hcalls. simpl in Hsteps, Herrors, Hcalls.
  rewrite app_nil_r in Hsteps, Herrors, Hcalls.
  split; [now rewrite Hs|]. split; [now rewrite He|].
  split; [apply since_app; now rewrite Hc|].
  eexists. split; [exact Hasked | reflexivity].
Qed.

(** What a task's contribution tells about the collector it wraps. *)
Lemma task_contribution (stage : string) {A} (collector : async A)
  (outcome_of : A -> StepOutcome) (fallback : A) (env : Env) (w : World)
  (a : A) (c : contribution) :
  session_only stage collector ->
  try_catch
    (x ← collector; push_step (outcome_of x);; mret x)
    (fun err => push_error {| error_step := stage; error := err |};; mret fallback)
    env w
  = (Resolved a, extend c w) ->
  snd (collector env w) = set_calls (calls w ++ added_calls c) w /\
  match fst (collector env w) with
  | Resolved x => a = x /\ added_steps c = [outcome_of x] /\ added_errors c = []
  | Rejected err =>
      a = fallback /\ added_steps c = [] /\
      added_errors c = [{| error_step := stage; error := err |}]
  end.
Proof.
  intros Hso. destruct (Hso env w) as (new & Hw & _ & _).
  unfold try_catch. rewrite run_bind.
  destruct (collector env w) as [[x|err] w1]; cbn [fst snd] in *; subst w1.
  - unfold push_step, extend, set_results, set_calls. cbn.
    intros [= <- Hs He Hc].
    apply app_inv_head in Hs, Hc. rewrite <- (app_nil_r (errors (results w))) in He at 1.
    apply app_inv_head in He. now rewrite Hc.
  - unfold push_error, extend, set_results, set_calls. cbn.
    intros [= <- Hs He Hc].
    apply app_inv_head in He, Hc. rewrite <- (app_nil_r (steps (results w))) in Hs at 1.
    apply app_inv_head in Hs. now rewrite Hc.
Qed.

Lemma same_world_calls (w : World) (a b : list call) :
  set_calls (calls w ++ a) w = set_calls (calls w ++ b) w -> a = b.
Proof. intros H. apply (f_equal calls) in H. now apply app_inv_head in H. Qed.

Lemma stopped_nonempty (err : string) (new : list call) :
  stopped_by err new -> (1 <= length new)%nat.
Proof. intros (before & k & -> & _). rewrite length_app. simpl. lia. Qed.

Lemma stopped_thrown (err : string) (new : list call) :
  stopped_by err new -> exists k, In k new /\ answer k = Rejected err.
Proof.
  intros (before & k & -> & Hk & _). exists k. split; [|exact Hk].
  apply in_or_app. right. now left.
Qed.


Lemma docsTask_contribution (session : Session) (ra : RepositoryAnalysis)
  (env : Env) (w : World) (lr : list LearningResourceGroup) (c : contribution) :
  docsTask session ra env w = (Resolved lr, extend c w) ->
  added_calls c <> [] /\
  map prompt (added_calls c)
  `prefix_of`
  (map searchDocsForTech_prompt (techStack ra)
   ++ [ searchArchitectureDocs_prompt (join ", " (techStack ra));
        searchTutorials_prompt (join " and " (take 3 (techStack ra))) ])%list /\
  forall err, added_errors c = [{| error_step := "docs-fetch"; error := err |}] ->
    exists k, In k (added_calls c) /\ answer k = Rejected err.
Proof.
  intros Hrun.
  apply (task_contribution "docs-fetch") in Hrun as [Hw Hres];
    [|apply fetchLearningResources_session_only].
  destruct (fetchLearningResources_script (for_stage "docs-fetch" session)
              (techStack ra) ra env w) as (new & Hw' & _ & Hcalls).
  rewrite Hw in Hw'. apply same_world_calls in Hw'. subst new.
  destruct (fst (fetchLearningResources _ (techStack ra) ra env w)) as [a|err].
  - destruct Hres as (-> & _ & Herr). destruct Hcalls as (_ & Hp & _).
    split; [|split; [now rewrite Hp|]].
    + intros Hnil. rewrite Hnil in Hp. simpl in Hp.
      now destruct (map searchDocsForTech_prompt (techStack ra)).
    + intros e He. rewrite Herr in He. discriminate He.
  - destruct Hres as (-> & _ & Herr). destruct Hcalls as [Hpre Hstop].
    split; [|split; [exact Hpre|]].
    + apply stopped_nonempty in Hstop. intros Hnil. rewrite Hnil in Hstop.
      simpl in Hstop. lia.
    + intros e He. rewrite Herr in He. injection He as <-.
      now apply stopped_thrown.
Qed.


(** ** The transcript of a run *)


Lemma calls_of_app (stage : string) (a b : list call) :
  calls_of stage (a ++ b) = (calls_of stage a ++ calls_of stage b)%list.
Proof. apply List.filter_app. Qed.

Lemma calls_of_own (stage : string) (l : list call) :
  Forall (fun k => origin k = stage) l -> calls_of stage l = l.
Proof.
  induction 1 as [|k l Hk _ IH]; [reflexivity|]. simpl.
  rewrite Hk, String.eqb_refl. now f_equal.
Qed.

Lemma calls_of_other (stage other : string) (l : list call) :
  Forall (fun k => origin k = other) l -> other <> stage -> calls_of stage l = [].
Proof.
  intros Hl Hne. induction Hl as [|k l Hk _ IH]; [reflexivity|]. simpl.
  rewrite Hk. now destruct (String.eqb_spec other stage).
Qed.

Section Transcript.

Variables (cR cD cT cG : contribution) (PR PD PT PG : Prop).
Hypothesis HR : stage_record "repo-analysis" PR cR.
Hypothesis HD : stage_record "docs-fetch" PD cD.
Hypothesis HT : stage_record "team-context" PT cT.
Hypothesis HG : stage_record "guide-generation" PG cG.

Variable cs : list contribution.
Hypothesis Horder : completion_orders cR cD cT cs.

(** Each stage finds its own calls in the transcript. *)
Lemma calls_of_stages :
  calls_of "repo-analysis" (all_calls cs ++ added_calls cG) = added_calls cR /\
  calls_of "docs-fetch" (all_calls cs ++ added_calls cG) = added_calls cD /\
  calls_of "team-context" (all_calls cs ++ added_calls cG) = added_calls cT /\
  calls_of "guide-generation" (all_calls cs ++ added_calls cG) = added_calls cG.
Proof.
  destruct HR as [HoR _], HD as [HoD _], HT as [HoT _], HG as [HoG _].
  destruct Horder as [-> | [-> | ->]]; unfold all_calls; simpl;
    rewrite !calls_of_app;
    repeat split;
    rewrite ?(calls_of_own _ _ HoR), ?(calls_of_own _ _ HoD),
      ?(calls_of_own _ _ HoT), ?(calls_of_own _ _ HoG);
    rewrite ?(calls_of_other _ _ _ HoR), ?(calls_of_other _ _ _ HoD),
      ?(calls_of_other _ _ _ HoT), ?(calls_of_other _ _ _ HoG) by discriminate;
    now rewrite ?app_nil_r.
Qed.



(** The transcript and the steps, cut where the documentation stage
    starts. *)
Lemma repo_then_docs :
  (exists early late,
     all_calls cs = (early ++ late)%list /\
     Forall (fun k => origin k <> "docs-fetch") early /\
     Forall (fun k => origin k <> "repo-analysis") late) /\
  (exists early late,
     all_steps cs = (early ++ late)%list /\
     Forall (fun s => step s <> "docs-fetch") early /\
     Forall (fun s => step s <> "repo-analysis") late).
Proof.
  destruct HR as [HoR _], HD as [HoD _], HT as [HoT _].
  pose proof (record_steps _ _ _ HR) as HsR.
  pose proof (record_steps _ _ _ HD) as HsD.
  pose proof (record_steps _ _ _ HT) as HsT.
  assert (HcR : Forall (fun k => origin k <> "docs-fetch") (added_calls cR))
    by (eapply Forall_impl; [exact HoR|]; intros k ->; discriminate).
  assert (HcT1 : Forall (fun k => origin k <> "docs-fetch") (added_calls cT))
    by (eapply Forall_impl; [exact HoT|]; intros k ->; discriminate).
  assert (HcD : Forall (fun k => origin k <> "repo-analysis") (added_calls cD))
    by (eapply Forall_impl; [exact HoD|]; intros k ->; discriminate).
  assert (HcT2 : Forall (fun k => origin k <> "repo-analysis") (added_calls cT))
    by (eapply Forall_impl; [exact HoT|]; intros k ->; discriminate).
  assert (HtR : Forall (fun s => step s <> "docs-fetch") (added_steps cR))
    by (apply List.Forall_forall; intros s Hs; destruct (HsR s Hs) as [-> _];
        discriminate).
  assert (HtT1 : Forall (fun s => step s <> "docs-fetch") (added_steps cT))
    by (apply List.Forall_forall; intros s Hs; destruct (HsT s Hs) as [-> _];
        discriminate).
  assert (HtD : Forall (fun s => step s <> "repo-analysis") (added_steps cD))
    by (apply List.Forall_forall; intros s Hs; destruct (HsD s Hs) as [-> _];
        discriminate).
  assert (HtT2 : Forall (fun s => step s <> "repo-analysis") (added_steps cT))
    by (apply List.Forall_forall; intros s Hs; destruct (HsT s Hs) as [-> _];
        discriminate).
  destruct Horder as [-> | [-> | ->]]; unfold all_calls, all_steps; simpl;
    rewrite !app_nil_r.
  - split.
    + exists (added_calls cR), (added_calls cD ++ added_calls cT)%list.
      split; [reflexivity|]. split; [assumption | now apply Forall_app].
    + exists (added_steps cR), (added_steps cD ++ added_steps cT)%list.
      split; [reflexivity|]. split; [assumption | now apply Forall_app].
  - split.
    + exists (added_calls cR ++ added_calls cT)%list, (added_calls cD).
      split; [now rewrite app_assoc|]. split; [now apply Forall_app | assumption].
    + exists (added_steps cR ++ added_steps cT)%list, (added_steps cD).
      split; [now rewrite app_assoc|]. split; [now apply Forall_app | assumption].
  - split.
    + exists (added_calls cT ++ added_calls cR)%list, (added_calls cD).
      split; [now rewrite app_assoc|]. split; [now apply Forall_app | assumption].
    + exists (added_steps cT ++ added_steps cR)%list, (added_steps cD).
      split; [now rewrite app_assoc|]. split; [now apply Forall_app | assumption].
Qed.

(** The error entries, traced to the stage that made them. *)
Lemma error_of_stage (e : ErrorEntry) :
  In e (all_errors cs ++ added_errors cG) ->
  (error_step e = "repo-analysis" -> added_errors cR = [e]) /\
  (error_step e = "docs-fetch" -> added_errors cD = [e]) /\
  (error_step e = "team-context" -> added_errors cT = [e]).
Proof.
  intros Hin.
  assert (H : In e (added_errors cR) \/ In e (added_errors cD)
              \/ In e (added_errors cT) \/ In e (added_errors cG)).
  { apply in_app_or in Hin as [Hin|Hin]; [|tauto].
    destruct Horder as [-> | [-> | ->]]; unfold all_errors in Hin; simpl in Hin;
      rewrite app_nil_r in Hin; repeat (apply in_app_or in Hin as [Hin|Hin]); tauto. }
  assert (Hone : forall stage P c, stage_record stage P c -> In e (added_errors c) ->
                                   added_errors c = [e]).
  { intros stage P c [_ [(s & _ & _ & _ & He & _) | (err & _ & He & _)]];
      rewrite He; simpl; [tauto|]. now intros [<- | []]. }
  destruct H as [H | [H | [H | H]]].
  - pose proof (record_errors _ _ _ HR _ H) as Hn. pose proof (Hone _ _ _ HR H).
    repeat split; intros Hs; rewrite Hs in Hn; congruence.
  - pose proof (record_errors _ _ _ HD _ H) as Hn. pose proof (Hone _ _ _ HD H).
    repeat split; intros Hs; rewrite Hs in Hn; congruence.
  - pose proof (record_errors _ _ _ HT _ H) as Hn. pose proof (Hone _ _ _ HT H).
    repeat split; intros Hs; rewrite Hs in Hn; congruence.
  - pose proof (record_errors _ _ _ HG _ H) as Hn.
    repeat split; intros Hs; rewrite Hs in Hn; discriminate Hn.
Qed.


End Transcript.



(** X12: the documentation stage starts when the repository stage has
    settled: in the transcript no call of the repository stage comes after
    a call of the documentation stage, and in [steps] the entry of the
    repository stage never comes after that of the documentation stage,
    whatever the order in which the collectors complete. *)
Theorem repository_before_documentation (session : Session) (order : completion_order)
  (options : Options) (env : Env) (w : World) :
  exists r w',
    runOnboardBot session order options env w = (Resolved r, w') /\
    (exists early late,
       since w w' = (early ++ late)%list /\
       Forall (fun k => origin k <> "docs-fetch") early /\
       Forall (fun k => origin k <> "repo-analysis") late) /\
    (exists early late,
       steps r = (early ++ late)%list /\
       Forall (fun s => step s <> "docs-fetch") early /\
       Forall (fun s => step s <> "repo-analysis") late).
Proof.
  destruct (run_anatomy session order options env w)
    as (ra & lr & tc & cR & cD & cT & cG & wR & wD & wT & cs & r & w' &
        Hrun & _ & _ & _ & HR & HD & HT & HG & Horder & Hsteps & _ & Hsince & _).
  exists r, w'. split; [exact Hrun|].
  destruct (repo_then_docs _ _ _ _ _ _ HR HD HT _ Horder)
    as [(ce & cl & Hc & Hce & Hcl) (se & sl & Hs & Hse & Hsl)].
  split.
  - exists ce, (cl ++ added_calls cG)%list.
    split; [now rewrite Hsince, Hc, app_assoc|]. split; [exact Hce|].
    apply Forall_app. split; [exact Hcl|].
    destruct HG as [HoG _]. eapply Forall_impl; [exact HoG|].
    intros k ->. discriminate.
  - exists se, (sl ++ added_steps cG)%list.
    split; [now rewrite Hsteps, Hs, app_assoc|]. split; [exact Hse|].
    apply Forall_app. split; [exact Hsl|].
    apply List.Forall_forall. intros s Hin.
    destruct (record_steps _ _ _ HG _ Hin) as [-> _]. discriminate.
Qed.


(** X14: when the repository stage has failed, the documentation stage
    runs on the empty tech stack: it searches for no technology and makes
    at most two calls, for architecture guides and for tutorials, both
    with an empty list of technologies in the prompt. *)
Theorem documentation_after_failed_repository (session : Session)
  (order : completion_order) (options : Options) (env : Env) (w : World) :
  exists r w',
    runOnboardBot session order options env w = (Resolved r, w') /\
    forall err, In {| error_step := "repo-analysis"; error := err |} (errors r) ->
      map prompt (calls_of "docs-fetch" (since w w'))
      `prefix_of` [searchArchitectureDocs_prompt ""; searchTutorials_prompt ""].
Proof.
  destruct (run_anatomy session order options env w)
    as (ra & lr & tc & cR & cD & cT & cG & wR & wD & wT & cs & r & w' &
        Hrun & ER & ED & ET & HR & HD & HT & HG & Horder & _ & Herrors & Hsince & _).
  exists r, w'. split; [exact Hrun|]. intros err He.
  rewrite Herrors in He.
  destruct (error_of_stage _ _ _ _ _ _ _ _ HR HD HT HG _ Horder _ He) as (H & _ & _).
  specialize (H eq_refl).
  assert (Hra : ra = default_analysis (owner options) (repo options)).
  { destruct HR as [_ [(s & _ & _ & _ & Hnone & _) | (e & _ & _ & Hfell)]];
      [rewrite Hnone in H; discriminate H | exact Hfell]. }
  destruct (calls_of_stages _ _ _ _ _ _ _ _ HR HD HT HG _ Horder) as (_ & HcD & _).
  rewrite Hsince, HcD.
  destruct (docsTask_contribution _ _ _ _ _ _ ED) as (_ & Hpre & _).
  now rewrite Hra in Hpre.
Qed.

(** ** The demo session and the prompts of the pipeline *)

Lemma mentions_learn (prompt : string) :
  includes prompt "Microsoft Learn" = true ->
  In (message (demo_sendAndWait prompt)) first_six_replies.
Proof.
  intros H. unfold demo_sendAndWait, first_six_replies.
  destruct (_ || _); [now left|].
  destruct (_ || _); [now right; left|].
  destruct (includes prompt "pull requests"); [now right; right; left|].
  destruct (includes prompt "open issues"); [now right; right; right; left|].
  destruct (includes prompt "discussions"); [now right; right; right; right; left|].
  rewrite H. now right; right; right; right; right; left.
Qed.

(** Going through a template to the text after its last hole. *)
Ltac last_piece := repeat apply includes_later.

Lemma synthesis_prompt_mentions_learn (ra : RepositoryAnalysis)
  (lr : list LearningResourceGroup) (tc : TeamContext) (owner repo name : string) :
  includes (buildSynthesisPrompt ra lr tc owner repo name) "Microsoft Learn" = true.
Proof.
  unfold buildSynthesisPrompt. last_piece. vm_compute. reflexivity.
Qed.

Lemma first_six_are_arrays (s : string) :
  In s first_six_replies -> String.prefix "[" s = true.
Proof.
  unfold first_six_replies. simpl.
  intros [<- | [<- | [<- | [<- | [<- | [<- | []]]]]]]; vm_compute; reflexivity.
Qed.

Lemma demo_guide_is_markdown (prompt : string) :
  String.prefix "[" (generateDemoGuide prompt) = false.
Proof.
  unfold generateDemoGuide, demo_guide_template. cbv zeta.
  rewrite append_String. reflexivity.
Qed.

(** X15: the demo session never writes the demo guide for the pipeline.
    The synthesis prompt mentions Microsoft Learn, whatever was gathered
    and for whomever the guide is, so one of the first six rules answers
    it, with a canned JSON array; the rule that would call
    [generateDemoGuide] comes fifteenth.  The prompts of the documentation
    collector and of [fetchDocPage] are answered the same way. *)
Theorem demo_session_never_writes_the_guide :
  (forall ra lr tc options,
     In (message (demo_sendAndWait (synthesis_prompt ra lr tc options)))
        first_six_replies /\
     message (demo_sendAndWait (synthesis_prompt ra lr tc options))
     <> generateDemoGuide (synthesis_prompt ra lr tc options)) /\
  (forall tech,
     In (message (demo_sendAndWait (searchDocsForTech_prompt tech))) first_six_replies) /\
  (forall techList,
     In (message (demo_sendAndWait (searchArchitectureDocs_prompt techList)))
        first_six_replies) /\
  (forall query,
     In (message (demo_sendAndWait (searchTutorials_prompt query))) first_six_replies) /\
  (forall url,
     In (message (demo_sendAndWait (fetchDocPage_prompt url))) first_six_replies).
Proof.
  split; [intros ra lr tc options; split|repeat split; intros x].
  - apply mentions_learn, synthesis_prompt_mentions_learn.
  - intros Heq.
    pose proof (first_six_are_arrays _
                  (mentions_learn _ (synthesis_prompt_mentions_learn ra lr tc
                     (owner options) (repo options)
                     (default "New Team Member" (newHireName options))))) as H.
    unfold synthesis_prompt in Heq. rewrite Heq, demo_guide_is_markdown in H.
    discriminate H.
  - apply mentions_learn. unfold searchDocsForTech_prompt.
    apply includes_longer. vm_compute. reflexivity.
  - apply mentions_learn. unfold searchArchitectureDocs_prompt.
    apply includes_longer. vm_compute. reflexivity.
  - apply mentions_learn. unfold searchTutorials_prompt.
    apply includes_longer. vm_compute. reflexivity.
  - apply mentions_learn. unfold fetchDocPage_prompt.
    apply includes_longer. vm_compute. reflexivity.
Qed.

(** X16: so the file a run saves in demo mode is not a guide: its content
    is the metadata header followed by one of the six canned JSON
    arrays. *)
Theorem demo_guide_is_a_canned_array (order : completion_order) (options : Options)
  (env : Env) (w : World) :
  exists r w',
    runOnboardBot createDemoSession order options env w = (Resolved r, w') /\
    forall g, guide r = Some g ->
      exists generatedAt techs answer,
        content g
        = guide_header (owner options) (repo options)
            (default "New Team Member" (newHireName options)) generatedAt techs
          +:+ answer /\
        In answer first_six_replies.
Proof.
  destruct (run_summary createDemoSession order options env w)
    as (ra & lr & tc & cR & cD & cT & cG & cs & r & w' & Hrun & _ & _ & _ & _ & _ &
        _ & _ & _ & _ & _ & Hguide).
  exists r, w'. split; [exact Hrun|]. intros g Hg.
  set (w1 := extend_all cs (set_results fresh_results w)) in *.
  pose proof (generate_steps (for_stage "guide-generation" createDemoSession)
                ra lr tc (guide_options options) env w1) as Hsteps.
  cbv zeta in Hsteps.
  change (next_reply (for_stage "guide-generation" createDemoSession) w1
            (synthesis_prompt ra lr tc (guide_options options)))
    with (Resolved (demo_sendAndWait (synthesis_prompt ra lr tc (guide_options options))))
    in Hsteps.
  cbv beta iota in Hsteps. rewrite Hsteps in Hguide.
  destruct (mkdir_error env _ _);
    [cbn [fst] in Hguide; destruct Hguide as [Hnone _]; congruence|].
  destruct (writeFile_error env _ _);
    cbn [fst] in Hguide; destruct Hguide as [Hsome _]; [congruence|].
  rewrite Hsome in Hg. injection Hg as <-.
  do 3 eexists. split; [reflexivity|].
  apply mentions_learn, synthesis_prompt_mentions_learn.
Qed.

(** ** The names in the demo guide *)

Lemma span_word (s w rest : string) :
  span is_word s = (w, rest) -> word_chars w = true /\ s = w +:+ rest.
Proof.
  revert w rest. induction s as [|c s IH]; simpl; intros w rest.
  - intros [= <- <-]. now split.
  - destruct (is_word c) eqn:Hc.
    + destruct (span is_word s) as [a b]. intros [= <- <-].
      destruct (IH a b eq_refl) as [Ha ->]. simpl. rewrite Hc. now split.
    + intros [= <- <-]. now split.
Qed.

Lemma owner_repo_here_words (s o r : string) :
  owner_repo_here s = Some (o, r) ->
  is_word_name o = true /\ is_word_name r = true.
Proof.
  unfold owner_repo_here.
  destruct (span is_word s) as [w1 rest] eqn:H1.
  destruct w1 as [|a w1]; [discriminate|]. destruct rest as [|c rest]; [discriminate|].
  destruct (Ascii.eqb c "/"); [|discriminate].
  destruct (span is_word rest) as [w2 rest2] eqn:H2.
  destruct w2 as [|b w2]; [discriminate|]. intros [= <- <-].
  apply span_word in H1 as [H1 _]. apply span_word in H2 as [H2 _].
  unfold is_word_name. simpl in *. now rewrite H1, H2.
Qed.

Lemma owner_repo_here_slash (s : string) :
  has_char "/" s = false -> owner_repo_here s = None.
Proof.
  intros Hs. unfold owner_repo_here.
  destruct (span is_word s) as [w1 rest] eqn:H1.
  destruct w1 as [|a w1]; [reflexivity|]. destruct rest as [|c rest]; [reflexivity|].
  apply span_word in H1 as [_ ->]. rewrite has_char_app in Hs.
  apply orb_false_iff in Hs as [_ Hs]. simpl in Hs.
  apply orb_false_iff in Hs as [Hc _]. now rewrite Hc.
Qed.

Lemma match_owner_repo_words (s o r : string) :
  match_owner_repo s = Some (o, r) ->
  is_word_name o = true /\ is_word_name r = true.
Proof.
  induction s as [|c s IH]; simpl.
  - discriminate.
  - destruct (owner_repo_here (String c s)) as [[o' r']|] eqn:Hhere.
    + intros [= <- <-]. eapply owner_repo_here_words, Hhere.
    + exact IH.
Qed.

Lemma match_owner_repo_slash (s : string) :
  has_char "/" s = false -> match_owner_repo s = None.
Proof.
  induction s as [|c s IH]; intros Hs; [reflexivity|].
  simpl. rewrite (owner_repo_here_slash _ Hs).
  apply IH. simpl in Hs. now apply orb_false_iff in Hs as [_ Hs].
Qed.

Lemma match_hello_nonempty (s g : string) : match_hello s = Some g -> g <> "".
Proof.
  induction s as [|c s IH]; simpl.
  - unfold hello_here. simpl. discriminate.
  - destruct (hello_here (String c s)) as [g'|] eqn:Hhere; [|exact IH].
    intros [= <-]. unfold hello_here in Hhere.
    destruct (String.prefix "Hello, " (String c s)); [|discriminate].
    destruct (drop_chars 7 (String c s)) as [|a r]; [discriminate|].
    destruct (at_line_terminator (String a r)); [discriminate|].
    destruct (lazy_dots_bang r); [|discriminate].
    injection Hhere as <-. discriminate.
Qed.

Lemma match_hello_absent (s : string) :
  includes s "Hello, " = false -> match_hello s = None.
Proof.
  induction s as [|c s IH]; rewrite includes_unfold.
  - reflexivity.
  - destruct (String.prefix "Hello, " (String c s)) eqn:Hp; [discriminate|].
    intros Hs. simpl. unfold hello_here. rewrite Hp. now apply IH.
Qed.

(** X17: the demo guide is always made out to word names.  The owner and
    the repository are the two sides of the first "word/word" of the
    prompt, so a name with a dash or a dot never shows whole; without a
    slash in the prompt they are "org" and "project"; and the new hire is
    "New Team Member" unless the prompt holds a "Hello, ...!". *)
Theorem generateDemoGuide_names (prompt : string) :
  exists owner repo name,
    generateDemoGuide prompt = demo_guide_template owner repo name /\
    is_word_name owner = true /\ is_word_name repo = true /\ name <> "" /\
    (has_char "/" prompt = false -> owner = "org" /\ repo = "project") /\
    (includes prompt "Hello, " = false -> name = "New Team Member").
Proof.
  unfold generateDemoGuide. cbv zeta.
  assert (Hname : exists name,
             js_or (match_hello prompt) "New Team Member" = name /\ name <> "" /\
             (includes prompt "Hello, " = false -> name = "New Team Member")).
  { destruct (match_hello prompt) as [g|] eqn:Hg.
    - exists g. pose proof (match_hello_nonempty _ _ Hg) as Hne.
      unfold js_or. destruct (String.eqb_spec g ""); [contradiction|].
      split; [reflexivity|]. split; [exact Hne|].
      intros Hno. rewrite (match_hello_absent _ Hno) in Hg. discriminate Hg.
    - exists "New Team Member". now repeat split. }
  destruct Hname as (name & -> & Hne & Hdefault).
  destruct (match_owner_repo prompt) as [[o r]|] eqn:Hm.
  - destruct (match_owner_repo_words _ _ _ Hm) as [Ho Hr].
    exists o, r, name. simpl. unfold js_or.
    assert (Ho' := Ho). assert (Hr' := Hr). unfold is_word_name in Ho', Hr'.
    apply andb_true_iff in Ho' as [Ho' _]. apply andb_true_iff in Hr' as [Hr' _].
    apply negb_true_iff in Ho', Hr'. rewrite Ho', Hr'.
    split; [reflexivity|]. split; [exact Ho|]. split; [exact Hr|].
    split; [exact Hne|]. split; [|exact Hdefault].
    intros Hs. rewrite (match_owner_repo_slash _ Hs) in Hm. discriminate Hm.
  - exists "org", "project", name. now repeat split.
Qed.

(** ** The summary of a run *)

(** Four stages, each in one of the two lists; a step is a success. *)
Lemma run_tally (session : Session) (order : completion_order)
  (options : Options) (env : Env) (w : World) :
  exists r w',
    runOnboardBot session order options env w = (Resolved r, w') /\
    (length (steps r) + length (errors r) = 4)%nat /\
    Forall (fun s => status s = "success") (steps r).
Proof.
  destruct (run_summary session order options env w)
    as (ra & lr & tc & cR & cD & cT & cG & cs & r & w' & Hrun & _ &
        HR & HD & HT & HG & Hperm & Hsteps & Herrors & _).
  pose proof (run_every _ _ _ _ cG Hperm) as Hevery.
  exists r, w'. split; [exact Hrun|]. split.
  - pose proof (every_recorded cR cD cT cG _ _ _ _ HR HD HT HG _ Hevery) as Hrec.
    apply Permutation_length in Hrec.
    rewrite length_app, !length_map in Hrec. now rewrite Hsteps, Herrors.
  - apply List.Forall_forall. intros s Hs. rewrite Hsteps in Hs.
    now destruct (step_of_every cR cD cT cG _ _ _ _ HR HD HT HG _ Hevery s Hs).
Qed.

Lemma filter_all {A} (f : A -> bool) (l : list A) :
  Forall (fun x => f x = true) l -> List.filter f l = l.
Proof.
  induction 1 as [|x l Hx _ IH]; [reflexivity|]. simpl. now rewrite Hx, IH.
Qed.

Lemma step_line_success (s : StepOutcome) :
  status s = "success" -> String.prefix "  ✅ " (step_line s) = true.
Proof.
  intros Hs. unfold step_line. rewrite Hs. cbv zeta.
  change ("success" =? "success")%string with true. cbv iota.
  change ("  " +:+ "✅" +:+ " " +:+ step s +:+ ?rest)
    with ("  ✅ " +:+ (step s +:+ rest)).
  apply prefix_of_append.
Qed.

(** X18: the summary shown after a run.  Every entry of [steps] is a
    success, so the count of completed steps is four less the number of
    errors, each line of the list of pipeline steps carries the success
    mark, and a failed stage is not listed at all; the box is green when
    at most one stage failed, yellow otherwise; the line about errors is
    left out when there is none. *)
Theorem showResults_of_a_run (session : Session) (order : completion_order)
  (options : Options) (env : Env) (w : World)
  (chalk : Chalk) (boxen : string -> BoxOptions -> string) :
  exists r w',
    runOnboardBot session order options env w = (Resolved r, w') /\
    let failed := length (errors r) in
    showResults chalk boxen r
    = [ newline;
        boxen
          (bold_cyan chalk ("📊 OnboardBot Results" +:+ newline +:+ newline)
           +:+ green chalk ("  ✅ " +:+ nat_to_string (4 - failed)
                            +:+ " steps completed successfully" +:+ newline)
           +:+ (if (0 <? failed)%nat
                then red chalk ("  ❌ " +:+ nat_to_string failed
                                +:+ " steps had errors" +:+ newline)
                else "")
           +:+ (match guide r with
                | Some g =>
                    bold chalk (newline +:+ "  📄 Guide saved to: " +:+ outputPath g
                                +:+ newline)
                    +:+ dim chalk ("  📏 Guide size: "
                                   +:+ toFixed1 (fdiv (Z.of_nat (js_length (content g))) 1024)
                                   +:+ " KB")
                | None => ""
                end)
           +:+ newline +:+ newline +:+ bold chalk ("  Pipeline Steps:" +:+ newline)
           +:+ String.concat "" (map step_line (steps r)))
          {| padding := 1; margin := 1; borderStyle := "round";
             borderColor := if (failed <=? 1)%nat then "green" else "yellow" |} ] /\
    length (steps r) = (4 - failed)%nat /\
    Forall (fun s => String.prefix "  ✅ " (step_line s) = true) (steps r).
Proof.
  destruct (run_tally session order options env w) as (r & w' & Hrun & Hfour & Hok).
  exists r, w'. split; [exact Hrun|]. cbv zeta.
  assert (Hlen : length (steps r) = (4 - length (errors r))%nat) by lia.
  split; [|split; [exact Hlen|]].
  - unfold showResults, summaryText. cbv zeta.
    rewrite filter_all, Hlen.
    2:{ eapply Forall_impl; [exact Hok|]. intros s ->. reflexivity. }
    replace (3 <=? 4 - length (errors r))%nat with (length (errors r) <=? 1)%nat;
      [reflexivity|].
    destruct (Nat.leb_spec (length (errors r)) 1), (Nat.leb_spec 3 (4 - length (errors r)));
      [reflexivity | lia | lia | reflexivity].
  - eapply Forall_impl; [exact Hok|]. intros s. apply step_line_success.
Qed.

(** ** Durations *)

(** The quotient of two doubles, before and after rounding: the
    significand is the integer quotient at its scale, or the next one. *)
Lemma fdiv_enclosed (a b : Z) :
  (0 < a)%Z -> (0 < b)%Z -> (Z.log2 a - Z.log2 b <= 52)%Z ->
  (52 - (Z.log2 a - Z.log2 b) <= scale (fdiv a b))%Z /\
  exists q0,
    (b * q0 <= a * 2 ^ scale (fdiv a b) < b * q0 + b)%Z /\
    (q0 <= significand (fdiv a b) <= q0 + 1)%Z.
Proof.
  intros Ha Hb He. unfold fdiv.
  destruct (Z.eqb_spec a 0) as [?|_]; [lia|]. cbv zeta.
  set (e0 := (Z.log2 a - Z.log2 b)%Z) in *.
  match goal with
  | |- context [if ?c then (e0 - 1)%Z else e0] => set (below := c)
  end.
  set (e := if below then (e0 - 1)%Z else e0).
  assert (Hk : (52 - e0 <= 52 - e)%Z) by (subst e; destruct below; lia).
  cbn [scale significand].
  destruct (Z.leb_spec 0 (52 - e)) as [_|?]; [|lia].
  split; [exact Hk|].
  set (P := (2 ^ (52 - e))%Z).
  exists (a * P / b)%Z.
  pose proof (Z.div_mod (a * P) b ltac:(lia)) as Hdm.
  pose proof (Z.mod_pos_bound (a * P) b Hb) as Hmod.
  split; [lia|].
  destruct (2 * ((a * P) mod b) <? b)%Z; [lia|].
  destruct (b <? 2 * ((a * P) mod b))%Z; [lia|].
  destruct (Z.even (a * P / b)); lia.
Qed.

Lemma log2_below (a : Z) (n : Z) : (0 < a < 2 ^ n)%Z -> (Z.log2 a < n)%Z.
Proof. intros [Ha Hn]. now apply Z.log2_lt_pow2. Qed.

Lemma pow2_split (k : Z) : (1 <= k)%Z -> (2 ^ k = 2 * 2 ^ (k - 1))%Z.
Proof.
  intros Hk. replace k with (Z.succ (k - 1)) at 1 by lia.
  apply Z.pow_succ_r. lia.
Qed.

(** [Math.round((ms % 60000) / 1000)] *)
Lemma seconds_rounded (r : Z) :
  (0 <= r < 60000)%Z -> Math_round (fdiv r 1000) = ((r + 500) / 1000)%Z.
Proof.
  intros Hr. destruct (Z.eq_dec r 0%Z) as [->|Hne]; [reflexivity|].
  assert (Hlog : (Z.log2 r < 16)%Z) by (apply log2_below; simpl; lia).
  change (Z.log2 1000) with 9%Z in *.
  destruct (fdiv_enclosed r 1000) as (Hk & q0 & Hq0 & Hq);
    [lia | lia | change (Z.log2 1000) with 9%Z; lia |].
  change (Z.log2 1000) with 9%Z in Hk.
  unfold Math_round, scaled.
  destruct (Z.leb_spec 0 (scale (fdiv r 1000))) as [_|?]; [|lia].
  set (k := scale (fdiv r 1000)) in *. set (q := significand (fdiv r 1000)) in *.
  set (t := ((r + 500) / 1000)%Z).
  pose proof (Z.div_mod (r + 500) 1000 ltac:(lia)) as Hdm.
  pose proof (Z.mod_pos_bound (r + 500) 1000 ltac:(lia)) as Hmod.
  fold t in Hdm.
  assert (HP : (2 ^ 46 <= 2 ^ k)%Z) by (apply Z.pow_le_mono_r; lia).
  pose proof (pow2_split k ltac:(lia)) as Heven.
  set (P := (2 ^ k)%Z) in *. set (P' := (2 ^ (k - 1))%Z) in *.
  change (2 ^ 46)%Z with 70368744177664%Z in HP.
  symmetry. apply (Z.div_unique _ _ _ (2 * q + P - 2 * P * t)); [left|lia].
  assert (H1 : (1000 * (t * P) <= r * P + 500 * P)%Z) by nia.
  assert (H2 : (r * P <= 1000 * (t * P) + 499 * P)%Z) by nia.
  nia.
Qed.

(** [Math.floor(ms / 60000)] *)
Lemma minutes_floored (ms : Z) :
  (60000 <= ms < 2 ^ 52)%Z -> Math_floor (fdiv ms 60000) = (ms / 60000)%Z.
Proof.
  intros Hms.
  assert (Hlog : (Z.log2 ms < 52)%Z) by (apply log2_below; lia).
  destruct (fdiv_enclosed ms 60000) as (Hk & q0 & Hq0 & Hq);
    [lia | lia | change (Z.log2 60000) with 15%Z; lia |].
  change (Z.log2 60000) with 15%Z in Hk.
  unfold Math_floor, scaled.
  destruct (Z.leb_spec 0 (scale (fdiv ms 60000))) as [_|?]; [|lia].
  set (k := scale (fdiv ms 60000)) in *. set (q := significand (fdiv ms 60000)) in *.
  set (t := (ms / 60000)%Z).
  pose proof (Z.div_mod ms 60000 ltac:(lia)) as Hdm.
  pose proof (Z.mod_pos_bound ms 60000 ltac:(lia)) as Hmod.
  fold t in Hdm.
  assert (HP : (2 ^ 16 <= 2 ^ k)%Z) by (apply Z.pow_le_mono_r; lia).
  set (P := (2 ^ k)%Z) in *.
  change (2 ^ 16)%Z with 65536%Z in HP.
  rewrite Z.mul_1_l.
  symmetry. apply (Z.div_unique _ _ _ (q - P * t)); [left|lia].
  assert (H1 : (60000 * (t * P) <= ms * P)%Z) by nia.
  assert (H2 : (ms * P <= 60000 * (t * P) + 59999 * P)%Z) by nia.
  nia.
Qed.

(** [(ms / 1000).toFixed(1)]: a nearest tenth of a second. *)
Lemma tenth_shown (ms : Z) :
  (1000 <= ms < 60000)%Z ->
  exists n, toFixed1 (fdiv ms 1000) = tenths n /\ (-50 <= ms - 100 * n <= 50)%Z.
Proof.
  intros Hms.
  assert (Hlog : (Z.log2 ms < 16)%Z) by (apply log2_below; simpl; lia).
  destruct (fdiv_enclosed ms 1000) as (Hk & q0 & Hq0 & Hq);
    [lia | lia | change (Z.log2 1000) with 9%Z; lia |].
  change (Z.log2 1000) with 9%Z in Hk.
  unfold toFixed1, scaled.
  destruct (Z.leb_spec 0 (scale (fdiv ms 1000))) as [_|?]; [|lia].
  set (k := scale (fdiv ms 1000)) in *. set (q := significand (fdiv ms 1000)) in *.
  assert (HP : (2 ^ 46 <= 2 ^ k)%Z) by (apply Z.pow_le_mono_r; lia).
  set (P := (2 ^ k)%Z) in *.
  change (2 ^ 46)%Z with 70368744177664%Z in HP.
  set (n := ((20 * q + P) / (2 * P))%Z).
  exists n. split; [reflexivity|].
  pose proof (Z.div_mod (20 * q + P) (2 * P) ltac:(lia)) as Hdm.
  pose proof (Z.mod_pos_bound (20 * q + P) (2 * P) ltac:(lia)) as Hmod.
  fold n in Hdm.
  assert (H1 : ((100 * n - ms - 50) * P <= 1000)%Z) by nia.
  assert (H2 : ((ms - 100 * n - 50) * P < 1000)%Z) by nia.
  split; nia.
Qed.

Lemma a_minute_less_a_twentieth (ms : Z) :
  (59950 <= ms < 60000)%Z -> formatDuration ms = "60.0s".
Proof.
  intros Hms.
  replace ms with (59950 + Z.of_nat (Z.to_nat (ms - 59950)))%Z by lia.
  assert (Hd : (Z.to_nat (ms - 59950) < 50)%nat) by lia.
  generalize dependent (Z.to_nat (ms - 59950)). intros d Hd.
  do 50 (destruct d as [|d]; [vm_compute; reflexivity|]). lia.
Qed.

(** X19: how a duration is shown.  Below a second, the milliseconds as
    they are; below a minute, a nearest tenth of a second, which from
    59.95 s on reads "60.0s"; from a minute on (and below 2^52 ms), the
    whole minutes and the seconds rounded to the nearest, a half going up,
    so that the last half second of a minute reads "60s". *)
Theorem formatDuration_cases (ms : Z) :
  ((ms < 1000)%Z -> formatDuration ms = Z_to_string ms +:+ "ms") /\
  ((1000 <= ms < 60000)%Z ->
   exists n, formatDuration ms = tenths n +:+ "s" /\ (-50 <= ms - 100 * n <= 50)%Z) /\
  ((59950 <= ms < 60000)%Z -> formatDuration ms = "60.0s") /\
  ((60000 <= ms < 2 ^ 52)%Z ->
   let seconds := ((ms mod 60000 + 500) / 1000)%Z in
   formatDuration ms
   = Z_to_string (ms / 60000) +:+ "m " +:+ Z_to_string seconds +:+ "s" /\
   (0 <= seconds <= 60)%Z /\
   (seconds = 60%Z <-> (59500 <= ms mod 60000)%Z)).
Proof.
  split; [|split; [|split]].
  - intros Hms. unfold formatDuration.
    now destruct (Z.ltb_spec ms 1000); [|lia].
  - intros Hms. unfold formatDuration.
    destruct (Z.ltb_spec ms 1000); [lia|].
    destruct (Z.ltb_spec ms 60000); [|lia].
    destruct (tenth_shown ms Hms) as (n & -> & Hn). now exists n.
  - apply a_minute_less_a_twentieth.
  - intros Hms. cbv zeta.
    pose proof (Z.mod_pos_bound ms 60000 ltac:(lia)) as Hmod.
    split; [|split].
    + unfold formatDuration.
      destruct (Z.ltb_spec ms 1000); [lia|].
      destruct (Z.ltb_spec ms 60000); [lia|].
      now rewrite (minutes_floored ms Hms), (seconds_rounded _ Hmod).
    + split; [apply Z.div_pos; lia|].
      assert ((ms mod 60000 + 500) / 1000 < 61)%Z
        by (apply Z.div_lt_upper_bound; lia).
      lia.
    + split.
      * intros Hs.
        pose proof (Z.mul_div_le (ms mod 60000 + 500) 1000 ltac:(lia)). lia.
      * intros Hhi. symmetry. apply (Z.div_unique _ _ _ (ms mod 60000 - 59500)); lia.
Qed.

(** ** Tech-stack detection, entry by entry *)

(** A text without a space that starts in [a] and fits before the end of
    [a +:+ " " +:+ b] lies within [a]. *)
Lemma prefix_before_space (x a b : string) :
  has_char " " x = false ->
  String.prefix x (a +:+ String " " b) = true -> String.prefix x a = true.
Proof.
  revert x. induction a as [|c a IH]; intros x Hx.
  - destruct x as [|y x]; [reflexivity|]. simpl in *.
    destruct (ascii_dec y " ") as [->|_]; [discriminate Hx | discriminate].
  - destruct x as [|y x]; [reflexivity|]. rewrite append_String. simpl in *.
    destruct (ascii_dec y c); [|discriminate].
    apply orb_false_iff in Hx as [_ Hx]. now apply IH.
Qed.

Lemma includes_around_space (x a b : string) :
  has_char " " x = false -> x <> "" ->
  includes (a +:+ String " " b) x = includes a x || includes b x.
Proof.
  intros Hx Hne. induction a as [|c a IH].
  - rewrite append_empty_l, (includes_unfold (String " " b)).
    destruct x as [|y x]; [contradiction|].
    simpl in Hx. apply orb_false_iff in Hx as [Hy _].
    simpl. destruct (ascii_dec y " ") as [->|_]; [discriminate Hy | reflexivity].
  - rewrite append_String, (includes_unfold (String c _)), (includes_unfold (String c a)).
    destruct (String.prefix x (String c (a +:+ String " " b))) eqn:Hp.
    + rewrite <- append_String in Hp.
      now rewrite (prefix_before_space _ _ _ Hx Hp).
    + destruct (String.prefix x (String c a)) eqn:Hp'; [|exact IH].
      apply (prefix_longer _ _ (String " " b)) in Hp'.
      rewrite append_String in Hp'. congruence.
Qed.

Lemma includes_joined (x : string) (l : list string) :
  has_char " " x = false -> x <> "" ->
  includes (join " " l) x = existsb (fun e => includes e x) l.
Proof.
  intros Hx Hne. unfold join. induction l as [|e l IH].
  - destruct x; [contradiction | reflexivity].
  - destruct l as [|e' l].
    + simpl. now rewrite orb_false_r.
    + change (String.concat " " (e :: e' :: l))
        with (e +:+ String " " (String.concat " " (e' :: l))).
      rewrite (includes_around_space _ _ _ Hx Hne), IH. reflexivity.
Qed.

Lemma toLowerCase_join (l : list string) :
  toLowerCase (join " " l) = join " " (map toLowerCase l).
Proof.
  unfold join. induction l as [|e l IH]; [reflexivity|].
  destruct l as [|e' l]; [reflexivity|].
  change (String.concat " " (e :: e' :: l))
    with (e +:+ " " +:+ String.concat " " (e' :: l)).
  change (String.concat " " (map toLowerCase (e :: e' :: l)))
    with (toLowerCase e +:+ " " +:+ String.concat " " (map toLowerCase (e' :: l))).
  now rewrite !toLowerCase_app, IH.
Qed.

(** The patterns of the table, normalised, are not empty and hold no
    space: none can match across two entries. *)
Lemma table_patterns_plain (tech : string) (patterns : list string) (pattern : string) :
  In (tech, patterns) TECH_PATTERNS -> In pattern patterns ->
  has_char " " (normalizedPattern pattern) = false /\ normalizedPattern pattern <> "".
Proof.
  assert (H : forallb (fun entry =>
                forallb (fun pattern =>
                  negb (has_char " " (normalizedPattern pattern))
                  && negb (String.eqb (normalizedPattern pattern) ""))
                  (snd entry))
              TECH_PATTERNS = true) by (vm_compute; reflexivity).
  intros Ht Hp. rewrite forallb_forall in H. specialize (H _ Ht). simpl in H.
  rewrite forallb_forall in H. specialize (H _ Hp).
  apply andb_true_iff in H as [H1 H2].
  apply negb_true_iff in H1, H2. split; [exact H1|].
  now apply String.eqb_neq.
Qed.

Lemma pattern_in_listing (listing : list string) (tech : string)
  (patterns : list string) (pattern : string) :
  In (tech, patterns) TECH_PATTERNS -> In pattern patterns ->
  includes (toLowerCase (join " " listing)) (normalizedPattern pattern)
  = existsb (fun e => includes (toLowerCase e) (normalizedPattern pattern)) listing.
Proof.
  intros Ht Hp. destruct (table_patterns_plain _ _ _ Ht Hp) as [Hspace Hne].
  rewrite toLowerCase_join, (includes_joined _ _ Hspace Hne).
  induction listing as [|e l IH]; [reflexivity|]. simpl. now rewrite IH.
Qed.

Lemma some_pattern_found_same (s1 s2 : string) (patterns : list string) :
  (forall pattern, In pattern patterns ->
     includes s1 (normalizedPattern pattern) = includes s2 (normalizedPattern pattern)) ->
  some_pattern_found s1 patterns = some_pattern_found s2 patterns.
Proof.
  induction patterns as [|p ps IH]; intros H; [reflexivity|]. simpl.
  fold (normalizedPattern p). rewrite (H p) by now left.
  rewrite IH; [reflexivity|]. intros q Hq. apply H. now right.
Qed.

Lemma detected_in_same (s1 s2 : string) (table : list (string * list string)) :
  (forall tech patterns pattern, In (tech, patterns) table -> In pattern patterns ->
     includes s1 (normalizedPattern pattern) = includes s2 (normalizedPattern pattern)) ->
  detected_in s1 table = detected_in s2 table.
Proof.
  induction table as [|[tech patterns] rest IH]; intros H; [reflexivity|]. simpl.
  rewrite (some_pattern_found_same s1 s2 patterns)
    by (intros p Hp; apply (H tech patterns); [now left | exact Hp]).
  rewrite IH; [reflexivity|].
  intros t ps p Ht Hp. apply (H t ps); [now right | exact Hp].
Qed.

Lemma existsb_same {A} (f : A -> bool) (l l' : list A) :
  (forall x, In x l <-> In x l') -> existsb f l = existsb f l'.
Proof.
  intros H. destruct (existsb f l) eqn:E; symmetry.
  - apply existsb_exists in E as (x & Hx & Hf). apply existsb_exists.
    exists x. split; [now apply H | exact Hf].
  - apply not_true_iff_false. intros E'. apply not_true_iff_false in E. apply E.
    apply existsb_exists in E' as (x & Hx & Hf). apply existsb_exists.
    exists x. split; [now apply H | exact Hf].
Qed.

(** X20: on a listing of strings a technology is detected exactly when
    one entry, lowercased, holds one of its patterns: no pattern matches
    across two entries, and case does not matter.  So the result depends
    on which entries the listing holds, not on their order or number. *)
Theorem detectTechStack_by_entry (listing : list string) :
  (forall tech,
     In tech (detectTechStack (map JString listing)) <->
     exists entry, In entry listing /\ entry_shows entry tech) /\
  (forall listing',
     (forall entry, In entry listing <-> In entry listing') ->
     detectTechStack (map JString listing') = detectTechStack (map JString listing)).
Proof.
  split.
  - intros tech.
    destruct (tech_stack_in_table_order (map JString listing)) as [-> _].
    rewrite listing_text, detected_in_iff. split.
    + intros (patterns & Ht & Hfound).
      apply some_pattern_found_iff in Hfound as (pattern & Hp & Hinc).
      fold (normalizedPattern pattern) in Hinc.
      rewrite (pattern_in_listing _ _ _ _ Ht Hp) in Hinc.
      apply existsb_exists in Hinc as (entry & He & Hinc).
      exists entry. split; [exact He|]. now exists patterns, pattern.
    + intros (entry & He & patterns & pattern & Ht & Hp & Hinc).
      exists patterns. split; [exact Ht|].
      apply some_pattern_found_iff. exists pattern. split; [exact Hp|].
      fold (normalizedPattern pattern).
      rewrite (pattern_in_listing _ _ _ _ Ht Hp). apply existsb_exists.
      now exists entry.
  - intros listing' Hsame.
    destruct (tech_stack_in_table_order (map JString listing)) as [-> _].
    destruct (tech_stack_in_table_order (map JString listing')) as [-> _].
    rewrite !listing_text. apply detected_in_same.
    intros tech patterns pattern Ht Hp.
    rewrite !(pattern_in_listing _ _ _ _ Ht Hp). symmetry. now apply existsb_same.
Qed.

(** ** The parser reads no further than it must *)

Lemma same_front_refl (rest : string) : same_front rest rest.
Proof. now left. Qed.

Lemma same_front_behind (x rest rest' : string) :
  same_front rest rest' -> same_front (x +:+ rest) (x +:+ rest').
Proof.
  intros H. destruct x as [|c x]; [now rewrite !append_empty_l|].
  right. exists c, (x +:+ rest), (x +:+ rest'). now rewrite !append_String.
Qed.

Lemma same_front_cons (c : ascii) (t t' : string) :
  same_front (String c t) (String c t').
Proof. right. now exists c, t, t'. Qed.

(** White space *)
Lemma skip_ws_local (s : string) (c : ascii) (r : string) :
  skip_ws s = String c r ->
  is_ws c = false /\
  exists ws, s = ws +:+ String c r /\
             forall x, skip_ws (ws +:+ String c x) = String c x.
Proof.
  induction s as [|d s IH]; simpl; [discriminate|].
  destruct (is_ws d) eqn:Hd.
  - intros H. destruct (IH H) as (Hc & ws & -> & Hx).
    split; [exact Hc|]. exists (String d ws). split; [reflexivity|].
    intros x. rewrite append_String. simpl. now rewrite Hd.
  - intros [= -> ->]. split; [exact Hd|]. exists "". split; [reflexivity|].
    intros x. rewrite append_empty_l. simpl. now rewrite Hd.
Qed.

(** String literals *)
Lemma string_body_local (s v rest : string) :
  string_body s = Some (v, rest) ->
  exists used, s = used +:+ rest /\
               forall rest', string_body (used +:+ rest') = Some (v, rest').
Proof.
  enough (H : forall n s v rest, (String.length s <= n)%nat ->
              string_body s = Some (v, rest) ->
              exists used, s = used +:+ rest /\
                forall rest', string_body (used +:+ rest') = Some (v, rest'))
    by (apply (H (String.length s)); lia).
  clear. intros n.
  induction n as [|n IH]; intros s v rest Hle; destruct s as [|c r]; simpl in *;
    try discriminate; try lia.
  destruct (Ascii.eqb c dquote) eqn:Hq.
  { intros [= <- <-]. exists (String c ""). split; [reflexivity|].
    intros rest'. simpl. now rewrite Hq. }
  destruct (Ascii.eqb c backslash) eqn:Hb.
  - destruct r as [|e r1]; [discriminate|].
    destruct (Ascii.eqb e "u") eqn:Hu.
    + destruct r1 as [|h1 [|h2 [|h3 [|h4 r2]]]]; try discriminate.
      destruct (hex_value h1) eqn:E1, (hex_value h2) eqn:E2,
               (hex_value h3) eqn:E3, (hex_value h4) eqn:E4; try discriminate.
      destruct (string_body r2) as [[v' rest0]|] eqn:Hbody; [|discriminate].
      intros [= <- <-].
      destruct (IH r2 v' rest0) as (used & -> & Hext); [simpl in *; lia | exact Hbody|].
      exists (String c (String e (String h1 (String h2 (String h3 (String h4 used)))))).
      split; [reflexivity|]. intros rest'. simpl.
      now rewrite Hq, Hb, Hu, E1, E2, E3, E4, Hext.
    + destruct (simple_escape e) eqn:He; [|discriminate].
      destruct (string_body r1) as [[v' rest0]|] eqn:Hbody; [|discriminate].
      intros [= <- <-].
      destruct (IH r1 v' rest0) as (used & -> & Hext); [simpl in *; lia | exact Hbody|].
      exists (String c (String e used)). split; [reflexivity|].
      intros rest'. simpl. now rewrite Hq, Hb, Hu, He, Hext.
  - destruct (code c <? 32)%nat eqn:Hlow; [discriminate|].
    destruct (string_body r) as [[v' rest0]|] eqn:Hbody; [|discriminate].
    intros [= <- <-].
    destruct (IH r v' rest0) as (used & -> & Hext); [simpl in *; lia | exact Hbody|].
    exists (String c used). split; [reflexivity|].
    intros rest'. simpl. now rewrite Hq, Hb, Hlow, Hext.
Qed.

(** Numbers *)
Lemma span_local (p : ascii -> bool) (s a b : string) :
  span p s = (a, b) ->
  s = a +:+ b /\ forall b', same_front b b' -> span p (a +:+ b') = (a, b').
Proof.
  revert a b. induction s as [|c s IH]; simpl; intros a b.
  - intros [= <- <-]. split; [reflexivity|].
    intros b' [-> | (c & t & t' & H & _)]; [reflexivity | discriminate H].
  - destruct (p c) eqn:Hc.
    + destruct (span p s) as [a0 b0]. intros [= <- <-].
      destruct (IH a0 b0 eq_refl) as [-> Hext]. split; [reflexivity|].
      intros b' Hb. rewrite append_String. simpl. now rewrite Hc, (Hext b' Hb).
    + intros [= <- <-]. split; [reflexivity|].
      intros b' [-> | (d & t & t' & [= <- <-] & ->)];
        rewrite append_empty_l; simpl; now rewrite Hc.
Qed.

Lemma digits1_local (s ds rest : string) :
  digits1 s = Some (ds, rest) ->
  s = ds +:+ rest /\
  forall rest', same_front rest rest' -> digits1 (ds +:+ rest') = Some (ds, rest').
Proof.
  unfold digits1. destruct (span is_digit s) as [a b] eqn:Hspan.
  destruct a as [|d a]; [discriminate|]. intros [= <- <-].
  destruct (span_local _ _ _ _ Hspan) as [-> Hext]. split; [reflexivity|].
  intros rest' Hr. now rewrite (Hext rest' Hr).
Qed.

Lemma number_int_local (s i rest : string) :
  number_int s = Some (i, rest) ->
  s = i +:+ rest /\ i <> "" /\
  forall rest', same_front rest rest' -> number_int (i +:+ rest') = Some (i, rest').
Proof.
  unfold number_int. destruct s as [|c r]; [discriminate|].
  destruct (Ascii.eqb c "0") eqn:Hc.
  - intros [= <- <-]. apply Ascii.eqb_eq in Hc as ->.
    split; [reflexivity|]. split; [discriminate|]. intros rest' _. reflexivity.
  - intros H. destruct (digits1_local _ _ _ H) as [Hs Hext].
    split; [exact Hs|].
    assert (Hi : exists d i', i = String d i').
    { unfold digits1 in H. destruct (span is_digit (String c r)) as [[|d a] b];
        [discriminate|]. injection H as <- _. now exists d, a. }
    destruct Hi as (d & i' & ->). split; [discriminate|].
    intros rest' Hr. rewrite append_String in Hs. injection Hs as <- _.
    rewrite append_String, Hc, <- append_String. now apply Hext.
Qed.

Lemma number_frac_local (s f rest : string) :
  number_frac s = Some (f, rest) ->
  s = f +:+ rest /\
  forall rest', same_front rest rest' -> number_frac (f +:+ rest') = Some (f, rest').
Proof.
  unfold number_frac. destruct s as [|c r].
  - intros [= <- <-]. split; [reflexivity|].
    intros rest' [-> | (c & t & t' & H & _)]; [reflexivity | discriminate H].
  - destruct (Ascii.eqb c ".") eqn:Hc.
    + destruct (digits1 r) as [[ds rest0]|] eqn:Hd; [|discriminate].
      intros [= <- <-]. destruct (digits1_local _ _ _ Hd) as [-> Hext].
      split; [reflexivity|]. intros rest' Hr.
      rewrite append_String, Hc. now rewrite (Hext rest' Hr).
    + intros [= <- <-]. split; [reflexivity|].
      intros rest' [-> | (d & t & t' & [= <- <-] & ->)];
        rewrite append_empty_l; now rewrite Hc.
Qed.

Lemma number_exp_local (s e rest : string) :
  number_exp s = Some (e, rest) ->
  s = e +:+ rest /\
  forall rest', same_front rest rest' -> number_exp (e +:+ rest') = Some (e, rest').
Proof.
  unfold number_exp. destruct s as [|c r].
  - intros [= <- <-]. split; [reflexivity|].
    intros rest' [-> | (c & t & t' & H & _)]; [reflexivity | discriminate H].
  - destruct (Ascii.eqb c "e" || Ascii.eqb c "E") eqn:Hc.
    + destruct (number_sign r) as [sign r'] eqn:Hsign.
      destruct (digits1 r') as [[ds rest0]|] eqn:Hd; [|discriminate].
      intros [= <- <-]. destruct (digits1_local _ _ _ Hd) as [-> Hext].
      assert (Hds : exists d ds', ds = String d ds').
      { unfold digits1 in Hd.
        destruct (span is_digit (ds +:+ rest0)) as [[|d a] b]; [discriminate|].
        injection Hd as <- _. now exists d, a. }
      destruct Hds as (d & ds' & ->).
      assert (Hsg : r = sign +:+ String d (ds' +:+ rest0) /\
                    forall x, number_sign (sign +:+ String d x) = (sign, String d x)).
      { rewrite append_String in Hsign. unfold number_sign in Hsign.
        destruct r as [|x r0]; [discriminate Hsign|].
        destruct (Ascii.eqb x "+" || Ascii.eqb x "-") eqn:Hx.
        - injection Hsign as <- ->. split; [reflexivity|].
          intros y. rewrite append_String, append_empty_l. unfold number_sign.
          now rewrite Hx.
        - injection Hsign as <- -> ->. split; [reflexivity|].
          intros y. rewrite append_empty_l. unfold number_sign. now rewrite Hx. }
      destruct Hsg as [-> Hsg]. split.
      * rewrite !append_String, append_assoc3. reflexivity.
      * intros rest' Hr. rewrite append_String, Hc, append_assoc3.
        rewrite append_String, Hsg, <- append_String. now rewrite (Hext rest' Hr).
    + intros [= <- <-]. split; [reflexivity|].
      intros rest' [-> | (d & t & t' & [= <- <-] & ->)];
        rewrite append_empty_l; now rewrite Hc.
Qed.

Lemma number_local (s lex rest : string) :
  number s = Some (lex, rest) ->
  s = lex +:+ rest /\
  forall rest', same_front rest rest' -> number (lex +:+ rest') = Some (lex, rest').
Proof.
  unfold number.
  assert (Hhead : exists sign r,
            match s with
            | String c r => if Ascii.eqb c "-" then ("-", r) else ("", s)
            | EmptyString => ("", s)
            end = (sign, r) /\ s = sign +:+ r /\
            forall i x, i <> "" -> r = i +:+ x -> forall y,
              match sign +:+ (i +:+ y) with
              | String c r' => if Ascii.eqb c "-" then ("-", r') else ("", sign +:+ (i +:+ y))
              | EmptyString => ("", sign +:+ (i +:+ y))
              end = (sign, i +:+ y)).
  { destruct s as [|c r0].
    - exists "", "". split; [reflexivity|]. split; [reflexivity|].
      intros i x Hi Hs. destruct i; [contradiction | discriminate Hs].
    - destruct (Ascii.eqb c "-") eqn:Hc.
      + apply Ascii.eqb_eq in Hc as ->. exists "-", r0.
        split; [reflexivity|]. split; [reflexivity|]. intros i x _ _ y. reflexivity.
      + exists "", (String c r0). split; [reflexivity|]. split; [reflexivity|].
        intros i x Hi Hs y.
        destruct i as [|d i]; [contradiction|].
        rewrite append_String in Hs. injection Hs as <- _.
        rewrite append_empty_l, append_String. now rewrite Hc. }
  destruct Hhead as (sign & r & -> & -> & Hsign).
  destruct (number_int r) as [[i r1]|] eqn:Hi; [|discriminate].
  destruct (number_frac r1) as [[f r2]|] eqn:Hf; [|discriminate].
  destruct (number_exp r2) as [[e r3]|] eqn:He; [|discriminate].
  intros [= <- <-].
  destruct (number_int_local _ _ _ Hi) as (Hr & Hine & Hiext).
  destruct (number_frac_local _ _ _ Hf) as (Hr1 & Hfext).
  destruct (number_exp_local _ _ _ He) as (Hr2 & Heext).
  split; [rewrite Hr, Hr1, Hr2, !append_assoc3; reflexivity|].
  intros rest' Hrest. rewrite !append_assoc3.
  rewrite (Hsign i r1 Hine Hr).
  rewrite Hiext by (rewrite Hr1, Hr2; now do 2 apply same_front_behind).
  rewrite Hfext by (rewrite Hr2; now apply same_front_behind).
  now rewrite (Heext rest' Hrest).
Qed.

Lemma prefix_split (p s : string) :
  String.prefix p s = true -> s = p +:+ drop_chars (String.length p) s.
Proof.
  revert s. induction p as [|c p IH]; intros s.
  - intros _. now destruct s.
  - destruct s as [|c' s]; simpl; [discriminate|].
    destruct (ascii_dec c c') as [<-|]; [|discriminate].
    intros H. rewrite append_String. f_equal. exact (IH s H).
Qed.

Lemma drop_prefix (p x : string) : drop_chars (String.length p) (p +:+ x) = x.
Proof.
  induction p as [|c p IH]; [now destruct x|]. now rewrite append_String.
Qed.

Lemma digits1_head (s ds rest : string) :
  digits1 s = Some (ds, rest) ->
  exists d ds', ds = String d ds' /\ is_digit d = true.
Proof.
  unfold digits1. destruct s as [|c s]; [discriminate|]. simpl.
  destruct (is_digit c) eqn:Hc; [|discriminate].
  destruct (span is_digit s) as [a b]. intros [= <- _]. now exists c, a.
Qed.

Lemma number_head (s lex rest : string) :
  number s = Some (lex, rest) ->
  exists c lex', lex = String c lex' /\ Ascii.eqb c "-" || is_digit c = true.
Proof.
  unfold number.
  set (head := match s with
               | String c r => if Ascii.eqb c "-" then ("-", r) else ("", s)
               | EmptyString => ("", s)
               end).
  assert (Hsign : fst head = "-" \/ fst head = "").
  { subst head. destruct s as [|c r]; [now right|].
    destruct (Ascii.eqb c "-"); [now left | now right]. }
  destruct head as [sign r]. simpl in Hsign.
  destruct (number_int r) as [[i r1]|] eqn:Hi; [|discriminate].
  destruct (number_frac r1) as [[f r2]|]; [|discriminate].
  destruct (number_exp r2) as [[e r3]|]; [|discriminate].
  intros [= <- _]. destruct Hsign as [-> | ->].
  - eexists _, _. split; [reflexivity | reflexivity].
  - rewrite append_empty_l.
    assert (Hd : exists d i', i = String d i' /\ is_digit d = true).
    { unfold number_int in Hi. destruct r as [|c r']; [discriminate|].
      destruct (Ascii.eqb c "0") eqn:Hc.
      - injection Hi as <- _. now exists "0"%char, "".
      - eapply digits1_head, Hi. }
    destruct Hd as (d & i' & -> & Hd). rewrite append_String.
    eexists _, _. split; [reflexivity|]. rewrite Hd. apply orb_true_r.
Qed.

Lemma not_a_literal (c : ascii) (x : string) :
  Ascii.eqb c "-" || is_digit c = true ->
  String.prefix "null" (String c x) = false /\
  String.prefix "true" (String c x) = false /\
  String.prefix "false" (String c x) = false.
Proof.
  intros Hc. cbn [String.prefix].
  destruct (ascii_dec "n" c) as [<-|_]; [discriminate Hc|].
  destruct (ascii_dec "t" c) as [<-|_]; [discriminate Hc|].
  destruct (ascii_dec "f" c) as [<-|_]; [discriminate Hc|].
  now repeat split.
Qed.

Lemma scalar_local : local closed_value scalar.
Proof.
  intros s v rest. unfold scalar.
  destruct (String.prefix "null" s) eqn:Hn.
  { intros [= <- <-]. exists "null". split; [exact (prefix_split _ _ Hn)|].
    intros rest' _. rewrite prefix_of_append. reflexivity. }
  destruct (String.prefix "true" s) eqn:Ht.
  { intros [= <- <-]. exists "true". split; [exact (prefix_split _ _ Ht)|].
    intros rest' _. change (String.prefix "null" ("true" +:+ rest')) with false.
    cbv iota. rewrite prefix_of_append. reflexivity. }
  destruct (String.prefix "false" s) eqn:Hf.
  { intros [= <- <-]. exists "false". split; [exact (prefix_split _ _ Hf)|].
    intros rest' _. change (String.prefix "null" ("false" +:+ rest')) with false.
    change (String.prefix "true" ("false" +:+ rest')) with false.
    cbv iota. rewrite prefix_of_append. reflexivity. }
  destruct (number s) as [[lex rest0]|] eqn:Hnum; [|discriminate].
  intros [= <- <-]. destruct (number_local _ _ _ Hnum) as [-> Hext].
  destruct (number_head _ _ _ Hnum) as (c & lex' & -> & Hc).
  exists (String c lex'). split; [reflexivity|].
  intros rest' [[] | Hfront]. rewrite append_String.
  destruct (not_a_literal c (lex' +:+ rest') Hc) as (-> & -> & ->).
  rewrite <- append_String. now rewrite (Hext rest' Hfront).
Qed.

(** What was consumed starts with the character the parser started on. *)
Lemma used_head (used rest : string) (c : ascii) (r : string) :
  String c r = used +:+ rest ->
  (String.length rest < String.length (String c r))%nat ->
  exists u, used = String c u.
Proof.
  intros Hs Hlen. destruct used as [|d u].
  - rewrite append_empty_l in Hs. subst rest. lia.
  - rewrite append_String in Hs. injection Hs as <- _. now exists u.
Qed.

Section Locality.

Variables (value : string -> parsed json)
          (elements : string -> parsed (list json))
          (members : string -> parsed (list (string * json))).
Hypothesis value_consumes : consumes value.
Hypothesis elements_consumes : consumes elements.
Hypothesis members_consumes : consumes members.
Hypothesis value_local : local closed_value value.
Hypothesis elements_local : local (fun _ => True) elements.
Hypothesis members_local : local (fun _ => True) members.

Lemma value_with_local : local closed_value (value_with elements members).
Proof.
  intros s v rest. unfold value_with.
  destruct (skip_ws s) as [|c r] eqn:Hs; [discriminate|].
  destruct (skip_ws_local _ _ _ Hs) as (Hc & ws & -> & Hws).
  destruct (Ascii.eqb c "[") eqn:Hopen.
  { destruct (skip_ws r) as [|c' r'] eqn:Hr; [discriminate|].
    destruct (skip_ws_local _ _ _ Hr) as (Hc' & ws' & -> & Hws').
    destruct (Ascii.eqb c' "]") eqn:Hclose.
    - intros [= <- <-]. exists (ws +:+ String c (ws' +:+ String c' "")).
      split; [now rewrite !append_assoc3, !append_String, !append_assoc3|].
      intros rest' _.
      rewrite !append_assoc3, !append_String, !append_assoc3, !append_String,
        append_empty_l.
      now rewrite Hws, Hopen, Hws', Hclose.
    - destruct (elements (String c' r')) as [vs rest0| |] eqn:He; try discriminate.
      intros [= <- <-].
      destruct (elements_local _ _ _ He) as (used & Hused & Hext).
      destruct (used_head _ _ _ _ Hused (elements_consumes _ _ _ He)) as [u ->].
      rewrite Hused. exists (ws +:+ String c (ws' +:+ String c' u)).
      split; [now rewrite !append_assoc3, !append_String, !append_assoc3|].
      intros rest' _.
      rewrite !append_assoc3, !append_String, !append_assoc3, !append_String.
      rewrite Hws, Hopen, Hws', Hclose, <- append_String.
      now rewrite (Hext rest' (or_introl I)). }
  destruct (Ascii.eqb c "{") eqn:Hbrace.
  { destruct (skip_ws r) as [|c' r'] eqn:Hr; [discriminate|].
    destruct (skip_ws_local _ _ _ Hr) as (Hc' & ws' & -> & Hws').
    destruct (Ascii.eqb c' "}") eqn:Hclose.
    - intros [= <- <-]. exists (ws +:+ String c (ws' +:+ String c' "")).
      split; [now rewrite !append_assoc3, !append_String, !append_assoc3|].
      intros rest' _.
      rewrite !append_assoc3, !append_String, !append_assoc3, !append_String,
        append_empty_l.
      now rewrite Hws, Hopen, Hbrace, Hws', Hclose.
    - destruct (members (String c' r')) as [ms rest0| |] eqn:Hm; try discriminate.
      intros [= <- <-].
      destruct (members_local _ _ _ Hm) as (used & Hused & Hext).
      destruct (used_head _ _ _ _ Hused (members_consumes _ _ _ Hm)) as [u ->].
      rewrite Hused. exists (ws +:+ String c (ws' +:+ String c' u)).
      split; [now rewrite !append_assoc3, !append_String, !append_assoc3|].
      intros rest' _.
      rewrite !append_assoc3, !append_String, !append_assoc3, !append_String.
      rewrite Hws, Hopen, Hbrace, Hws', Hclose, <- append_String.
      now rewrite (Hext rest' (or_introl I)). }
  destruct (Ascii.eqb c dquote) eqn:Hquote.
  { destruct (string_body r) as [[v0 rest0]|] eqn:Hbody; [|discriminate].
    intros [= <- <-].
    destruct (string_body_local _ _ _ Hbody) as (used & -> & Hext).
    exists (ws +:+ String c used).
    split; [now rewrite !append_assoc3, !append_String|].
    intros rest' _. rewrite !append_assoc3, !append_String.
    now rewrite Hws, Hopen, Hbrace, Hquote, Hext. }
  intros Hscalar.
  destruct (scalar_local _ _ _ Hscalar) as (used & Hused & Hext).
  destruct (used_head _ _ _ _ Hused (scalar_lt _ _ _ Hscalar)) as [u ->].
  rewrite Hused. exists (ws +:+ String c u).
  split; [now rewrite !append_assoc3|].
  intros rest' Hrest. rewrite !append_assoc3, !append_String.
  rewrite Hws, Hopen, Hbrace, Hquote, <- append_String. now apply Hext.
Qed.

Lemma elements_with_local : local (fun _ => True) (elements_with value elements).
Proof.
  intros s vs rest. unfold elements_with.
  destruct (value s) as [v rest1| |] eqn:Hv; try discriminate.
  destruct (value_local _ _ _ Hv) as (u1 & -> & Hext1).
  destruct (skip_ws rest1) as [|c r] eqn:Hs; [discriminate|].
  destruct (skip_ws_local _ _ _ Hs) as (Hc & ws & -> & Hws).
  destruct (Ascii.eqb c ",") eqn:Hcomma.
  - destruct (elements r) as [vs' rest0| |] eqn:He; try discriminate.
    intros [= <- <-].
    destruct (elements_local _ _ _ He) as (u2 & -> & Hext2).
    exists (u1 +:+ ws +:+ String c u2).
    split; [now rewrite !append_assoc3, !append_String|].
    intros rest' _. rewrite !append_assoc3, !append_String.
    rewrite Hext1 by (right; apply same_front_behind, same_front_cons).
    now rewrite Hws, Hcomma, (Hext2 rest' (or_introl I)).
  - destruct (Ascii.eqb c "]") eqn:Hclose; [|discriminate].
    intros [= <- <-]. exists (u1 +:+ ws +:+ String c "").
    split; [now rewrite !append_assoc3, !append_String|].
    intros rest' _. rewrite !append_assoc3, !append_String, append_empty_l.
    rewrite Hext1 by (right; apply same_front_behind, same_front_cons).
    now rewrite Hws, Hcomma, Hclose.
Qed.

Lemma members_with_local : local (fun _ => True) (members_with value members).
Proof.
  intros s ms rest. unfold members_with.
  destruct (skip_ws s) as [|c r] eqn:Hs; [discriminate|].
  destruct (skip_ws_local _ _ _ Hs) as (Hc & ws & -> & Hws).
  destruct (Ascii.eqb c dquote) eqn:Hquote; [|discriminate].
  destruct (string_body r) as [[k rest1]|] eqn:Hbody; [|discriminate].
  destruct (string_body_local _ _ _ Hbody) as (uk & -> & Hextk).
  destruct (skip_ws rest1) as [|c2 r2] eqn:Hs2; [discriminate|].
  destruct (skip_ws_local _ _ _ Hs2) as (Hc2 & ws2 & -> & Hws2).
  destruct (Ascii.eqb c2 ":") eqn:Hcolon; [|discriminate].
  destruct (value r2) as [v rest2| |] eqn:Hv; try discriminate.
  destruct (value_local _ _ _ Hv) as (uv & -> & Hextv).
  destruct (skip_ws rest2) as [|c3 r3] eqn:Hs3; [discriminate|].
  destruct (skip_ws_local _ _ _ Hs3) as (Hc3 & ws3 & -> & Hws3).
  destruct (Ascii.eqb c3 ",") eqn:Hcomma.
  - destruct (members r3) as [ms' rest0| |] eqn:Hm; try discriminate.
    intros [= <- <-].
    destruct (members_local _ _ _ Hm) as (um & -> & Hextm).
    exists (ws +:+ String c (uk +:+ ws2 +:+ String c2 (uv +:+ ws3 +:+ String c3 um))).
    split; [now rewrite !append_assoc3, !append_String, !append_assoc3,
              !append_String, !append_assoc3, !append_String|].
    intros rest' _.
    rewrite !append_assoc3, !append_String, !append_assoc3, !append_String,
      !append_assoc3, !append_String.
    rewrite Hws, Hquote, Hextk, Hws2, Hcolon.
    rewrite Hextv by (right; apply same_front_behind, same_front_cons).
    now rewrite Hws3, Hcomma, (Hextm rest' (or_introl I)).
  - destruct (Ascii.eqb c3 "}") eqn:Hclose; [|discriminate].
    intros [= <- <-].
    exists (ws +:+ String c (uk +:+ ws2 +:+ String c2 (uv +:+ ws3 +:+ String c3 ""))).
    split; [now rewrite !append_assoc3, !append_String, !append_assoc3,
              !append_String, !append_assoc3, !append_String|].
    intros rest' _.
    rewrite !append_assoc3, !append_String, !append_assoc3, !append_String,
      !append_assoc3, !append_String, append_empty_l.
    rewrite Hws, Hquote, Hextk, Hws2, Hcolon.
    rewrite Hextv by (right; apply same_front_behind, same_front_cons).
    now rewrite Hws3, Hcomma, Hclose.
Qed.

End Locality.

Lemma parsers_local (fuel : nat) :
  local closed_value (value fuel) /\
  local (fun _ => True) (elements fuel) /\
  local (fun _ => True) (members fuel).
Proof.
  induction fuel as [|fuel (IHv & IHe & IHm)].
  - repeat split; intros s a rest H; discriminate H.
  - destruct (parsers_consume fuel) as (Cv & Ce & Cm).
    repeat split.
    + apply value_with_local; assumption.
    + apply elements_with_local; assumption.
    + apply members_with_local; assumption.
Qed.

Lemma skip_ws_blank_app (s t : string) :
  skip_ws s = "" -> skip_ws (s +:+ t) = skip_ws t.
Proof.
  induction s as [|c s IH]; intros H; [now rewrite append_empty_l|].
  rewrite append_String. simpl in *.
  destruct (is_ws c); [now apply IH|discriminate].
Qed.

Lemma string_length_app (s t : string) :
  String.length (s +:+ t) = (String.length s + String.length t)%nat.
Proof.
  induction s as [|c s IH]; [now rewrite append_empty_l|].
  rewrite append_String. simpl. now rewrite IH.
Qed.

(** A text that parses to a string, an array or an object (or to a
    literal) stops parsing once anything but white space is put behind
    it. *)
Lemma parse_then_more (m tail : string) (v : json) :
  JSON_parse m = Resolved v -> closed_value v -> skip_ws tail <> "" ->
  JSON_parse (m +:+ tail) = Rejected "SyntaxError".
Proof.
  intros Hparse Hclosed Htail. unfold JSON_parse in Hparse.
  destruct (value (fuel_for m) m) as [v' rest| |] eqn:Hv; try discriminate.
  destruct (skip_ws rest) eqn:Hrest; [|discriminate].
  injection Hparse as ->.
  destruct (parsers_local (fuel_for m)) as (Hlocal & _ & _).
  destruct (Hlocal _ _ _ Hv) as (used & Hm & Hext).
  specialize (Hext (rest +:+ tail) (or_introl Hclosed)).
  rewrite <- append_assoc3, <- Hm in Hext.
  assert (Hfuel : value (fuel_for (m +:+ tail)) (m +:+ tail) = Parsed v (rest +:+ tail)).
  { replace (fuel_for (m +:+ tail))
      with (fuel_for m + 2 * String.length tail)%nat
      by (unfold fuel_for; rewrite string_length_app; lia).
    rewrite value_more_fuel; [exact Hext|]. rewrite Hext. discriminate. }
  unfold JSON_parse. rewrite Hfuel, (skip_ws_blank_app _ _ Hrest).
  destruct (skip_ws tail); [contradiction|reflexivity].
Qed.


Lemma skip_ws_ends (s : string) (c : ascii) :
  is_ws c = false -> skip_ws (s +:+ String c "") <> "".
Proof.
  intros Hc. induction s as [|a s IH].
  - rewrite append_empty_l. simpl. now rewrite Hc.
  - rewrite append_String. simpl. now destruct (is_ws a).
Qed.



(** ** The brace group of the norms answer *)

Lemma greedy_close_none (r : string) :
  has_char "}" r = false -> greedy_close r = None.
Proof.
  induction r as [|c r IH]; [reflexivity|].
  cbn [has_char greedy_close]. intros H.
  apply orb_false_iff in H as [Hc Hr]. now rewrite (IH Hr), Hc.
Qed.

Lemma greedy_close_last (a b : string) :
  has_char "}" b = false -> greedy_close (a +:+ String "}" b) = Some (a +:+ "}").
Proof.
  intros Hb. induction a as [|c a IH].
  - rewrite !append_empty_l. cbn [greedy_close].
    now rewrite (greedy_close_none _ Hb).
  - rewrite !append_String. cbn [greedy_close]. now rewrite IH.
Qed.

Lemma match_object_finds (pre r m : string) :
  has_char "{" pre = false -> greedy_close r = Some m ->
  match_object (pre +:+ String "{" r) = Some (String "{" m).
Proof.
  intros Hpre Hr. induction pre as [|c pre IH].
  - rewrite append_empty_l. cbn [match_object]. now rewrite Hr.
  - rewrite append_String. cbn [has_char] in Hpre.
    apply orb_false_iff in Hpre as [Hc Hrest].
    cbn [match_object]. rewrite Hc. now apply IH.
Qed.

Lemma last_close (post : string) :
  has_char "}" post = true ->
  exists p1 p2, post = p1 +:+ String "}" p2 /\ has_char "}" p2 = false.
Proof.
  induction post as [|c post IH]; [discriminate|].
  cbn [has_char]. destruct (has_char "}" post) eqn:Hpost.
  - intros _. destruct (IH eq_refl) as (p1 & p2 & -> & Hp2).
    exists (String c p1), p2. now rewrite append_String.
  - rewrite orb_false_r. intros Hc. apply Ascii.eqb_eq in Hc. subst c.
    exists "", post. split; [now rewrite append_empty_l|exact Hpost].
Qed.

Lemma norms_from_embedded (pre body post : string) (v : json) :
  has_char "{" pre = false ->
  JSON_parse (String "{" (body +:+ "}")) = Resolved v ->
  norms_from (pre +:+ String "{" (body +:+ "}") +:+ post)
  = Resolved (if has_char "}" post then getDefaultNorms else v).
Proof.
  intros Hpre Hparse.
  rewrite append_String, append_assoc3, append_String, append_empty_l.
  destruct (has_char "}" post) eqn:Hpost.
  - destruct (last_close _ Hpost) as (p1 & p2 & -> & Hp2).
    assert (Hm : match_object (pre +:+ String "{" (body +:+ String "}" (p1 +:+ String "}" p2)))
                 = Some (String "{" ((body +:+ String "}" p1) +:+ "}"))).
    { apply match_object_finds; [exact Hpre|].
      rewrite <- (greedy_close_last (body +:+ String "}" p1) p2 Hp2).
      now rewrite append_assoc3, append_String. }
    unfold norms_from. rewrite Hm.
    destruct (parse_brace_is_object _ _ Hparse) as [members ->].
    assert (Hmore := parse_then_more _ (p1 +:+ "}") _ Hparse I
                       (skip_ws_ends p1 "}" eq_refl)).
    rewrite append_String, !append_assoc3, append_String, append_empty_l in Hmore.
    rewrite !append_assoc3, append_String. now rewrite Hmore.
  - assert (Hm : match_object (pre +:+ String "{" (body +:+ String "}" post))
                 = Some (String "{" (body +:+ "}"))).
    { apply match_object_finds; [exact Hpre|]. now apply greedy_close_last. }
    unfold norms_from. now rewrite Hm, Hparse.
Qed.

(** X22: when the answer to the norms prompt holds a well-formed JSON
    object with no opening brace in the text before it, [getTeamNorms]
    returns that object (nested objects included) if no closing brace
    follows it, and the default norms if one does: the greedy pattern runs
    to the last closing brace of the answer. *)
Theorem getTeamNorms_embedded_object (session : Session) (teamName : string)
    (env : Env) (w : World) (r : response) (pre body post : string) (v : json) :
  next_reply session w (getTeamNorms_prompt teamName) = Resolved r ->
  message r = pre +:+ String "{" (body +:+ "}") +:+ post ->
  has_char "{" pre = false ->
  JSON_parse (String "{" (body +:+ "}")) = Resolved v ->
  fst (getTeamNorms session teamName env w)
  = Resolved (if has_char "}" post then getDefaultNorms else v).
Proof.
  intros Hr Hmessage Hpre Hparse.
  rewrite (norms_call_result _ _ _ _ _ Hr), Hmessage.
  now apply norms_from_embedded.
Qed.

Lemma getTeamNorms_embedded_object_witness :
  fst (getTeamNorms
         (canned_session
            ("The norms: "
             +:+ String "{" (q "~reviewProcess~: {~approvals~: 2}" +:+ "}")
             +:+ " as of today."))
         "platform" (quiet_env noon) start_world)
  = Resolved (JObject [("reviewProcess", JObject [("approvals", JNumber "2")])]) /\
  fst (getTeamNorms
         (canned_session
            ("The norms: "
             +:+ String "{" (q "~reviewProcess~: {~approvals~: 2}" +:+ "}")
             +:+ " (see {wiki})"))
         "platform" (quiet_env noon) start_world)
  = Resolved getDefaultNorms.
Proof.
  split.
  - apply (getTeamNorms_embedded_object _ "platform" (quiet_env noon) start_world
             {| message := "The norms: "
                  +:+ String "{" (q "~reviewProcess~: {~approvals~: 2}" +:+ "}")
                  +:+ " as of today." |}
             "The norms: " (q "~reviewProcess~: {~approvals~: 2}") " as of today.");
      vm_compute; reflexivity.
  - apply (getTeamNorms_embedded_object _ "platform" (quiet_env noon) start_world
             {| message := "The norms: "
                  +:+ String "{" (q "~reviewProcess~: {~approvals~: 2}" +:+ "}")
                  +:+ " (see {wiki})" |}
             "The norms: " (q "~reviewProcess~: {~approvals~: 2}") " (see {wiki})"
             (JObject [("reviewProcess", JObject [("approvals", JNumber "2")])]));
      vm_compute; reflexivity.
Defined.
